(** * script_args_parser: the argument resolution engine of [parser.py]

    A shallow embedding of [src/script_args_parser/parser.py]: the
    [Argument] descriptor with its [__post_init__], the converters of
    [TYPES_MAPPING], and the passes of [ArgumentsParser] ([_fallback_values],
    [_calculate_lists_and_tuples], [_convert_values]) together with the
    splitting helpers [_parse_tuple], [_split_list], [_parse_list] and
    [_parse_list_of_tuples].

    The helpers rest on Python's [shlex] lexer, on two regular expressions
    and on a few [str] methods; these library pieces are embedded here as
    well, following CPython's [Lib/shlex.py] line by line.  The toml and
    argparse glue ([_parse_toml_definitions] and [_read_cli_arguments]) is
    not: a run starts from the parsed definitions and from the dictionary of
    values that argparse returned.  [Argument.argparse_options] is embedded
    as the positional arguments and the keyword dictionary that it returns.

    Python text is modelled by [string]; a character is one [ascii], read as
    a code point below 256.  Python's [None] is [None] of an option type
    where the source declares [Optional], and the constructor [VNone] inside
    the untyped dictionary of values. *)

From Stdlib Require Import Strings.String Strings.Ascii ZArith List Lia Bool.
From Stdlib Require Import Numbers.DecimalString.
From Equations Require Import Equations.
From stdpp Require Import gmap strings.
Import ListNotations.

Open Scope string_scope.

(** ** Python values and exceptions *)

(** What a slot of [arguments_values] can hold while the passes run. *)
#[warnings="-register-all"]
Inductive value :=
| VNone
| VStr (s : string)
| VInt (z : Z)
| VBool (b : bool)
| VList (l : list value).

(** Exception classes the modelled code raises, with their message. *)
Inductive exn :=
| ValueError (msg : string)
| RuntimeError (msg : string)
| KeyError (key : string)
| TypeError (msg : string)
| AttributeError (msg : string)
(** Not a Python exception: the iteration budget of a modelled [while True]
    loop ran out.  [shlex_budget_enough] shows the lexer never gets there. *)
| Unterminated.

Inductive Exc (A : Type) :=
| Ok (a : A)
| Raise (e : exn).
Arguments Ok {A} a.
Arguments Raise {A} e.

Definition bindE {A B} (m : Exc A) (f : A -> Exc B) : Exc B :=
  match m with
  | Ok a => f a
  | Raise e => Raise e
  end.

Declare Scope exc_scope.
Delimit Scope exc_scope with exc.
Notation "'let*' x ':=' m 'in' k" := (bindE m (fun x => k))
  (at level 10, x name, m at level 100, k at level 200) : exc_scope.
Notation "'let*' ( x , y ) ':=' m 'in' k" :=
  (bindE m (fun xy => let (x, y) := xy in k))
  (at level 10, x name, y name, m at level 100, k at level 200) : exc_scope.
Open Scope exc_scope.

(** A [for] loop whose body may raise, mapping over the iterated list. *)
Fixpoint mapE {A B} (f : A -> Exc B) (l : list A) : Exc (list B) :=
  match l with
  | [] => Ok []
  | x :: l' => let* y := f x in let* ys := mapE f l' in Ok (y :: ys)
  end.

(** ** [str] primitives *)

Definition chr (n : nat) : ascii := ascii_of_nat n.
Definition str1 (c : ascii) : string := String c EmptyString.

(** [c in s] for a one-character [c]. *)
Fixpoint char_in (c : ascii) (s : string) : bool :=
  match s with
  | EmptyString => false
  | String d s' => Ascii.eqb c d || char_in c s'
  end.

(** [s.startswith(p)] *)
Fixpoint startswith (p s : string) : bool :=
  match p, s with
  | EmptyString, _ => true
  | String a p', String b s' => Ascii.eqb a b && startswith p' s'
  | String _ _, EmptyString => false
  end.

(** [s[n:]] *)
Fixpoint drop_str (n : nat) (s : string) : string :=
  match n, s with
  | O, _ => s
  | S n', String _ s' => drop_str n' s'
  | S _, EmptyString => EmptyString
  end.

(** [s.find(sub)]: index of the leftmost occurrence, [-1] when there is none. *)
Fixpoint str_find (s sub : string) : Z :=
  if startswith sub s then 0%Z
  else match s with
       | EmptyString => (-1)%Z
       | String _ s' =>
           let i := str_find s' sub in
           if (i =? -1)%Z then (-1)%Z else (i + 1)%Z
       end.

(** [s.replace(old, new, 1)]: only the leftmost occurrence is rewritten. *)
Fixpoint str_replace_1 (s old new : string) : string :=
  if startswith old s then new +:+ drop_str (String.length old) s
  else match s with
       | EmptyString => EmptyString
       | String c s' => String c (str_replace_1 s' old new)
       end.

(** [s.split(sep)] for a one-character separator. *)
Fixpoint str_split (sep : ascii) (s : string) : list string :=
  match s with
  | EmptyString => [EmptyString]
  | String c s' =>
      if Ascii.eqb c sep then EmptyString :: str_split sep s'
      else match str_split sep s' with
           | [] => [str1 c]
           | w :: ws => String c w :: ws
           end
  end.

(** [c.isspace()] on code points below 256. *)
Definition isspace (c : ascii) : bool :=
  let n := nat_of_ascii c in
  ((9 <=? n)%nat && (n <=? 13)%nat) || ((28 <=? n)%nat && (n <=? 32)%nat)
  || (n =? 133)%nat || (n =? 160)%nat.

Fixpoint lstrip (s : string) : string :=
  match s with
  | EmptyString => EmptyString
  | String c s' => if isspace c then lstrip s' else s
  end.

Fixpoint rstrip (s : string) : string :=
  match s with
  | EmptyString => EmptyString
  | String c s' =>
      match rstrip s' with
      | EmptyString => if isspace c then EmptyString else str1 c
      | r => String c r
      end
  end.

(** [s.strip()] *)
Definition strip (s : string) : string := rstrip (lstrip s).

(** [io.StringIO.readline]: the text after the first newline. *)
Fixpoint after_line (s : string) : string :=
  match s with
  | EmptyString => EmptyString
  | String c s' => if Ascii.eqb c (chr 10) then s' else after_line s'
  end.

(** Decimal rendering of a length, as an f-string prints it. *)
Definition str_of_nat (n : nat) : string :=
  NilZero.string_of_uint (Nat.to_uint n).

(** ** The [shlex] lexer

    The attributes of a [shlex] object that the two call sites of the parser
    can reach.  [instream] holds the unread rest of the [StringIO]; the
    object is always built without [punctuation_chars], with [debug = 0] and
    with no source inclusion, so [filestack] stays empty and [source] stays
    [None]. *)
Record shlex := mk_shlex {
  instream : string;
  posix : bool;
  commenters : string;
  wordchars : string;
  whitespace : string;
  whitespace_split : bool;
  quotes : string;
  escape : string;
  escapedquotes : string;
  state : option ascii;
  pushback : list string;
  lineno : nat;
  token : string
}.

Definition punctuation_chars : string := "".

(** [self.eof]: [None] in POSIX mode, the empty string otherwise. *)
Definition eof (self : shlex) : option string :=
  if posix self then None else Some "".

Definition set_instream (v : string) (self : shlex) : shlex :=
  mk_shlex v (posix self) (commenters self) (wordchars self) (whitespace self)
    (whitespace_split self) (quotes self) (escape self) (escapedquotes self)
    (state self) (pushback self) (lineno self) (token self).
Definition set_commenters (v : string) (self : shlex) : shlex :=
  mk_shlex (instream self) (posix self) v (wordchars self) (whitespace self)
    (whitespace_split self) (quotes self) (escape self) (escapedquotes self)
    (state self) (pushback self) (lineno self) (token self).
Definition set_whitespace (v : string) (self : shlex) : shlex :=
  mk_shlex (instream self) (posix self) (commenters self) (wordchars self) v
    (whitespace_split self) (quotes self) (escape self) (escapedquotes self)
    (state self) (pushback self) (lineno self) (token self).
Definition set_whitespace_split (v : bool) (self : shlex) : shlex :=
  mk_shlex (instream self) (posix self) (commenters self) (wordchars self)
    (whitespace self) v (quotes self) (escape self) (escapedquotes self)
    (state self) (pushback self) (lineno self) (token self).
Definition set_state (v : option ascii) (self : shlex) : shlex :=
  mk_shlex (instream self) (posix self) (commenters self) (wordchars self)
    (whitespace self) (whitespace_split self) (quotes self) (escape self)
    (escapedquotes self) v (pushback self) (lineno self) (token self).
Definition set_pushback (v : list string) (self : shlex) : shlex :=
  mk_shlex (instream self) (posix self) (commenters self) (wordchars self)
    (whitespace self) (whitespace_split self) (quotes self) (escape self)
    (escapedquotes self) (state self) v (lineno self) (token self).
Definition set_lineno (v : nat) (self : shlex) : shlex :=
  mk_shlex (instream self) (posix self) (commenters self) (wordchars self)
    (whitespace self) (whitespace_split self) (quotes self) (escape self)
    (escapedquotes self) (state self) (pushback self) v (token self).
Definition set_token (v : string) (self : shlex) : shlex :=
  mk_shlex (instream self) (posix self) (commenters self) (wordchars self)
    (whitespace self) (whitespace_split self) (quotes self) (escape self)
    (escapedquotes self) (state self) (pushback self) (lineno self) v.

(** The characters with codes [lo], [lo+1], ..., [lo+n-1]. *)
Fixpoint code_range (lo n : nat) : string :=
  match n with
  | O => EmptyString
  | S n' => String (chr lo) (code_range (S lo) n')
  end.

(** [shlex.__init__(instream, posix=posix)]: the accented letters that POSIX
    mode adds to [wordchars] are the code points 223-246, 248-255, 192-214
    and 216-222. *)
Definition shlex_init (s : string) (posix : bool) : shlex :=
  let wordchars :=
    "abcdfeghijklmnopqrstuvwxyzABCDEFGHIJKLMNOPQRSTUVWXYZ0123456789_" in
  let wordchars :=
    if posix
    then wordchars +:+ code_range 223 24 +:+ code_range 248 8
                   +:+ code_range 192 23 +:+ code_range 216 7
    else wordchars in
  {| instream := s;
     posix := posix;
     commenters := "#";
     wordchars := wordchars;
     whitespace :=
       String " " (String (chr 9) (String (chr 13) (str1 (chr 10))));
     whitespace_split := false;
     quotes := String "'" (str1 (chr 34));
     escape := "\";
     escapedquotes := str1 (chr 34);
     state := Some " "%char;
     pushback := [];
     lineno := 1;
     token := "" |}.

(** How one pass through the body of [while True] in [read_token] ends; the
    locals [quoted] and [escapedstate] travel with the object. *)
Inductive flow :=
| Continue (self : shlex) (quoted : bool) (escapedstate : ascii)
| Break (self : shlex) (quoted : bool)
| Throw (e : exn).

(** [self.token or (self.posix and quoted)], then [break] or [continue]. *)
Definition emit_or_continue (self : shlex) (quoted : bool)
    (escapedstate : ascii) : flow :=
  if negb (String.eqb (token self) "") || (posix self && quoted)
  then Break self quoted
  else Continue self quoted escapedstate.

Definition token_add (c : ascii) (self : shlex) : shlex :=
  set_token (token self +:+ str1 c) self.

(** One pass through the loop body of [read_token]. *)
Definition read_token_pass (self : shlex) (quoted : bool)
    (escapedstate : ascii) : flow :=
  let nextchar :=
    match instream self with
    | EmptyString => None
    | String c _ => Some c
    end in
  let self := set_instream (drop_str 1 (instream self)) self in
  let self :=
    match nextchar with
    | Some c => if Ascii.eqb c (chr 10) then set_lineno (lineno self + 1) self
                else self
    | None => self
    end in
  match state self with
  | None => Break (set_token "" self) quoted
  | Some st =>
    if Ascii.eqb st " " then
      match nextchar with
      | None => Break (set_state None self) quoted
      | Some c =>
        if char_in c (whitespace self) then
          emit_or_continue self quoted escapedstate
        else if char_in c (commenters self) then
          let self := set_instream (after_line (instream self)) self in
          Continue (set_lineno (lineno self + 1) self) quoted escapedstate
        else if posix self && char_in c (escape self) then
          Continue (set_state (Some c) self) quoted "a"
        else if char_in c (wordchars self) then
          Continue (set_state (Some "a"%char) (set_token (str1 c) self))
                   quoted escapedstate
        else if char_in c punctuation_chars then
          Continue (set_state (Some "c"%char) (set_token (str1 c) self))
                   quoted escapedstate
        else if char_in c (quotes self) then
          let self := if negb (posix self) then set_token (str1 c) self
                      else self in
          Continue (set_state (Some c) self) quoted escapedstate
        else if whitespace_split self then
          Continue (set_state (Some "a"%char) (set_token (str1 c) self))
                   quoted escapedstate
        else
          emit_or_continue (set_token (str1 c) self) quoted escapedstate
      end
    else if char_in st (quotes self) then
      let quoted := true in
      match nextchar with
      | None => Throw (ValueError "No closing quotation")
      | Some c =>
        if Ascii.eqb c st then
          if negb (posix self)
          then Break (set_state (Some " "%char) (token_add c self)) quoted
          else Continue (set_state (Some "a"%char) self) quoted escapedstate
        else if posix self && char_in c (escape self)
                && char_in st (escapedquotes self) then
          Continue (set_state (Some c) self) quoted st
        else
          Continue (token_add c self) quoted escapedstate
      end
    else if char_in st (escape self) then
      match nextchar with
      | None => Throw (ValueError "No escaped character")
      | Some c =>
        let self :=
          if char_in escapedstate (quotes self)
             && negb (Ascii.eqb c st) && negb (Ascii.eqb c escapedstate)
          then token_add st self
          else self in
        Continue (set_state (Some escapedstate) (token_add c self))
                 quoted escapedstate
      end
    else if Ascii.eqb st "a" || Ascii.eqb st "c" then
      match nextchar with
      | None => Break (set_state None self) quoted
      | Some c =>
        if char_in c (whitespace self) then
          emit_or_continue (set_state (Some " "%char) self) quoted escapedstate
        else if char_in c (commenters self) then
          let self := set_instream (after_line (instream self)) self in
          let self := set_lineno (lineno self + 1) self in
          if posix self
          then emit_or_continue (set_state (Some " "%char) self)
                                quoted escapedstate
          else Continue self quoted escapedstate
        else if Ascii.eqb st "c" then
          if char_in c punctuation_chars
          then Continue (token_add c self) quoted escapedstate
          else Throw (AttributeError
                        "'shlex' object has no attribute '_pushback_chars'")
        else if posix self && char_in c (quotes self) then
          Continue (set_state (Some c) self) quoted escapedstate
        else if posix self && char_in c (escape self) then
          Continue (set_state (Some c) self) quoted "a"
        else if char_in c (wordchars self) || char_in c (quotes self)
                || (whitespace_split self
                    && negb (char_in c punctuation_chars)) then
          Continue (token_add c self) quoted escapedstate
        else
          let self := set_pushback (str1 c :: pushback self) self in
          emit_or_continue (set_state (Some " "%char) self) quoted escapedstate
      end
    else Continue self quoted escapedstate
  end.

(** The [while True] loop of [read_token], bounded by [budget] passes. *)
Fixpoint read_token_loop (budget : nat) (self : shlex) (quoted : bool)
    (escapedstate : ascii) : Exc (shlex * bool) :=
  match budget with
  | O => Raise Unterminated
  | S budget' =>
      match read_token_pass self quoted escapedstate with
      | Continue self' quoted' escapedstate' =>
          read_token_loop budget' self' quoted' escapedstate'
      | Break self' quoted' => Ok (self', quoted')
      | Throw e => Raise e
      end
  end.

(** [shlex.read_token]: [None] is Python's [None].  Every pass but a last
    one at the end of the input consumes a character, hence the budget. *)
Definition read_token (self : shlex) : Exc (option string * shlex) :=
  let* (self, quoted) :=
    read_token_loop (S (String.length (instream self))) self false " " in
  let result := token self in
  let self := set_token "" self in
  if posix self && negb quoted && String.eqb result ""
  then Ok (None, self)
  else Ok (Some result, self).

(** [shlex.get_token]: with an empty [filestack] the loop
    [while raw == self.eof] returns [self.eof], which is [raw]. *)
Definition get_token (self : shlex) : Exc (option string * shlex) :=
  match pushback self with
  | tok :: rest => Ok (Some tok, set_pushback rest self)
  | [] => read_token self
  end.

(** [shlex.__next__]: the outer [None] stands for [StopIteration].  A token
    that is Python's [None] comes from [read_token] in POSIX mode only
    ([read_token_None_posix]), where it is [self.eof]. *)
Definition shlex_next (self : shlex) : Exc (option string * shlex) :=
  let* (tok, self) := get_token self in
  match tok, eof self with
  | None, _ => Ok (None, self)
  | Some t, Some e => if String.eqb t e then Ok (None, self)
                      else Ok (Some t, self)
  | Some t, None => Ok (Some t, self)
  end.

(** [list(lex)] *)
Fixpoint shlex_list (budget : nat) (self : shlex) : Exc (list string) :=
  match budget with
  | O => Raise Unterminated
  | S budget' =>
      let* (tok, self) := shlex_next self in
      match tok with
      | None => Ok []
      | Some t => let* rest := shlex_list budget' self in Ok (t :: rest)
      end
  end.

(** Tokens never outnumber twice the characters of the input. *)
Definition list_budget (self : shlex) : nat :=
  2 * String.length (instream self) + List.length (pushback self) + 2.

(** [shlex.split(s)] with its defaults [comments=False, posix=True]. *)
Definition shlex_split (s : string) : Exc (list string) :=
  let lex := shlex_init s true in
  let lex := set_whitespace_split true lex in
  let lex := set_commenters "" lex in
  shlex_list (list_budget lex) lex.

(** ** The doubled-delimiter loop of [_split_list]

    [[
    while argument_value.find(';;') != -1:
        argument_value = argument_value.replace(';;', '; ;', 1)
    ]]
    The loop is defined by recursion on the number of places where two
    semicolons stand side by side, which every pass lowers. *)

Definition is_semicolon (c : ascii) : bool := Ascii.eqb ";" c.

Fixpoint adjacent_pairs (s : string) : nat :=
  match s with
  | String a (String b _ as s') =>
      (if is_semicolon a && is_semicolon b then 1 else 0) + adjacent_pairs s'
  | _ => 0
  end.

Lemma str_find_eq (s sub : string) :
  str_find s sub =
  if startswith sub s then 0%Z
  else match s with
       | EmptyString => (-1)%Z
       | String _ s' =>
           let i := str_find s' sub in
           if (i =? -1)%Z then (-1)%Z else (i + 1)%Z
       end.
Proof. destruct s; reflexivity. Qed.

Lemma str_replace_1_eq (s old new : string) :
  str_replace_1 s old new =
  if startswith old s then new +:+ drop_str (String.length old) s
  else match s with
       | EmptyString => EmptyString
       | String c s' => String c (str_replace_1 s' old new)
       end.
Proof. destruct s; reflexivity. Qed.

Lemma startswith_doubled (s : string) :
  startswith ";;" s = true -> exists r, s = String ";" (String ";" r).
Proof.
  destruct s as [|a [|b r]]; cbn [startswith]; try discriminate.
  - rewrite andb_false_r. discriminate.
  - rewrite andb_true_r. intros H. apply andb_true_iff in H as [Ha Hb].
    apply Ascii.eqb_eq in Ha, Hb. subst. eexists. reflexivity.
Qed.

Lemma replace_head (c : ascii) (s : string) :
  exists r, str_replace_1 (String c s) ";;" "; ;" = String c r.
Proof.
  rewrite str_replace_1_eq.
  destruct (startswith ";;" (String c s)) eqn:Hpre.
  - apply startswith_doubled in Hpre as [r Hr]. injection Hr as -> ->.
    eexists. reflexivity.
  - eexists. reflexivity.
Qed.

Lemma adjacent_pairs_cons2 (a b : ascii) (s : string) :
  adjacent_pairs (String a (String b s)) =
  (if is_semicolon a && is_semicolon b then 1 else 0)
  + adjacent_pairs (String b s).
Proof. reflexivity. Qed.

Lemma replace_lowers_pairs (s : string) :
  str_find s ";;" <> (-1)%Z ->
  S (adjacent_pairs (str_replace_1 s ";;" "; ;")) = adjacent_pairs s.
Proof.
  induction s as [|a s IH]; [intros H; exfalso; apply H; reflexivity|].
  intros Hfind.
  destruct (startswith ";;" (String a s)) eqn:Hpre.
  - rewrite str_replace_1_eq, Hpre.
    apply startswith_doubled in Hpre as [r Hr]. injection Hr as -> ->.
    destruct r as [|c r]; reflexivity.
  - assert (Hs : str_find s ";;" <> (-1)%Z).
    { intros Hs. apply Hfind. rewrite str_find_eq, Hpre. cbv zeta.
      rewrite Hs. reflexivity. }
    specialize (IH Hs).
    rewrite (str_replace_1_eq (String a s)), Hpre.
    destruct s as [|b s]; [exfalso; apply Hs; reflexivity|].
    destruct (replace_head b s) as [r Hr]. rewrite Hr in IH |- *.
    rewrite !adjacent_pairs_cons2. rewrite <- IH. lia.
Qed.

Equations? rewrite_doubled (argument_value : string) : string
  by wf (adjacent_pairs argument_value) lt :=
  rewrite_doubled argument_value
    with Z.eq_dec (str_find argument_value ";;") (-1)%Z => {
    | left _ := argument_value;
    | right Hfind :=
        rewrite_doubled (str_replace_1 argument_value ";;" "; ;") }.
Proof.
  pose proof (replace_lowers_pairs argument_value Hfind). lia.
Qed.

(** ** Built-ins used as converters *)

Definition dquote : ascii := chr 34.

Definition hex_digit (n : nat) : ascii :=
  if (n <? 10)%nat then chr (48 + n) else chr (87 + n).

(** One character of [repr] of a [str] delimited by [q]. *)
Definition repr_char (q c : ascii) : string :=
  let n := nat_of_ascii c in
  if Ascii.eqb c q || Ascii.eqb c "\" then String "\" (str1 c)
  else if (n =? 9)%nat then "\t"
  else if (n =? 10)%nat then "\n"
  else if (n =? 13)%nat then "\r"
  else if (n <? 32)%nat || (n =? 127)%nat
          || ((128 <=? n)%nat && (n <=? 160)%nat) || (n =? 173)%nat
       then "\x" +:+ String (hex_digit (n / 16)) (str1 (hex_digit (n mod 16)))
  else str1 c.

Fixpoint repr_chars (q : ascii) (s : string) : string :=
  match s with
  | EmptyString => EmptyString
  | String c s' => repr_char q c +:+ repr_chars q s'
  end.

(** [repr(s)] of a [str]. *)
Definition repr_str (s : string) : string :=
  let q := if char_in "'" s && negb (char_in dquote s) then dquote
           else "'"%char in
  String q (repr_chars q s) +:+ str1 q.

Definition str_of_Z (z : Z) : string :=
  NilZero.string_of_int (Z.to_int z).

Fixpoint join (sep : string) (l : list string) : string :=
  match l with
  | [] => EmptyString
  | [x] => x
  | x :: l' => x +:+ sep +:+ join sep l'
  end.

(** [sys.get_int_max_str_digits()], at its default. *)
Definition int_max_str_digits : nat := 4300.

(** Some [int] inside [v] has more decimal digits than [int_max_str_digits]:
    [repr] and [str] raise on such a value. *)
Fixpoint repr_overlong (v : value) : bool :=
  match v with
  | VInt z => (int_max_str_digits <? String.length (str_of_Z (Z.abs z)))%nat
  | VList l => existsb repr_overlong l
  | _ => false
  end.

Fixpoint py_repr (v : value) : string :=
  match v with
  | VNone => "None"
  | VStr s => repr_str s
  | VInt z => str_of_Z z
  | VBool b => if b then "True" else "False"
  | VList l => "[" +:+ join ", " (map py_repr l) +:+ "]"
  end.

(** [str(v)], as CPython 3.11 converts with the default limit on the
    number of digits. *)
Definition py_str (v : value) : Exc value :=
  match v with
  | VStr s => Ok (VStr s)
  | _ =>
      if repr_overlong v then
        Raise (ValueError
                 ("Exceeds the limit (" +:+ str_of_nat int_max_str_digits
                  +:+ " digits) for integer string conversion; "
                  +:+ "use sys.set_int_max_str_digits() to increase the limit"))
      else Ok (VStr (py_repr v))
  end.

Definition is_digit (c : ascii) : bool :=
  let n := nat_of_ascii c in (48 <=? n)%nat && (n <=? 57)%nat.

Definition digit_val (c : ascii) : Z := Z.of_nat (nat_of_ascii c - 48).

(** The digits of a decimal literal after its first digit; an underscore may
    stand between two digits. *)
Fixpoint int_digits (acc : Z) (s : string) : option Z :=
  match s with
  | EmptyString => Some acc
  | String c s' =>
      if is_digit c then int_digits (10 * acc + digit_val c) s'
      else if Ascii.eqb c "_" then
        match s' with
        | String d s'' =>
            if is_digit d then int_digits (10 * acc + digit_val d) s''
            else None
        | EmptyString => None
        end
      else None
  end.

(** Whitespace that [int()] skips at either end of a literal: the ASCII
    whitespace of C and, of the other characters below code point 256, the
    two that are spaces. *)
Definition int_isspace (c : ascii) : bool :=
  let n := nat_of_ascii c in
  ((9 <=? n)%nat && (n <=? 13)%nat) || (n =? 32)%nat
  || (n =? 133)%nat || (n =? 160)%nat.

Fixpoint int_lstrip (s : string) : string :=
  match s with
  | EmptyString => EmptyString
  | String c s' => if int_isspace c then int_lstrip s' else s
  end.

Fixpoint int_rstrip (s : string) : string :=
  match s with
  | EmptyString => EmptyString
  | String c s' =>
      match int_rstrip s' with
      | EmptyString => if int_isspace c then EmptyString else str1 c
      | r => String c r
      end
  end.

Definition int_strip (s : string) : string := int_rstrip (int_lstrip s).

Definition int_literal (s : string) : option Z :=
  let s := int_strip s in
  let '(neg, s) :=
    match s with
    | String "-" s' => (true, s')
    | String "+" s' => (false, s')
    | _ => (false, s)
    end in
  match s with
  | String c s' =>
      if is_digit c
      then option_map (fun z => if neg then (- z)%Z else z)
                      (int_digits (digit_val c) s')
      else None
  | EmptyString => None
  end.

Definition type_name (v : value) : string :=
  match v with
  | VNone => "NoneType"
  | VStr _ => "str"
  | VInt _ => "int"
  | VBool _ => "bool"
  | VList _ => "list"
  end.

(** The number of digits in the longest run of digits and underscores at
    the head of [s]; none when two underscores stand side by side in the run
    or an underscore ends it.  [after] tells that the character before [s]
    is an underscore. *)
Fixpoint literal_scan (after : bool) (s : string) : option nat :=
  match s with
  | EmptyString => if after then None else Some 0
  | String c s' =>
      if is_digit c then option_map S (literal_scan false s')
      else if Ascii.eqb c "_" then
        if after then None else literal_scan true s'
      else if after then None else Some 0
  end.

(** The number of digits of a literal that has more of them than
    [int_max_str_digits]; they are counted, leading zeros included, before
    what follows them is looked at. *)
Definition int_overlong (s : string) : option nat :=
  let s := int_strip s in
  let s :=
    match s with
    | String "-" s' => s'
    | String "+" s' => s'
    | _ => s
    end in
  match s with
  | String c _ =>
      if is_digit c then
        match literal_scan false s with
        | Some n => if (int_max_str_digits <? n)%nat then Some n else None
        | None => None
        end
      else None
  | EmptyString => None
  end.

(** [s[:n]] *)
Fixpoint take_str (n : nat) (s : string) : string :=
  match n, s with
  | S n', String c s' => String c (take_str n' s')
  | _, _ => EmptyString
  end.

(** [int(v)], as CPython 3.11 converts with the default limit on the
    number of digits; the message of an invalid literal shows the first 200
    characters of its [repr]. *)
Definition py_int (v : value) : Exc value :=
  match v with
  | VStr s =>
      match int_overlong s with
      | Some n =>
          Raise (ValueError
                   ("Exceeds the limit (" +:+ str_of_nat int_max_str_digits
                    +:+ " digits) for integer string conversion: value has "
                    +:+ str_of_nat n
                    +:+ " digits; use sys.set_int_max_str_digits() to "
                    +:+ "increase the limit"))
      | None =>
          match int_literal s with
          | Some z => Ok (VInt z)
          | None =>
              Raise (ValueError
                       ("invalid literal for int() with base 10: "
                        +:+ take_str 200 (repr_str s)))
          end
      end
  | VInt z => Ok (VInt z)
  | VBool b => Ok (VInt (if b then 1 else 0))
  | _ => Raise (TypeError
           ("int() argument must be a string, a bytes-like object or a real "
            +:+ "number, not '" +:+ type_name v +:+ "'"))
  end.

(** [bool(v)] *)
Definition py_bool (v : value) : bool :=
  match v with
  | VNone => false
  | VStr s => negb (String.eqb s "")
  | VInt z => negb (z =? 0)%Z
  | VBool b => b
  | VList l => match l with [] => false | _ => true end
  end.

(** [v in l] for a list [l] of [str]: only a [str] can equal one. *)
Definition in_strs (v : value) (l : list string) : bool :=
  match v with
  | VStr s => existsb (String.eqb s) l
  | _ => false
  end.

(** [iter(v)]: the items a [for] or [zip] draws from [v]. *)
Definition py_iter (v : value) : Exc (list value) :=
  match v with
  | VList l => Ok l
  | VStr s => Ok (map (fun c => VStr (str1 c)) (list_ascii_of_string s))
  | _ => Raise (TypeError ("'" +:+ type_name v +:+ "' object is not iterable"))
  end.

(** ** [parser.py] *)

(** *** [class Argument] *)
Record Argument := mk_Argument {
  name : string;
  type : string;
  description : string;
  cli_arg : string;
  env_var : option string;
  default_value : option string;
  is_list : bool;
  list_type : option string;
  is_tuple : bool;
  tuple_types : option (list string)
}.

Definition newline : ascii := chr 10.

(** The longest newline-free prefix [p] with [s = p ++ "]" ++ _]: the rest
    of a greedy [.*\]]. *)
Fixpoint greedy_close (s : string) : option string :=
  match s with
  | EmptyString => None
  | String c s' =>
      if Ascii.eqb c newline then None
      else match greedy_close s' with
           | Some p => Some (String c p)
           | None => if Ascii.eqb c "]" then Some EmptyString else None
           end
  end.

(** The shortest such prefix: the rest of a lazy [.*?\]]. *)
Fixpoint lazy_close (s : string) : option string :=
  match s with
  | EmptyString => None
  | String c s' =>
      if Ascii.eqb c "]" then Some EmptyString
      else if Ascii.eqb c newline then None
      else option_map (String c) (lazy_close s')
  end.

(** Group 1 of [re.match(r'list\[(.+)\]', s)]: the match is anchored at the
    start, the dot takes no newline, [.+] is greedy. *)
Definition list_match (s : string) : option string :=
  if startswith "list[" s then
    match drop_str 5 s with
    | String c s' =>
        if Ascii.eqb c newline then None
        else option_map (String c) (greedy_close s')
    | EmptyString => None
    end
  else None.

(** Group 1 of [re.search(r'tuple\[(.+?)\]', s)]: the leftmost position
    where the pattern matches, [.+?] taking as little as it can. *)
Fixpoint tuple_match (s : string) : option string :=
  let here :=
    if startswith "tuple[" s then
      match drop_str 6 s with
      | String c s' =>
          if Ascii.eqb c newline then None
          else option_map (String c) (lazy_close s')
      | EmptyString => None
      end
    else None in
  match here with
  | Some g => Some g
  | None =>
      match s with
      | EmptyString => None
      | String _ s' => tuple_match s'
      end
  end.

(** [Argument.__post_init__], applied to the fields the dataclass stored. *)
Definition __post_init__ (name type description cli_arg : string)
    (env_var default_value : option string) : Argument :=
  let is_list := false in
  let list_type := None in
  let is_tuple := false in
  let tuple_types := None in
  let '(is_list, list_type) :=
    match list_match type with
    | Some g => (true, Some g)
    | None => (is_list, list_type)
    end in
  let '(is_tuple, tuple_types) :=
    match tuple_match type with
    | Some g => (true, Some (map strip (str_split "," g)))
    | None => (is_tuple, tuple_types)
    end in
  mk_Argument name type description cli_arg env_var default_value
              is_list list_type is_tuple tuple_types.

(** One table of the definitions document: the keyword arguments of
    [Argument(name=arg_name, **arg_def)]. *)
Record arg_def := mk_arg_def {
  def_name : string;
  def_type : string;
  def_description : string;
  def_cli_arg : string;
  def_env_var : option string;
  def_default_value : option string
}.

(** [Argument(...)]: the generated [__init__] stores the fields and calls
    [__post_init__]; nothing in it raises. *)
Definition Argument_new (d : arg_def) : Exc Argument :=
  Ok (__post_init__ (def_name d) (def_type d) (def_description d)
        (def_cli_arg d) (def_env_var d) (def_default_value d)).

(** *** [str_to_bool] *)
Definition str_to_bool (value : value) : bool :=
  if in_strs value ["0"; "False"] then false
  else if in_strs value ["1"; "True"] then true
  else py_bool value.

(** *** [ArgumentsParser.TYPES_MAPPING] *)
Definition TYPES_MAPPING (key : string) : option (value -> Exc value) :=
  if String.eqb key "str" then Some py_str
  else if String.eqb key "int" then Some py_int
  else if String.eqb key "bool" then Some (fun v => Ok (VBool (str_to_bool v)))
  else if String.eqb key "switch"
       then Some (fun v => Ok (VBool (str_to_bool v)))
  else None.

(** [self.TYPES_MAPPING[key]] *)
Definition TYPES_MAPPING_getitem (key : string) : Exc (value -> Exc value) :=
  match TYPES_MAPPING key with
  | Some conv => Ok conv
  | None => Raise (KeyError key)
  end.

(** *** [class ArgumentsParser] *)

(** [self.arguments_values[name]] *)
Definition getitem (arguments_values : gmap string value) (name : string)
    : Exc value :=
  match arguments_values !! name with
  | Some v => Ok v
  | None => Raise (KeyError name)
  end.

Definition is_None (v : value) : bool :=
  match v with
  | VNone => true
  | _ => false
  end.

(** [os.getenv(name)] over the process environment [environ]. *)
Definition getenv (environ : gmap string string) (name : string) : value :=
  match environ !! name with
  | Some s => VStr s
  | None => VNone
  end.

(** The body of the loop of [_fallback_values] for one [argument]. *)
Definition _fallback_values_body (environ : gmap string string)
    (arguments_values : gmap string value) (argument : Argument)
    : Exc (gmap string value) :=
  let* v := getitem arguments_values (name argument) in
  let arguments_values :=
    match env_var argument with
    | Some e =>
        if is_None v
        then <[name argument := getenv environ e]> arguments_values
        else arguments_values
    | None => arguments_values
    end in
  let* v := getitem arguments_values (name argument) in
  match default_value argument with
  | Some d =>
      if is_None v
      then Ok (<[name argument := VStr d]> arguments_values)
      else Ok arguments_values
  | None => Ok arguments_values
  end.

(** [for argument in self.arguments: ...] over a dictionary that each pass
    may update. *)
Fixpoint for_arguments (body : gmap string value -> Argument ->
                               Exc (gmap string value))
    (arguments : list Argument) (arguments_values : gmap string value)
    : Exc (gmap string value) :=
  match arguments with
  | [] => Ok arguments_values
  | argument :: rest =>
      let* arguments_values := body arguments_values argument in
      for_arguments body rest arguments_values
  end.

Definition _fallback_values (environ : gmap string string)
    (arguments : list Argument) (arguments_values : gmap string value)
    : Exc (gmap string value) :=
  for_arguments (_fallback_values_body environ) arguments arguments_values.

(** [len(argument.tuple_types)] *)
Definition len_tuple_types (argument : Argument) : Exc nat :=
  match tuple_types argument with
  | Some l => Ok (List.length l)
  | None => Raise (TypeError "object of type 'NoneType' has no len()")
  end.

Definition _parse_tuple (argument : Argument) (argument_value : string)
    : Exc (list string) :=
  let* ret_val := shlex_split argument_value in
  if (List.length ret_val =? 0)%nat then Ok [""]
  else
    let* expected_number := len_tuple_types argument in
    let actual_number := List.length ret_val in
    if negb (actual_number =? expected_number)%nat then
      Raise (RuntimeError
               ("Tuple " +:+ name argument +:+ " expected "
                +:+ str_of_nat expected_number +:+ " values and got "
                +:+ str_of_nat actual_number +:+ ": "
                +:+ argument_value +:+ "."))
    else Ok ret_val.

Definition _split_list (argument : Argument) (argument_value : string)
    : Exc (list string) :=
  if String.eqb argument_value "" then Ok [""]
  else
    let argument_value := " " +:+ argument_value +:+ " " in
    let argument_value := rewrite_doubled argument_value in
    let parser := shlex_init argument_value false in
    let parser := set_whitespace_split true parser in
    let parser := set_whitespace ";" parser in
    shlex_list (list_budget parser) parser.

(** The [for] loop of [_parse_list], [ret_val] being the list built so far. *)
Fixpoint _parse_list_loop (values : list string) (ret_val : list string)
    : Exc (list string) :=
  match values with
  | [] => Ok ret_val
  | value :: rest =>
      let* parsed_value := shlex_split value in
      match parsed_value with
      | [] => _parse_list_loop rest (ret_val ++ [""])%list
      | first :: _ => _parse_list_loop rest (ret_val ++ [first])%list
      end
  end.

Definition _parse_list (argument : Argument) (argument_value : string)
    : Exc (list string) :=
  let ret_val := [] in
  let* values := _split_list argument argument_value in
  _parse_list_loop values ret_val.

(** A computation that writes lines to standard output before it returns
    or raises. *)
Definition Out (A : Type) : Type := list string * Exc A.

Definition bindO {A B} (m : Out A) (f : A -> Out B) : Out B :=
  match m with
  | (out, Ok a) => let (out', r) := f a in ((out ++ out')%list, r)
  | (out, Raise e) => (out, Raise e)
  end.

Definition print (line : string) : Out unit := ([line], Ok tt).
Definition liftO {A} (m : Exc A) : Out A := ([], m).

(** The [for] loop of [_parse_list_of_tuples] with its two [print] calls. *)
Fixpoint _parse_list_of_tuples_loop (argument : Argument)
    (values : list string) (ret_val : list (list string))
    : Out (list (list string)) :=
  match values with
  | [] => liftO (Ok ret_val)
  | value :: rest =>
      bindO (print ("x" +:+ value +:+ "x")) (fun _ =>
      bindO (print "<class 'str'>") (fun _ =>
      bindO (liftO (_parse_tuple argument value)) (fun parsed_value =>
      _parse_list_of_tuples_loop argument rest
        (ret_val ++ [parsed_value])%list)))
  end.

Definition _parse_list_of_tuples (argument : Argument)
    (argument_value : string) : Out (list (list string)) :=
  let ret_val := [] in
  bindO (liftO (_split_list argument argument_value)) (fun values =>
  _parse_list_of_tuples_loop argument values ret_val).

Definition strs (l : list string) : value := VList (map VStr l).

(** The body of the loop of [_calculate_lists_and_tuples]. *)
Definition _calculate_lists_and_tuples_body
    (arguments_values : gmap string value) (argument : Argument)
    : Out (gmap string value) :=
  bindO (liftO (getitem arguments_values (name argument)))
    (fun argument_value =>
  if negb (is_list argument) && negb (is_tuple argument)
  then liftO (Ok arguments_values)
  else
    match argument_value with
    | VStr argument_value =>
        if is_list argument && negb (is_tuple argument) then
          bindO (liftO (_parse_list argument argument_value)) (fun r =>
          liftO (Ok (<[name argument := strs r]> arguments_values)))
        else if negb (is_list argument) && is_tuple argument then
          bindO (liftO (_parse_tuple argument argument_value)) (fun r =>
          liftO (Ok (<[name argument := strs r]> arguments_values)))
        else if is_list argument && is_tuple argument then
          bindO (_parse_list_of_tuples argument argument_value) (fun r =>
          liftO (Ok (<[name argument := VList (map strs r)]>
                       arguments_values)))
        else liftO (Ok arguments_values)
    | _ => liftO (Ok arguments_values)
    end).

Fixpoint _calculate_lists_and_tuples (arguments : list Argument)
    (arguments_values : gmap string value) : Out (gmap string value) :=
  match arguments with
  | [] => liftO (Ok arguments_values)
  | argument :: rest =>
      bindO (_calculate_lists_and_tuples_body arguments_values argument)
            (_calculate_lists_and_tuples rest)
  end.

(** [[conv(value) for conv, value in zip(converters, values)]] *)
Fixpoint zip_convert (converters : list (value -> Exc value))
    (values : list value) : Exc (list value) :=
  match converters, values with
  | conv :: converters', value :: values' =>
      let* v := conv value in
      let* vs := zip_convert converters' values' in
      Ok (v :: vs)
  | _, _ => Ok []
  end.

(** [[self.TYPES_MAPPING[x] for x in argument.tuple_types]] *)
Definition tuple_converters (argument : Argument)
    : Exc (list (value -> Exc value)) :=
  match tuple_types argument with
  | Some l => mapE TYPES_MAPPING_getitem l
  | None => Raise (TypeError "'NoneType' object is not iterable")
  end.

(** [self.TYPES_MAPPING[argument.list_type]] *)
Definition list_converter (argument : Argument) : Exc (value -> Exc value) :=
  match list_type argument with
  | Some t => TYPES_MAPPING_getitem t
  | None => Raise (KeyError "None")
  end.

(** The body of the loop of [_convert_values]. *)
Definition _convert_values_body (arguments_values : gmap string value)
    (argument : Argument) : Exc (gmap string value) :=
  let* argument_value := getitem arguments_values (name argument) in
  if is_None argument_value then Ok arguments_values
  else if is_list argument && negb (is_tuple argument) then
    let* items := py_iter argument_value in
    let* r := mapE (fun x => let* conv := list_converter argument in conv x)
                   items in
    Ok (<[name argument := VList r]> arguments_values)
  else if negb (is_list argument) && is_tuple argument then
    let* converters := tuple_converters argument in
    let* items := py_iter argument_value in
    let* r := zip_convert converters items in
    Ok (<[name argument := VList r]> arguments_values)
  else if is_list argument && is_tuple argument then
    let* converters := tuple_converters argument in
    let* items := py_iter argument_value in
    let* r := mapE (fun list_elem_value =>
                      let* elems := py_iter list_elem_value in
                      let* r := zip_convert converters elems in
                      Ok (VList r))
                   items in
    Ok (<[name argument := VList r]> arguments_values)
  else
    let* conv := TYPES_MAPPING_getitem (type argument) in
    let* r := conv argument_value in
    Ok (<[name argument := r]> arguments_values).

Definition _convert_values (arguments : list Argument)
    (arguments_values : gmap string value) : Exc (gmap string value) :=
  for_arguments _convert_values_body arguments arguments_values.

(** [ArgumentsParser.__init__], from the parsed definitions document
    [definitions] and the dictionary [cli_values] that
    [_read_cli_arguments] got from [argparse]; the result is the final
    [self.arguments_values]. *)
Definition ArgumentsParser_init (definitions : list arg_def)
    (cli_values : gmap string value) (environ : gmap string string)
    : Out (gmap string value) :=
  bindO (liftO (mapE Argument_new definitions)) (fun arguments =>
  let arguments_values := cli_values in
  bindO (liftO (_fallback_values environ arguments arguments_values))
    (fun arguments_values =>
  bindO (_calculate_lists_and_tuples arguments arguments_values)
    (fun arguments_values =>
  liftO (_convert_values arguments arguments_values)))).

(** *** [Argument.argparse_options]

    The keyword arguments are a dictionary from option names to Python
    values: the texts ['store'], ['append'] and ['?'], the constant [True] and
    the number of values of a tuple. *)
Definition argparse_options (self : Argument)
    : Exc (list string * gmap string value) :=
  let args := [cli_arg self] in
  let kwargs : gmap string value := {[ "dest" := VStr (name self) ]} in
  let kwargs :=
    if String.eqb (type self) "switch"
    then <["const" := VBool true]>
           (<["nargs" := VStr "?"]> (<["action" := VStr "store"]> kwargs))
    else kwargs in
  let kwargs :=
    if is_list self then <["action" := VStr "append"]> kwargs else kwargs in
  if is_tuple self then
    let* n := len_tuple_types self in
    Ok (args, <["nargs" := VInt (Z.of_nat n)]> kwargs)
  else Ok (args, kwargs).

(** ** Readings of the specification

    Definitions that follow the words of the specification, to state what
    the code is compared with. *)

(** What one list element becomes: its first shell token, or the empty
    string when it has none. *)
Definition first_shell_token (value : string) : Exc string :=
  let* parsed_value := shlex_split value in
  Ok (match parsed_value with
      | [] => ""
      | first :: _ => first
      end).

(** The text of the arity error: it names the argument, the expected count,
    the actual count and the raw string. *)
Definition arity_message (argument_name : string) (expected actual : nat)
    (raw : string) : string :=
  "Tuple " +:+ argument_name +:+ " expected " +:+ str_of_nat expected
  +:+ " values and got " +:+ str_of_nat actual +:+ ": " +:+ raw +:+ ".".

(** CLI value, then environment value, then declared default, then absent. *)
Definition fallback_chain (cli : value) (env default : option string)
    : value :=
  match cli, env, default with
  | VNone, Some e, _ => VStr e
  | VNone, None, Some d => VStr d
  | VNone, None, None => VNone
  | v, _, _ => v
  end.

(** The environment value of an argument: the variable must be declared for
    the argument and set in the environment. *)
Definition env_value (environ : gmap string string) (argument : Argument)
    : option string :=
  match env_var argument with
  | Some e => environ !! e
  | None => None
  end.

(** The value a finished run holds under [name]. *)
Definition resolved (run : Out (gmap string value)) (name : string)
    : Exc value :=
  let* arguments_values := snd run in
  getitem arguments_values name.

(** Descriptors of the scenarios. *)
Definition pair_def (default : option string) : arg_def :=
  mk_arg_def "pair" "tuple[int,str]" "an int and a str" "--pair" None default.
Definition pairs_def (default : option string) : arg_def :=
  mk_arg_def "pairs" "list[tuple[int,int]]" "pairs of ints" "--pairs" None
             default.
Definition floats_def (default : option string) : arg_def :=
  mk_arg_def "floats" "list[float]" "an unknown inner kind" "--floats" None
             default.
Definition absent (name : string) : gmap string value := {[ name := VNone ]}.

(** *** Scenarios and auxiliary notions *)

(** One pass of the loop. *)
Definition rewrite_pass (argument_value : string) : string :=
  str_replace_1 argument_value ";;" "; ;".

Definition names_arg : Argument :=
  __post_init__ "names" "list[str]" "a list of names" "--names" None None.

Definition pair_arg : Argument :=
  __post_init__ "pair" "tuple[int,str]" "an int and a str" "--pair" None None.

Definition label_def (default : option string) : arg_def :=
  mk_arg_def "label" "tuple[str,int]" "a str and an int" "--label" None
             default.

Definition label_arg : Argument :=
  __post_init__ "label" "tuple[str,int]" "a str and an int" "--label" None
                (Some "").

(** No arity error: the exception, if any, is not the [RuntimeError] that
    [_parse_tuple] raises. *)
Definition no_arity_error {A} (m : Exc A) : Prop :=
  forall msg, m <> Raise (RuntimeError msg).

Definition home_arg : Argument :=
  __post_init__ "home" "str" "a directory" "--home" (Some "HOME_DIR")
                (Some "/tmp").

(** *** Measures for the loops of the lexer *)

(** The lexer state is one that a branch of [read_token] handles. *)
Definition handled (self : shlex) (st : option ascii) : bool :=
  match st with
  | None => true
  | Some c =>
      Ascii.eqb c " " || char_in c (quotes self) || char_in c (escape self)
      || Ascii.eqb c "a" || Ascii.eqb c "c"
  end.

(** Each character still to read can yield a token and a pushed-back one. *)
Definition weight (self : shlex) : nat :=
  2 * String.length (instream self) + List.length (pushback self).

Definition measure (self : shlex) : nat :=
  weight self + match state self with None => 0 | Some _ => 1 end.

Definition same_conf (self self' : shlex) : Prop :=
  posix self' = posix self /\ quotes self' = quotes self
  /\ escape self' = escape self.

(** *** Kinds of resolved values *)

(** [v] is what the converter of the scalar kind [kind] returns. *)
Definition kind_ok (kind : string) (v : value) : bool :=
  match v with
  | VStr _ => String.eqb kind "str"
  | VInt _ => String.eqb kind "int"
  | VBool _ => String.eqb kind "bool" || String.eqb kind "switch"
  | _ => false
  end.

(** The items of a converted tuple follow the declared kinds, position by
    position; [zip] may have stopped before the last kind. *)
Fixpoint tuple_ok (types : list string) (l : list value) : bool :=
  match types, l with
  | _, [] => true
  | t :: types', v :: l' => kind_ok t v && tuple_ok types' l'
  | [], _ :: _ => false
  end.

Definition items_ok (ok : list value -> bool) (v : value) : bool :=
  match v with
  | VList l => ok l
  | _ => false
  end.

(** [v] has the shape that [argument] declares, or is [None]. *)
Definition well_typed (argument : Argument) (v : value) : bool :=
  match v with
  | VNone => true
  | _ =>
    if is_list argument && negb (is_tuple argument) then
      match list_type argument with
      | Some inner => items_ok (forallb (kind_ok inner)) v
      | None => false
      end
    else if is_tuple argument then
      match tuple_types argument with
      | Some types =>
          if is_list argument
          then items_ok (forallb (items_ok (tuple_ok types))) v
          else items_ok (tuple_ok types) v
      | None => false
      end
    else kind_ok (type argument) v
  end.

(** A value that is not a raw string. *)
Definition not_raw (v : value) : bool :=
  match v with
  | VStr _ => false
  | _ => true
  end.

Definition compound (argument : Argument) : bool :=
  is_list argument || is_tuple argument.

(** The descriptors that [_parse_toml_definitions] builds. *)
Definition arguments_of (definitions : list arg_def) : list Argument :=
  map (fun d => __post_init__ (def_name d) (def_type d) (def_description d)
                  (def_cli_arg d) (def_env_var d) (def_default_value d))
      definitions.

(** The splitting pass for one argument, its printed lines left aside. *)
Definition splitting_body (arguments_values : gmap string value)
    (argument : Argument) : Exc (gmap string value) :=
  snd (_calculate_lists_and_tuples_body arguments_values argument).

(** A kind name that can stand between the brackets of a tuple type: it
    holds no comma, no closing bracket and no newline. *)
Definition kind_name_ok (t : string) : bool :=
  negb (char_in "," t) && negb (char_in "]" t) && negb (char_in newline t).

(** *** Plain text

    Text in which no character is a quote, an escape or the start of a
    comment, and what the lexer and the rewrite loop make of it. *)

(** Cutting [text] at the characters of [ws], [tk] being the token under
    construction; empty tokens are dropped. *)
Fixpoint scan (ws tk text : string) : list string :=
  match text with
  | EmptyString => if String.eqb tk "" then [] else [tk]
  | String c rest =>
      if char_in c ws
      then if String.eqb tk "" then scan ws "" rest
           else tk :: scan ws "" rest
      else scan ws (tk +:+ str1 c) rest
  end.

(** Every character of [s] passes the test [p]. *)
Fixpoint all_chars (p : ascii -> bool) (s : string) : bool :=
  match s with
  | EmptyString => true
  | String c s' => p c && all_chars p s'
  end.

(** A character that starts no comment and is neither a quote nor, in POSIX
    mode, an escape. *)
Definition plain_char (px : bool) (com qs es : string) (c : ascii) : bool :=
  negb (char_in c com) && negb (char_in c qs) && negb (px && char_in c es).

(** A lexer that splits at whitespace only, with nothing pushed back. *)
Definition lexer (px : bool) (com wc ws qs es eqs : string) (ins : string)
    (st : option ascii) (ln : nat) (tk : string) : shlex :=
  mk_shlex ins px com wc ws true qs es eqs st [] ln tk.

(** The lexer is between two tokens, or inside one. *)
Definition ready (st : option ascii) (tk : string) : Prop :=
  (st = Some " "%char /\ tk = "") \/ (st = Some "a"%char /\ tk <> "").

(** Characters that [shlex.split] reads as they are, and its whitespace. *)
Definition shell_plain (c : ascii) : bool :=
  negb (char_in c (String "'" (String dquote "\"))).

Definition shell_blanks : string :=
  String " " (String (chr 9) (String (chr 13) (str1 (chr 10)))).

(** The words of a text: its pieces between blanks. *)
Definition words (text : string) : list string := scan shell_blanks "" text.

(** The first element of a list of strings, the empty string when there is
    none. *)
Definition first_of (ws : list string) : string :=
  match ws with
  | [] => ""
  | first :: _ => first
  end.

Definition first_word (text : string) : string := first_of (words text).

(** A blank between every two semicolons that stand side by side; [after]
    tells that the character before [s] is a semicolon. *)
Fixpoint spaced (after : bool) (s : string) : string :=
  match s with
  | EmptyString => EmptyString
  | String c s' =>
      if is_semicolon c
      then if after then String " " (String c (spaced true s'))
           else String c (spaced true s')
      else String c (spaced false s')
  end.

(** An empty field made a blank. *)
Definition blank_if_empty (field : string) : string :=
  if String.eqb field "" then " " else field.

(** [tk] put in front of the first field. *)
Definition onhead (tk : string) (fields : list string) : list string :=
  match fields with
  | [] => [tk]
  | w :: ws => (tk +:+ w) :: ws
  end.

(** A blank put behind the last field. *)
Fixpoint pad_last (fields : list string) : list string :=
  match fields with
  | [] => []
  | [w] => [w +:+ " "]
  | w :: rest => w :: pad_last rest
  end.

(** Characters that the lexer of [_split_list] reads as they are. *)
Definition list_plain (c : ascii) : bool :=
  negb (char_in c (String "#" (String "'" (str1 dquote)))).

(** Characters that neither lexer takes for a quote, an escape or the start
    of a comment. *)
Definition item_plain (c : ascii) : bool :=
  negb (char_in c (String "#" (String "'" (String dquote "\")))).

(** What tuple splitting makes of the words of one field. *)
Definition tuple_of (ws : list string) : list string :=
  match ws with
  | [] => [""]
  | _ => ws
  end.

(** The words of a field fit a tuple of [n] kinds: there is none, or there
    are [n]. *)
Definition fits (n : nat) (ws : list string) : bool :=
  match ws with
  | [] => true
  | _ => (List.length ws =? n)%nat
  end.

(** [s.count(';')] *)
Fixpoint count_semicolons (s : string) : nat :=
  match s with
  | EmptyString => 0
  | String c s' => (if is_semicolon c then 1 else 0) + count_semicolons s'
  end.

(** No character of [w] is a blank. *)
Definition no_blank (w : string) : bool :=
  all_chars (fun c => negb (char_in c shell_blanks)) w.

(** An exception of the lexer: one of the two [ValueError]s of an unclosed
    quote or a dangling escape, or one that the modelled lexer has besides
    them. *)
Definition from_lexer (e : exn) : bool :=
  match e with
  | ValueError _ | AttributeError _ | Unterminated => true
  | _ => false
  end.

(** [kind] is a kind name that the conversion pass looks up for
    [argument]. *)
Definition declares (argument : Argument) (kind : string) : Prop :=
  if is_tuple argument then
    match tuple_types argument with
    | Some types => In kind types
    | None => False
    end
  else if is_list argument then list_type argument = Some kind
  else kind = type argument.

(** The two lines that [_parse_list_of_tuples] prints for one element. *)
Definition printed_lines (value : string) : list string :=
  ["x" +:+ value +:+ "x"; "<class 'str'>"].

(** * Properties *)

(** ** Loops as maps *)

Lemma bindE_Ok {A B} (m : Exc A) (f : A -> Exc B) (b : B) :
  bindE m f = Ok b <-> exists a, m = Ok a /\ f a = Ok b.
Proof.
  split.
  - destruct m as [a|e]; simpl; [eauto | discriminate].
  - intros (a & -> & H). exact H.
Qed.

Lemma bindE_Raise {A B} (m : Exc A) (f : A -> Exc B) (e : exn) :
  bindE m f = Raise e <-> m = Raise e \/ exists a, m = Ok a /\ f a = Raise e.
Proof.
  split.
  - destruct m as [a|e']; simpl; [eauto | intros [= ->]; auto].
  - intros [-> | (a & -> & H)]; [reflexivity | exact H].
Qed.

Lemma _parse_list_loop_map (values ret_val : list string) :
  _parse_list_loop values ret_val =
  let* rs := mapE first_shell_token values in Ok (ret_val ++ rs)%list.
Proof.
  revert ret_val.
  induction values as [|value rest IH]; intros ret_val; simpl.
  - rewrite app_nil_r. reflexivity.
  - unfold first_shell_token at 1.
    destruct (shlex_split value) as [parsed|e]; simpl; [|reflexivity].
    destruct parsed as [|first others]; rewrite IH;
      destruct (mapE first_shell_token rest); simpl;
      rewrite <- ?app_assoc; reflexivity.
Qed.

Lemma _parse_list_of_tuples_loop_map (argument : Argument)
    (values : list string) (ret_val : list (list string)) :
  snd (_parse_list_of_tuples_loop argument values ret_val) =
  let* rs := mapE (_parse_tuple argument) values in Ok (ret_val ++ rs)%list.
Proof.
  revert ret_val.
  induction values as [|value rest IH]; intros ret_val; simpl.
  - rewrite app_nil_r. reflexivity.
  - destruct (_parse_tuple argument value) as [parsed|e]; simpl;
      [|reflexivity].
    specialize (IH (ret_val ++ [parsed])%list).
    destruct (_parse_list_of_tuples_loop argument rest
                (ret_val ++ [parsed])%list) as [out r].
    simpl in IH |- *. rewrite IH.
    destruct (mapE (_parse_tuple argument) rest); simpl;
      rewrite <- ?app_assoc; reflexivity.
Qed.

(** What [_parse_list_of_tuples] prints: two lines for each element up to
    and including the first one whose tuple splitting raises. *)
Lemma _parse_list_of_tuples_loop_lines (argument : Argument)
    (values : list string) (ret_val : list (list string)) :
  exists n, n <= List.length values /\
    fst (_parse_list_of_tuples_loop argument values ret_val) =
    flat_map (fun value => ["x" +:+ value +:+ "x"; "<class 'str'>"])
             (take n values).
Proof.
  revert ret_val.
  induction values as [|value rest IH]; intros ret_val; simpl.
  - exists 0. split; [lia | reflexivity].
  - destruct (_parse_tuple argument value) as [parsed|e]; simpl.
    + destruct (IH (ret_val ++ [parsed])%list) as (n & Hn & Hout).
      destruct (_parse_list_of_tuples_loop argument rest
                  (ret_val ++ [parsed])%list) as [out r].
      simpl in Hout |- *. exists (S n). split; [lia|].
      rewrite Hout. reflexivity.
    + exists 1. split; [lia | reflexivity].
Qed.

(** ** Facts about [mapE] *)

Lemma mapE_Ok {A B} (f : A -> Exc B) (l : list A) (rs : list B) :
  mapE f l = Ok rs <-> Forall2 (fun x r => f x = Ok r) l rs.
Proof.
  revert rs. induction l as [|x l IH]; intros rs; simpl.
  - split.
    + intros [= <-]. constructor.
    + intros H. inversion H. reflexivity.
  - split.
    + intros H. apply bindE_Ok in H as (y & Hy & H).
      apply bindE_Ok in H as (ys & Hys & [= <-]).
      constructor; [exact Hy | apply IH; exact Hys].
    + intros H. inversion H as [|? r ? rs' Hx Hl]; subst.
      rewrite Hx. simpl. apply IH in Hl. rewrite Hl. reflexivity.
Qed.

Lemma mapE_Raise_at {A B} (f : A -> Exc B) (l : list A) (n : nat) (x : A)
    (e : exn) :
  l !! n = Some x ->
  f x = Raise e ->
  (forall i y, i < n -> l !! i = Some y -> exists r, f y = Ok r) ->
  mapE f l = Raise e.
Proof.
  revert n. induction l as [|y l IH]; intros n Hn Hx Hbefore.
  - destruct n; discriminate.
  - destruct n as [|n]; simpl in Hn |- *.
    + injection Hn as ->. rewrite Hx. reflexivity.
    + destruct (Hbefore 0 y) as [r Hr]; [lia | reflexivity |].
      rewrite Hr. simpl. rewrite (IH n Hn Hx); [reflexivity|].
      intros i z Hi Hz. apply (Hbefore (S i) z); [lia | exact Hz].
Qed.

Lemma mapE_Raise_elem {A B} (f : A -> Exc B) (l : list A) (e : exn) :
  mapE f l = Raise e -> exists x, In x l /\ f x = Raise e.
Proof.
  induction l as [|y l IH]; simpl; [discriminate|].
  intros H. apply bindE_Raise in H as [H | (r & Hr & H)].
  - exists y. auto.
  - apply bindE_Raise in H as [H | (rs & _ & H)]; [|discriminate].
    destruct (IH H) as (x & Hin & Hx). exists x. auto.
Qed.

(** ** The loops of the lexer end *)

Lemma after_line_length (s : string) :
  String.length (after_line s) <= String.length s.
Proof.
  induction s as [|c s IH]; simpl; [lia|].
  destruct (Ascii.eqb c (chr 10)); simpl; lia.
Qed.

Ltac shlex_fields :=
  cbn [instream posix commenters wordchars whitespace whitespace_split
       quotes escape escapedquotes state pushback lineno token
       set_instream set_state set_token set_lineno set_pushback].

Ltac split_ifs :=
  repeat (shlex_fields;
          match goal with
          | |- context [if ?b then _ else _] => destruct b eqn:?
          end).

Lemma read_token_pass_progress (self : shlex) (quoted : bool)
    (escapedstate : ascii) :
  handled self (state self) = true ->
  handled self (Some escapedstate) = true ->
  match read_token_pass self quoted escapedstate with
  | Continue self' _ escapedstate' =>
      same_conf self self'
      /\ weight self' < weight self
      /\ String.length (instream self') < String.length (instream self)
      /\ handled self' (state self') = true
      /\ handled self' (Some escapedstate') = true
  | Break self' _ =>
      same_conf self self'
      /\ handled self' (state self') = true
      /\ (weight self' < weight self
          \/ (weight self' = weight self /\ state self' = None))
  | Throw e => e <> Unterminated
  end.
Proof.
  destruct self as [ins px com wc ws wss qs es eqs st pb ln tk].
  unfold read_token_pass, emit_or_continue, token_add, same_conf, weight,
    handled.
  cbn [instream posix commenters wordchars whitespace whitespace_split
       quotes escape escapedquotes state pushback lineno token
       set_instream set_state set_token set_lineno set_pushback].
  intros Hst Hesc.
  destruct ins as [|c ins]; destruct st as [st|].
  all: cbn [drop_str]; cbv zeta; split_ifs; shlex_fields.
  all: cbn [orb] in *.
  all: try discriminate; try congruence.
  all: repeat match goal with
         | H : _ && _ = true |- _ => apply andb_true_iff in H as [? ?]
         end.
  all: try (pose proof (after_line_length ins)).
  all: cbn [String.length List.length].
  all: repeat split; try reflexivity; try lia; try (left; lia);
    try (right; split; [lia|reflexivity]).
  all: try congruence.
  all: repeat match goal with
         | H : ?x = true |- context [?x] => rewrite H
         end; rewrite ?orb_true_r; try reflexivity.
  all: repeat match goal with
         | H : ?x = false |- context [?x] => rewrite H
         end; cbn [orb]; assumption.
Qed.

Lemma handled_same_conf (self self' : shlex) (st : option ascii) :
  same_conf self self' -> handled self' st = handled self st.
Proof.
  intros (_ & Hq & He). unfold handled. rewrite Hq, He. reflexivity.
Qed.

Lemma same_conf_trans (a b c : shlex) :
  same_conf a b -> same_conf b c -> same_conf a c.
Proof.
  unfold same_conf. intros (? & ? & ?) (? & ? & ?).
  repeat split; congruence.
Qed.

Lemma read_token_loop_progress (budget : nat) (self : shlex) (quoted : bool)
    (escapedstate : ascii) :
  handled self (state self) = true ->
  handled self (Some escapedstate) = true ->
  String.length (instream self) < budget ->
  match read_token_loop budget self quoted escapedstate with
  | Ok (self', _) =>
      same_conf self self'
      /\ handled self' (state self') = true
      /\ weight self' <= weight self
      /\ (weight self' < weight self \/ state self' = None)
  | Raise e => e <> Unterminated
  end.
Proof.
  revert self quoted escapedstate.
  induction budget as [|budget IH];
    intros self quoted escapedstate Hst Hesc Hlen; [lia|].
  cbn [read_token_loop].
  pose proof (read_token_pass_progress self quoted escapedstate Hst Hesc)
    as Hpass.
  destruct (read_token_pass self quoted escapedstate)
    as [self1 quoted1 escapedstate1 | self1 quoted1 | e].
  - destruct Hpass as (Hconf & Hw & Hl & Hst1 & Hesc1).
    specialize (IH self1 quoted1 escapedstate1 Hst1 Hesc1 ltac:(lia)).
    destruct (read_token_loop budget self1 quoted1 escapedstate1)
      as [[self' quoted']|e]; [|exact IH].
    destruct IH as (Hconf' & Hst' & Hw' & _).
    split; [exact (same_conf_trans _ _ _ Hconf Hconf')|].
    split; [exact Hst'|]. split; [lia|]. left. lia.
  - destruct Hpass as (Hconf & Hst1 & Hw).
    split; [exact Hconf|]. split; [exact Hst1|].
    split; [lia|].
    destruct Hw as [Hw | [Hw Hnone]]; [left; lia | right; exact Hnone].
  - exact Hpass.
Qed.

Lemma read_token_progress (self : shlex) :
  handled self (state self) = true ->
  match read_token self with
  | Ok (_, self') =>
      same_conf self self'
      /\ handled self' (state self') = true
      /\ (state self = None \/ measure self' < measure self)
  | Raise e => e <> Unterminated
  end.
Proof.
  intros Hst. unfold read_token.
  assert (Hesc : handled self (Some " "%char) = true) by reflexivity.
  pose proof (read_token_loop_progress (S (String.length (instream self)))
                self false " " Hst Hesc ltac:(lia)) as Hloop.
  destruct (read_token_loop (S (String.length (instream self))) self false " ")
    as [[self' quoted']|e]; [|exact Hloop].
  destruct Hloop as (Hconf & Hst' & Hw & Hdec).
  cbn [bindE].
  assert (Hgoal : same_conf self (set_token "" self')
                  /\ handled (set_token "" self') (state (set_token "" self'))
                     = true
                  /\ (state self = None
                      \/ measure (set_token "" self') < measure self)).
  { destruct self' as [ins px com wc ws wss qs es eqs st pb ln tk].
    split; [exact Hconf|]. split; [exact Hst'|].
    destruct (state self) as [st0|] eqn:Hst0; [right | left; reflexivity].
    unfold measure, weight in *. rewrite Hst0.
    cbn [instream pushback state set_token] in *.
    destruct Hdec as [Hdec | ->]; [destruct st|]; lia. }
  destruct (posix (set_token "" self') && negb quoted'
            && String.eqb (token self') ""); exact Hgoal.
Qed.

Lemma read_token_at_end (self : shlex) :
  state self = None ->
  exists self', read_token self
                = Ok (if posix self then None else Some "", self').
Proof.
  intros Hnone. unfold read_token. cbn [read_token_loop].
  unfold read_token_pass. 
  destruct self as [ins px com wc ws wss qs es eqs st pb ln tk].
  cbn [state] in Hnone. subst st.
  destruct ins as [|c ins]; cbv zeta; shlex_fields.
  - cbn [bindE]. shlex_fields. destruct px; eexists; reflexivity.
  - destruct (Ascii.eqb c (chr 10)); shlex_fields; cbn [bindE]; shlex_fields;
      destruct px; eexists; reflexivity.
Qed.

Lemma shlex_next_progress (self : shlex) :
  handled self (state self) = true ->
  match shlex_next self with
  | Ok (Some _, self') =>
      handled self' (state self') = true /\ measure self' < measure self
  | Ok (None, _) => True
  | Raise e => e <> Unterminated
  end.
Proof.
  intros Hst. unfold shlex_next, get_token.
  destruct (pushback self) as [|tok rest] eqn:Hpb.
  - pose proof (read_token_progress self Hst) as Hread.
    destruct (state self) as [st|] eqn:Hstate.
    + destruct (read_token self) as [[r self']|e]; [|exact Hread].
      destruct Hread as (Hconf & Hst' & [Hnone|Hdec]); [discriminate|].
      cbn [bindE]. destruct r as [t|]; [|exact I].
      destruct (eof self') as [e|]; [destruct (String.eqb t e)|];
        try exact I; split; assumption.
    + destruct (read_token_at_end self Hstate) as [self' Hend].
      rewrite Hend. cbn [bindE].
      assert (Hposix : posix self' = posix self).
      { rewrite Hend in Hread. apply Hread. }
      unfold eof. rewrite Hposix. destruct (posix self); exact I.
  - cbn [bindE].
    assert (Hgoal : handled (set_pushback rest self)
                      (state (set_pushback rest self)) = true
                    /\ measure (set_pushback rest self) < measure self).
    { destruct self as [ins px com wc ws wss qs es eqs st pb ln tk].
      cbn [pushback] in Hpb. subst pb. split; [exact Hst|].
      unfold measure, weight. cbn [instream pushback state set_pushback].
      cbn [List.length]. lia. }
    destruct (eof (set_pushback rest self)) as [e|];
      [destruct (String.eqb tok e)|]; try exact I; exact Hgoal.
Qed.

Lemma shlex_list_terminates (budget : nat) (self : shlex) :
  handled self (state self) = true ->
  measure self < budget ->
  shlex_list budget self <> Raise Unterminated.
Proof.
  revert self. induction budget as [|budget IH]; intros self Hst Hm; [lia|].
  cbn [shlex_list].
  pose proof (shlex_next_progress self Hst) as Hnext.
  destruct (shlex_next self) as [[[t|] self']|e]; cbn [bindE].
  - destruct Hnext as (Hst' & Hdec).
    specialize (IH self' Hst' ltac:(lia)).
    destruct (shlex_list budget self'); [discriminate|].
    cbn [bindE]. exact IH.
  - discriminate.
  - intros [= ->]. apply Hnext. reflexivity.
Qed.

(** The budgets of the lexer are enough: neither [shlex.split] nor the
    splitting helpers of the parser ever end by running out of passes. *)
Theorem shlex_budget_enough (argument : Argument) (s : string) :
  shlex_split s <> Raise Unterminated
  /\ _split_list argument s <> Raise Unterminated
  /\ _parse_tuple argument s <> Raise Unterminated
  /\ _parse_list argument s <> Raise Unterminated
  /\ snd (_parse_list_of_tuples argument s) <> Raise Unterminated.
Proof.
  assert (Hsplit : forall t, shlex_split t <> Raise Unterminated).
  { intros t. unfold shlex_split.
    apply shlex_list_terminates; [reflexivity|].
    unfold measure, list_budget, weight.
    cbn [instream pushback state set_commenters set_whitespace_split
         shlex_init List.length]. lia. }
  assert (Hlist : forall t, _split_list argument t <> Raise Unterminated).
  { intros t. unfold _split_list.
    destruct (String.eqb t ""); [discriminate|].
    apply shlex_list_terminates; [reflexivity|].
    unfold measure, list_budget, weight.
    cbn [instream pushback state set_whitespace set_whitespace_split
         shlex_init List.length]. lia. }
  assert (Htuple : forall t, _parse_tuple argument t <> Raise Unterminated).
  { intros t. unfold _parse_tuple, len_tuple_types.
    specialize (Hsplit t).
    destruct (shlex_split t) as [toks|e]; cbn [bindE];
      [|intros [= ->]; apply Hsplit; reflexivity].
    destruct (List.length toks =? 0)%nat; [discriminate|].
    destruct (tuple_types argument); cbn [bindE]; [|discriminate].
    destruct (negb _); discriminate. }
  split; [apply Hsplit|]. split; [apply Hlist|]. split; [apply Htuple|].
  split.
  - unfold _parse_list. intros H.
    apply bindE_Raise in H as [H | (values & _ & H)]; [exact (Hlist s H)|].
    rewrite _parse_list_loop_map in H.
    apply bindE_Raise in H as [H | (rs & _ & H)]; [|discriminate].
    apply mapE_Raise_elem in H as (x & _ & Hx). unfold first_shell_token in Hx.
    apply bindE_Raise in Hx as [Hx | (toks & _ & Hx)]; [|discriminate].
    exact (Hsplit x Hx).
  - unfold _parse_list_of_tuples.
    specialize (Hlist s).
    destruct (_split_list argument s) as [values|e]; cbn [liftO bindO];
      [|intros [= ->]; apply Hlist; reflexivity].
    pose proof (_parse_list_of_tuples_loop_map argument values []) as Hloop.
    destruct (_parse_list_of_tuples_loop argument values []) as [out r].
    cbn [snd] in Hloop |- *. rewrite Hloop. intros H.
    apply bindE_Raise in H as [H | (rs & _ & H)]; [|discriminate].
    apply mapE_Raise_elem in H as (x & _ & Hx). exact (Htuple x Hx).
Qed.

(** [read_token] returns Python's [None] in POSIX mode only. *)
Lemma read_token_None_posix (self self' : shlex) :
  handled self (state self) = true ->
  read_token self = Ok (None, self') -> posix self = true.
Proof.
  intros Hst Hread. unfold read_token in Hread.
  assert (Hesc : handled self (Some " "%char) = true) by reflexivity.
  pose proof (read_token_loop_progress (S (String.length (instream self)))
                self false " " Hst Hesc ltac:(lia)) as Hloop.
  destruct (read_token_loop (S (String.length (instream self))) self false " ")
    as [[self1 quoted1]|e]; [|discriminate].
  destruct Hloop as ((Hposix & _) & _). cbn [bindE] in Hread.
  destruct self1 as [ins px com wc ws wss qs es eqs st pb ln tk].
  cbn [posix token set_token] in Hread, Hposix. subst px.
  destruct (posix self); [reflexivity|]. discriminate.
Qed.

(** ** The passes on one argument *)

Lemma absent_value_skipped (values : gmap string value)
    (argument : Argument) :
  values !! name argument = Some VNone ->
  _calculate_lists_and_tuples_body values argument = ([], Ok values)
  /\ _convert_values_body values argument = Ok values.
Proof.
  intros Hvalue. split.
  - unfold _calculate_lists_and_tuples_body, getitem. rewrite Hvalue.
    cbn [liftO bindO].
    destruct (negb (is_list argument) && negb (is_tuple argument));
      reflexivity.
  - unfold _convert_values_body, getitem. rewrite Hvalue. reflexivity.
Qed.

Lemma bindO_snd {A B} (m : Out A) (f : A -> Out B) :
  snd (bindO m f) = let* a := snd m in snd (f a).
Proof.
  destruct m as [out [a|e]]; cbn [bindO snd bindE]; [|reflexivity].
  destruct (f a). reflexivity.
Qed.

Lemma _calculate_lists_and_tuples_body_list (values : gmap string value)
    (argument : Argument) (s : string) :
  is_list argument = true -> is_tuple argument = false ->
  values !! name argument = Some (VStr s) ->
  snd (_calculate_lists_and_tuples_body values argument) =
  let* r := _parse_list argument s in
  Ok (<[name argument := strs r]> values).
Proof.
  intros Hlist Htuple Hvalue.
  unfold _calculate_lists_and_tuples_body, getitem. rewrite Hvalue.
  rewrite bindO_snd. cbn [liftO snd bindE]. rewrite Hlist, Htuple.
  cbn [negb andb]. rewrite bindO_snd. reflexivity.
Qed.

Lemma _calculate_lists_and_tuples_body_both (values : gmap string value)
    (argument : Argument) (s : string) :
  is_list argument = true -> is_tuple argument = true ->
  values !! name argument = Some (VStr s) ->
  snd (_calculate_lists_and_tuples_body values argument) =
  let* r := snd (_parse_list_of_tuples argument s) in
  Ok (<[name argument := VList (map strs r)]> values).
Proof.
  intros Hlist Htuple Hvalue.
  unfold _calculate_lists_and_tuples_body, getitem. rewrite Hvalue.
  rewrite bindO_snd. cbn [liftO snd bindE]. rewrite Hlist, Htuple.
  cbn [negb andb]. rewrite bindO_snd. reflexivity.
Qed.

(** ** The lexer on sample inputs *)

(** POSIX mode, as [shlex.split] runs it: quotes group and are removed, a
    backslash escapes the next character, a hash sign is an ordinary
    character, and an unclosed quote raises. *)
Example shlex_split_quotes :
  shlex_split ("a 'b c' " +:+ str1 dquote +:+ "d e" +:+ str1 dquote)
  = Ok ["a"; "b c"; "d e"].
Proof. vm_compute. reflexivity. Qed.

Example shlex_split_escape : shlex_split "a\ b  c" = Ok ["a b"; "c"].
Proof. vm_compute. reflexivity. Qed.

Example shlex_split_hash : shlex_split "x#y z" = Ok ["x#y"; "z"].
Proof. vm_compute. reflexivity. Qed.

Example shlex_split_unclosed :
  shlex_split "one 'two" = Raise (ValueError "No closing quotation").
Proof. vm_compute. reflexivity. Qed.

(** The lexer of [_split_list]: blanks belong to the tokens, a quote that
    starts a token keeps semicolons inside it, and a hash sign drops the
    rest of the line. *)
Example _split_list_quoted (argument : Argument) :
  _split_list argument "a;'b;c';d" = Ok [" a"; "'b;c'"; "d "].
Proof. vm_compute. reflexivity. Qed.

Example _split_list_comment (argument : Argument) :
  _split_list argument "a#b;c" = Ok [" a"].
Proof. vm_compute. reflexivity. Qed.

Example _split_list_trailing (argument : Argument) :
  _split_list argument "a;" = Ok [" a"; " "].
Proof. vm_compute. reflexivity. Qed.

(** ** The doubled-delimiter loop *)

Lemma rewrite_doubled_eq (s : string) :
  rewrite_doubled s =
  if (str_find s ";;" =? -1)%Z then s else rewrite_doubled (rewrite_pass s).
Proof.
  rewrite rewrite_doubled_equation_1. unfold rewrite_doubled_unfold_clause_1.
  destruct (Z.eq_dec (str_find s ";;") (-1)%Z) as [Heq|Hne].
  - rewrite Heq. reflexivity.
  - apply Z.eqb_neq in Hne. rewrite Hne. reflexivity.
Qed.

Lemma startswith_doubled_false (a b : ascii) (s : string) :
  startswith ";;" (String a (String b s)) = false ->
  is_semicolon a && is_semicolon b = false.
Proof.
  cbn [startswith]. rewrite andb_true_r. intros H. exact H.
Qed.

Lemma str_find_lower (s sub : string) : (-1 <= str_find s sub)%Z.
Proof.
  induction s as [|a s IH]; rewrite str_find_eq;
    destruct (startswith sub _); try lia.
  cbv zeta. destruct (str_find s sub =? -1)%Z; lia.
Qed.

Lemma find_none_pairs (s : string) :
  str_find s ";;" = (-1)%Z <-> adjacent_pairs s = 0.
Proof.
  split.
  - induction s as [|a s IH]; [reflexivity|].
    rewrite str_find_eq.
    destruct (startswith ";;" (String a s)) eqn:Hpre; [discriminate|].
    cbv zeta. pose proof (str_find_lower s ";;") as Hlow.
    destruct (str_find s ";;" =? -1)%Z eqn:Hs; [|lia].
    apply Z.eqb_eq in Hs. specialize (IH Hs). intros _.
    destruct s as [|b s]; [reflexivity|].
    rewrite adjacent_pairs_cons2, IH.
    rewrite (startswith_doubled_false _ _ _ Hpre). reflexivity.
  - intros Hzero.
    destruct (Z.eq_dec (str_find s ";;") (-1)%Z) as [Heq|Hne]; [exact Heq|].
    pose proof (replace_lowers_pairs s Hne). lia.
Qed.

Lemma pairs_after_passes (k : nat) (s : string) :
  k <= adjacent_pairs s ->
  adjacent_pairs (Nat.iter k rewrite_pass s) = adjacent_pairs s - k.
Proof.
  induction k as [|k IH]; intros Hk; simpl; [lia|].
  assert (Hfind : str_find (Nat.iter k rewrite_pass s) ";;" <> (-1)%Z).
  { rewrite find_none_pairs, IH; lia. }
  pose proof (replace_lowers_pairs _ Hfind) as Hlow.
  unfold rewrite_pass at 1. rewrite IH in Hlow by lia. lia.
Qed.

Lemma rewrite_doubled_iter (n : nat) (s : string) :
  adjacent_pairs s = n ->
  rewrite_doubled s = Nat.iter n rewrite_pass s.
Proof.
  revert s. induction n as [|n IH]; intros s Hn; rewrite rewrite_doubled_eq.
  - apply find_none_pairs in Hn. rewrite Hn. reflexivity.
  - assert (Hfind : str_find s ";;" <> (-1)%Z).
    { rewrite find_none_pairs. lia. }
    pose proof (replace_lowers_pairs s Hfind) as Hlow.
    apply Z.eqb_neq in Hfind. rewrite Hfind.
    rewrite Nat.iter_succ_r. apply IH. unfold rewrite_pass. lia.
Qed.

(** C10: the rewrite loop of [_split_list] terminates on every input string.
    Each pass that the loop condition lets through strictly lowers the number
    of adjacent semicolon pairs; so the loop makes exactly as many passes as
    the input has such pairs, after which no doubled semicolon is left, and
    the text it ends with is the value of [rewrite_doubled]. *)
Theorem rewrite_loop_terminates (s : string) :
  (forall k, k < adjacent_pairs s ->
     str_find (Nat.iter k rewrite_pass s) ";;" <> (-1)%Z
     /\ adjacent_pairs (rewrite_pass (Nat.iter k rewrite_pass s))
        < adjacent_pairs (Nat.iter k rewrite_pass s))
  /\ str_find (Nat.iter (adjacent_pairs s) rewrite_pass s) ";;" = (-1)%Z
  /\ rewrite_doubled s = Nat.iter (adjacent_pairs s) rewrite_pass s.
Proof.
  split; [|split].
  - intros k Hk.
    assert (Hfind : str_find (Nat.iter k rewrite_pass s) ";;" <> (-1)%Z).
    { rewrite find_none_pairs, pairs_after_passes; lia. }
    split; [exact Hfind|].
    pose proof (replace_lowers_pairs _ Hfind) as Hlow.
    unfold rewrite_pass at 1. lia.
  - rewrite find_none_pairs, pairs_after_passes; lia.
  - apply rewrite_doubled_iter. reflexivity.
Qed.

(** The loop on [" a;;;b "]: two pairs, two passes. *)
Lemma rewrite_loop_terminates_witness :
  (str_find (Nat.iter 1 rewrite_pass " a;;;b ") ";;" <> (-1)%Z
   /\ adjacent_pairs (rewrite_pass (Nat.iter 1 rewrite_pass " a;;;b "))
      < adjacent_pairs (Nat.iter 1 rewrite_pass " a;;;b "))
  /\ rewrite_doubled " a;;;b " = " a; ; ;b ".
Proof.
  split.
  - apply (proj1 (rewrite_loop_terminates " a;;;b ") 1). vm_compute. lia.
  - rewrite (proj2 (proj2 (rewrite_loop_terminates " a;;;b "))).
    vm_compute. reflexivity.
Defined.

Lemma rewrite_doubled_clean (s : string) :
  str_find (rewrite_doubled s) ";;" = (-1)%Z.
Proof.
  rewrite (rewrite_doubled_iter (adjacent_pairs s) s eq_refl).
  rewrite find_none_pairs, pairs_after_passes; lia.
Qed.

(** ** List splitting *)

(** C1, the claim as written, fails: ["a;;b"] splits into three elements,
    the middle one empty, not into the two elements ["a"] and ["b"]. *)
Lemma doubled_delimiter_two_elements_refuted :
  is_list names_arg = true
  /\ _split_list names_arg "a;;b" = Ok [" a"; " "; "b "]
  /\ _parse_list names_arg "a;;b" = Ok ["a"; ""; "b"]
  /\ _parse_list names_arg "a;;b" <> Ok ["a"; "b"].
Proof.
  assert (H : _parse_list names_arg "a;;b" = Ok ["a"; ""; "b"])
    by (vm_compute; reflexivity).
  repeat split; try (vm_compute; reflexivity).
  rewrite H. discriminate.
Qed.

(** C1 (amended): for every argument, list splitting of ["a;;b"] produces
    exactly the three elements ["a"], [""] and ["b"]: the doubled delimiter
    is rewritten to ["; ;"] before tokenizing (no doubled delimiter is ever
    left in the text handed to the lexer), so the empty field between the
    two delimiters becomes a token of its own, and no element holds a
    semicolon. *)
Theorem doubled_delimiter_empty_field (argument : Argument) :
  rewrite_doubled " a;;b " = " a; ;b "
  /\ (forall s, str_find (rewrite_doubled s) ";;" = (-1)%Z)
  /\ _split_list argument "a;;b" = Ok [" a"; " "; "b "]
  /\ mapE first_shell_token [" a"; " "; "b "] = Ok ["a"; ""; "b"]
  /\ _parse_list argument "a;;b" = Ok ["a"; ""; "b"].
Proof.
  split; [vm_compute; reflexivity|].
  split; [exact rewrite_doubled_clean|].
  assert (Hsplit : _split_list argument "a;;b" = Ok [" a"; " "; "b "])
    by (vm_compute; reflexivity).
  assert (Hmap : mapE first_shell_token [" a"; " "; "b "]
                 = Ok ["a"; ""; "b"]) by (vm_compute; reflexivity).
  split; [exact Hsplit|]. split; [exact Hmap|].
  unfold _parse_list. rewrite Hsplit. cbn [bindE].
  rewrite _parse_list_loop_map, Hmap. reflexivity.
Qed.

(** C6: for every argument, list splitting of ["a;b;c"] yields exactly the
    three elements ["a"], ["b"], ["c"], and list splitting of the empty
    string yields one element, the empty string. *)
Theorem list_splitting_examples (argument : Argument) :
  _split_list argument "a;b;c" = Ok [" a"; "b"; "c "]
  /\ _parse_list argument "a;b;c" = Ok ["a"; "b"; "c"]
  /\ _split_list argument "" = Ok [""]
  /\ _parse_list argument "" = Ok [""].
Proof.
  assert (Hsplit : _split_list argument "a;b;c" = Ok [" a"; "b"; "c "])
    by (vm_compute; reflexivity).
  split; [exact Hsplit|]. split.
  - unfold _parse_list. rewrite Hsplit. cbn [bindE].
    rewrite _parse_list_loop_map.
    assert (Hmap : mapE first_shell_token [" a"; "b"; "c "]
                   = Ok ["a"; "b"; "c"]) by (vm_compute; reflexivity).
    rewrite Hmap. reflexivity.
  - split; [reflexivity|].
    unfold _parse_list.
    assert (Hsplit0 : _split_list argument "" = Ok [""]) by reflexivity.
    rewrite Hsplit0. cbn [bindE]. rewrite _parse_list_loop_map.
    assert (Hmap : mapE first_shell_token [""] = Ok [""])
      by (vm_compute; reflexivity).
    rewrite Hmap. reflexivity.
Qed.

(** C9: the splitting pass hands the raw string of a list-shaped, non-tuple
    argument to [_parse_list]; for every argument, [_parse_list]
    shell-tokenizes each element that list splitting produced and keeps the
    first token only, an element without tokens becoming the empty string;
    ["a b;c"] resolves to the two elements ["a"] and ["c"], the token ["b"]
    being dropped. *)
Theorem list_elements_keep_first_token (argument : Argument) :
  (forall values s,
     is_list argument = true -> is_tuple argument = false ->
     values !! name argument = Some (VStr s) ->
     snd (_calculate_lists_and_tuples_body values argument) =
     let* r := _parse_list argument s in
     Ok (<[name argument := strs r]> values))
  /\ (forall s, _parse_list argument s =
                let* values := _split_list argument s in
                mapE first_shell_token values)
  /\ _split_list argument "a b;c" = Ok [" a b"; "c "]
  /\ shlex_split " a b" = Ok ["a"; "b"]
  /\ first_shell_token " a b" = Ok "a"
  /\ first_shell_token " " = Ok ""
  /\ _parse_list argument "a b;c" = Ok ["a"; "c"].
Proof.
  assert (Hgen : forall s, _parse_list argument s =
                   let* values := _split_list argument s in
                   mapE first_shell_token values).
  { intros s. unfold _parse_list.
    destruct (_split_list argument s) as [values|e]; [|reflexivity].
    cbn [bindE]. rewrite _parse_list_loop_map.
    destruct (mapE first_shell_token values); reflexivity. }
  split; [intros values; apply _calculate_lists_and_tuples_body_list|].
  split; [exact Hgen|].
  assert (Hsplit : _split_list argument "a b;c" = Ok [" a b"; "c "])
    by (vm_compute; reflexivity).
  split; [exact Hsplit|].
  split; [vm_compute; reflexivity|].
  split; [vm_compute; reflexivity|].
  split; [vm_compute; reflexivity|].
  rewrite Hgen, Hsplit. vm_compute. reflexivity.
Qed.

(** The splitting pass on a [list[str]] argument holding ["a b;c"]. *)
Lemma list_elements_keep_first_token_witness :
  snd (_calculate_lists_and_tuples_body {[ "names" := VStr "a b;c" ]}
         names_arg)
  = let* r := _parse_list names_arg "a b;c" in
    Ok (<["names" := strs r]> {[ "names" := VStr "a b;c" ]}).
Proof.
  apply (proj1 (list_elements_keep_first_token names_arg)); reflexivity.
Defined.

(** ** Tuple splitting *)

Lemma str_split_nonempty (sep : ascii) (s : string) : str_split sep s <> [].
Proof.
  destruct s as [|c s]; cbn [str_split]; [discriminate|].
  destruct (Ascii.eqb c sep); [discriminate|].
  destruct (str_split sep s); discriminate.
Qed.

Lemma __post_init___tuple (n t d c : string) (e dv : option string) :
  is_tuple (__post_init__ n t d c e dv) = true ->
  exists types, tuple_types (__post_init__ n t d c e dv) = Some types
                /\ types <> [].
Proof.
  unfold __post_init__.
  destruct (list_match t), (tuple_match t) as [g|]; cbn [is_tuple tuple_types];
    try discriminate; intros _; eexists; (split; [reflexivity|]);
    intros H; apply map_eq_nil in H; exact (str_split_nonempty _ _ H).
Qed.

Lemma _parse_tuple_tokens (argument : Argument) (types toks : list string)
    (s : string) :
  tuple_types argument = Some types ->
  shlex_split s = Ok toks ->
  toks <> [] ->
  _parse_tuple argument s =
  if (List.length toks =? List.length types)%nat then Ok toks
  else Raise (RuntimeError
                (arity_message (name argument) (List.length types)
                               (List.length toks) s)).
Proof.
  intros Htypes Hsplit Hne. unfold _parse_tuple, len_tuple_types.
  rewrite Hsplit, Htypes. cbn [bindE].
  destruct toks as [|t toks]; [contradiction|].
  change (List.length (t :: toks) =? 0)%nat with false. cbv iota.
  destruct (List.length (t :: toks) =? List.length types)%nat; reflexivity.
Qed.

(** C2, the claim as written, fails: the blank string [" "] is not empty and
    shell-splits into no token, which differs from the arity 2, yet tuple
    splitting returns [[""]] and raises nothing. *)
Lemma tuple_arity_blank_refuted :
  " " <> ""
  /\ is_tuple pair_arg = true
  /\ tuple_types pair_arg = Some ["int"; "str"]
  /\ shlex_split " " = Ok []
  /\ List.length (@nil string) <> 2
  /\ _parse_tuple pair_arg " " = Ok [""].
Proof.
  repeat split; try (vm_compute; reflexivity); discriminate.
Qed.

(** C2 (amended): a constructed tuple-shaped argument has a declared arity
    of at least one; for every such argument and every raw string that
    shell-splits into at least one token, tuple splitting fails with the
    arity error, whose text names the argument, the expected count, the
    actual count and the raw string, if and only if the number of tokens
    differs from the declared arity, and returns the tokens otherwise; a
    string that shell-splits into no token is returned as [[""]] with no
    arity check.  For [tuple[int,str]], ["5 hello"] resolves to the int 5
    and the text ["hello"], and ["5"] fails (expected 2, got 1). *)
Theorem tuple_arity_check :
  (forall d a, Argument_new d = Ok a -> is_tuple a = true ->
               exists types, tuple_types a = Some types /\ types <> [])
  /\ (forall argument types s toks,
     tuple_types argument = Some types ->
     shlex_split s = Ok toks ->
     (toks <> [] ->
      (_parse_tuple argument s =
         Raise (RuntimeError
                  (arity_message (name argument) (List.length types)
                                 (List.length toks) s))
       <-> List.length toks <> List.length types)
      /\ (_parse_tuple argument s = Ok toks
          <-> List.length toks = List.length types))
     /\ (toks = [] -> _parse_tuple argument s = Ok [""]))
  /\ resolved (ArgumentsParser_init [pair_def (Some "5 hello")]
                 (absent "pair") ∅) "pair"
     = Ok (VList [VInt 5; VStr "hello"])
  /\ snd (ArgumentsParser_init [pair_def (Some "5")] (absent "pair") ∅)
     = Raise (RuntimeError "Tuple pair expected 2 values and got 1: 5.").
Proof.
  split; [intros d a [= <-]; apply __post_init___tuple|].
  split; [|split; vm_compute; reflexivity].
  intros argument types s toks Htypes Hsplit. split.
  - intros Hne. rewrite (_parse_tuple_tokens _ _ _ _ Htypes Hsplit Hne).
    destruct (List.length toks =? List.length types)%nat eqn:Hlen.
    + apply Nat.eqb_eq in Hlen.
      split; split; intros H; try discriminate; try contradiction; auto.
    + apply Nat.eqb_neq in Hlen.
      split; split; intros H; try discriminate; try contradiction; auto.
  - intros ->. unfold _parse_tuple. rewrite Hsplit. reflexivity.
Qed.

(** The general part at [tuple[int,str]] and ["5"]. *)
Lemma tuple_arity_check_witness :
  _parse_tuple pair_arg "5" =
  Raise (RuntimeError (arity_message "pair" 2 1 "5")).
Proof.
  apply (proj1 (proj1 (proj1 (proj2 tuple_arity_check) pair_arg
                         ["int"; "str"] "5" ["5"] eq_refl eq_refl)
                      ltac:(discriminate))).
  simpl. lia.
Defined.

(** ** Lists of tuples *)

(** C7: the splitting pass hands the raw string of an argument that is
    both list- and tuple-shaped to [_parse_list_of_tuples]; there the raw
    string is list-split first and tuple splitting is then applied to each
    element in turn; the result is the list of the split tuples when every
    element passes, and the exception of the first element that fails
    otherwise.  For [list[tuple[int,int]]], ["1 2;3 4"] resolves to the
    pairs (1,2) and (3,4), and ["1 2;3"] fails on its second element with
    the arity error. *)
Theorem list_of_tuples_composition :
  (forall argument values s,
     is_list argument = true -> is_tuple argument = true ->
     values !! name argument = Some (VStr s) ->
     snd (_calculate_lists_and_tuples_body values argument) =
     let* r := snd (_parse_list_of_tuples argument s) in
     Ok (<[name argument := VList (map strs r)]> values))
  /\ (forall argument s,
     snd (_parse_list_of_tuples argument s) =
     let* values := _split_list argument s in
     mapE (_parse_tuple argument) values)
  /\ (forall argument s rs,
        snd (_parse_list_of_tuples argument s) = Ok rs <->
        exists values, _split_list argument s = Ok values
          /\ Forall2 (fun value r => _parse_tuple argument value = Ok r)
                     values rs)
  /\ (forall argument s values n value e,
        _split_list argument s = Ok values ->
        values !! n = Some value ->
        _parse_tuple argument value = Raise e ->
        (forall i v, i < n -> values !! i = Some v ->
                     exists r, _parse_tuple argument v = Ok r) ->
        snd (_parse_list_of_tuples argument s) = Raise e)
  /\ resolved (ArgumentsParser_init [pairs_def (Some "1 2;3 4")]
                 (absent "pairs") ∅) "pairs"
     = Ok (VList [VList [VInt 1; VInt 2]; VList [VInt 3; VInt 4]])
  /\ snd (ArgumentsParser_init [pairs_def (Some "1 2;3")]
            (absent "pairs") ∅)
     = Raise (RuntimeError "Tuple pairs expected 2 values and got 1: 3 .").
Proof.
  assert (Hgen : forall argument s,
            snd (_parse_list_of_tuples argument s) =
            let* values := _split_list argument s in
            mapE (_parse_tuple argument) values).
  { intros argument s. unfold _parse_list_of_tuples.
    destruct (_split_list argument s) as [values|e]; [|reflexivity].
    cbn [liftO bindO bindE].
    pose proof (_parse_list_of_tuples_loop_map argument values []) as Hloop.
    destruct (_parse_list_of_tuples_loop argument values []) as [out r].
    cbn [snd] in Hloop |- *. rewrite Hloop.
    destruct (mapE (_parse_tuple argument) values); reflexivity. }
  split; [intros argument values;
          apply _calculate_lists_and_tuples_body_both|].
  split; [exact Hgen|]. split; [|split].
  - intros argument s rs. rewrite Hgen. cbv zeta. rewrite bindE_Ok.
    split; intros (values & Hsplit & H); exists values;
      (split; [exact Hsplit | apply mapE_Ok; exact H]).
  - intros argument s values n value e Hsplit Hn He Hbefore.
    rewrite Hgen, Hsplit. cbn [bindE].
    exact (mapE_Raise_at _ _ _ _ _ Hn He Hbefore).
  - split; vm_compute; reflexivity.
Qed.

(** The second element of ["1 2;3"] fails for [list[tuple[int,int]]]. *)
Lemma list_of_tuples_composition_witness :
  snd (_parse_list_of_tuples
         (__post_init__ "pairs" "list[tuple[int,int]]" "" "--pairs" None None)
         "1 2;3")
  = Raise (RuntimeError (arity_message "pairs" 2 1 "3 ")).
Proof.
  apply (proj1 (proj2 (proj2 (proj2 list_of_tuples_composition)))
           _ "1 2;3" [" 1 2"; "3 "] 1 "3 ").
  - vm_compute. reflexivity.
  - reflexivity.
  - vm_compute. reflexivity.
  - intros i v Hi Hv. destruct i as [|i]; [|lia].
    injection Hv as <-. eexists. vm_compute. reflexivity.
Defined.

(** ** The empty tuple string *)

(** C3, the claim as written, fails: with arity 2 the empty raw string goes
    through tuple splitting and conversion with no arity error; the run ends
    with the one-element list [[""]]. *)
Lemma empty_tuple_arity_refuted :
  Argument_new (label_def (Some "")) = Ok label_arg
  /\ tuple_types label_arg = Some ["str"; "int"]
  /\ _parse_tuple label_arg "" = Ok [""]
  /\ resolved (ArgumentsParser_init [label_def (Some "")]
                 (absent "label") ∅) "label"
     = Ok (VList [VStr ""]).
Proof.
  repeat split; vm_compute; reflexivity.
Qed.

Lemma no_arity_error_Ok {A} (a : A) : no_arity_error (Ok a).
Proof. intros msg. discriminate. Qed.

Lemma no_arity_error_bind {A B} (m : Exc A) (f : A -> Exc B) :
  no_arity_error m ->
  (forall a, m = Ok a -> no_arity_error (f a)) ->
  no_arity_error (bindE m f).
Proof.
  intros Hm Hf msg H. apply bindE_Raise in H as [H | (a & Ha & H)].
  - exact (Hm msg H).
  - exact (Hf a Ha msg H).
Qed.

Lemma no_arity_error_getitem (values : gmap string value) (k : string) :
  no_arity_error (getitem values k).
Proof. unfold getitem. intros msg. destruct (values !! k); discriminate. Qed.

Lemma no_arity_error_iter (v : value) : no_arity_error (py_iter v).
Proof. intros msg. destruct v; discriminate. Qed.

Lemma no_arity_error_lookup (key : string) :
  no_arity_error (TYPES_MAPPING_getitem key).
Proof.
  intros msg. unfold TYPES_MAPPING_getitem.
  destruct (TYPES_MAPPING key); discriminate.
Qed.

Lemma no_arity_error_converter (key : string) (conv : value -> Exc value)
    (v : value) :
  TYPES_MAPPING_getitem key = Ok conv -> no_arity_error (conv v).
Proof.
  unfold TYPES_MAPPING_getitem, TYPES_MAPPING. intros H msg.
  destruct (String.eqb key "str");
    [injection H as <-; unfold py_str; destruct v;
     try destruct (repr_overlong _); discriminate|].
  destruct (String.eqb key "int").
  { injection H as <-. destruct v; cbn [py_int]; try discriminate.
    destruct (int_overlong s); [discriminate|].
    destruct (int_literal s); discriminate. }
  destruct (String.eqb key "bool"); [injection H as <-; discriminate|].
  destruct (String.eqb key "switch"); [injection H as <-; discriminate|].
  discriminate.
Qed.

Lemma no_arity_error_mapE {A B} (f : A -> Exc B) (l : list A) :
  (forall x, no_arity_error (f x)) -> no_arity_error (mapE f l).
Proof.
  intros Hf msg H. apply mapE_Raise_elem in H as (x & _ & Hx).
  exact (Hf x msg Hx).
Qed.

Create HintDb arity.
#[local] Hint Resolve no_arity_error_Ok no_arity_error_getitem
  no_arity_error_iter no_arity_error_lookup : arity.

(** Splits a [let*] into the computation and its continuation. *)
Ltac arity_bind := apply no_arity_error_bind; [auto with arity | intros ? ?].

Lemma no_arity_error_zip (converters : list (value -> Exc value))
    (values : list value) :
  Forall (fun conv => forall v, no_arity_error (conv v)) converters ->
  no_arity_error (zip_convert converters values).
Proof.
  intros Hall. revert values.
  induction Hall as [|conv converters Hconv _ IH]; intros values;
    [apply no_arity_error_Ok|].
  destruct values as [|v values]; [apply no_arity_error_Ok|].
  cbn [zip_convert]. arity_bind. arity_bind. auto with arity.
Qed.

Lemma tuple_converters_known (argument : Argument)
    (converters : list (value -> Exc value)) :
  tuple_converters argument = Ok converters ->
  Forall (fun conv => forall v, no_arity_error (conv v)) converters.
Proof.
  unfold tuple_converters.
  destruct (tuple_types argument) as [types|]; [|discriminate].
  intros H. apply mapE_Ok in H.
  induction H as [|key conv types converters Hkey _ IH]; constructor.
  - intros v. exact (no_arity_error_converter key conv v Hkey).
  - exact IH.
Qed.

Lemma no_arity_error_tuple_converters (argument : Argument) :
  no_arity_error (tuple_converters argument).
Proof.
  unfold tuple_converters.
  destruct (tuple_types argument) as [types|]; [|intros msg; discriminate].
  apply no_arity_error_mapE. auto with arity.
Qed.

Lemma no_arity_error_list_converter (argument : Argument) (x : value) :
  no_arity_error (let* conv := list_converter argument in conv x).
Proof.
  unfold list_converter.
  destruct (list_type argument) as [key|]; [|intros msg; discriminate].
  apply no_arity_error_bind; [auto with arity|].
  intros conv Hconv. exact (no_arity_error_converter key conv x Hconv).
Qed.

#[local] Hint Resolve no_arity_error_zip no_arity_error_tuple_converters
  no_arity_error_list_converter no_arity_error_mapE tuple_converters_known
  : arity.

Lemma _convert_values_body_no_arity_error (values : gmap string value)
    (argument : Argument) :
  no_arity_error (_convert_values_body values argument).
Proof.
  unfold _convert_values_body. arity_bind.
  destruct (is_None _); [auto with arity|].
  destruct (is_list argument && negb (is_tuple argument)).
  { arity_bind. arity_bind. auto with arity. }
  destruct (negb (is_list argument) && is_tuple argument).
  { arity_bind. arity_bind. arity_bind; [eauto with arity|].
    auto with arity. }
  destruct (is_list argument && is_tuple argument).
  { arity_bind. arity_bind. apply no_arity_error_bind.
    - apply no_arity_error_mapE. intros x.
      arity_bind. arity_bind; [eauto with arity|]. auto with arity.
    - auto with arity. }
  arity_bind. apply no_arity_error_bind; [|auto with arity].
  eapply no_arity_error_converter. eassumption.
Qed.

(** C3 (amended): for every argument, tuple splitting of the empty raw
    string yields a single-element sequence containing one empty string, and
    that sequence is returned before the arity check, whatever the declared
    arity.  For an argument that is tuple-shaped only, the splitting pass
    stores it as it is; for a list of tuples, whose empty raw string
    list-splits into the one empty element, the pass prints the two lines of
    that element and stores the one-element list that holds the sequence.
    In either case the conversion pass pairs the one empty string with the
    first declared type, and it raises no arity error on any dictionary. *)
Theorem empty_tuple_string_skips_arity (argument : Argument) :
  _parse_tuple argument "" = Ok [""]
  /\ (forall values,
        is_list argument = false -> is_tuple argument = true ->
        values !! name argument = Some (VStr "") ->
        _calculate_lists_and_tuples_body values argument
        = ([], Ok (<[name argument := VList [VStr ""]]> values)))
  /\ (forall values types,
        is_list argument = false -> is_tuple argument = true ->
        tuple_types argument = Some types ->
        values !! name argument = Some (VList [VStr ""]) ->
        _convert_values_body values argument
        = let* converters := mapE TYPES_MAPPING_getitem types in
          match converters with
          | [] => Ok (<[name argument := VList []]> values)
          | conv :: _ =>
              let* v := conv (VStr "") in
              Ok (<[name argument := VList [v]]> values)
          end)
  /\ (forall values msg,
        _convert_values_body values argument <> Raise (RuntimeError msg))
  /\ (forall values,
        is_list argument = true -> is_tuple argument = true ->
        values !! name argument = Some (VStr "") ->
        _calculate_lists_and_tuples_body values argument
        = (["xx"; "<class 'str'>"],
           Ok (<[name argument := VList [VList [VStr ""]]]> values)))
  /\ (forall values types,
        is_list argument = true -> is_tuple argument = true ->
        tuple_types argument = Some types ->
        values !! name argument = Some (VList [VList [VStr ""]]) ->
        _convert_values_body values argument
        = let* converters := mapE TYPES_MAPPING_getitem types in
          match converters with
          | [] => Ok (<[name argument := VList [VList []]]> values)
          | conv :: _ =>
              let* v := conv (VStr "") in
              Ok (<[name argument := VList [VList [v]]]> values)
          end).
Proof.
  assert (Hempty : _parse_tuple argument "" = Ok [""])
    by (vm_compute; reflexivity).
  split; [exact Hempty|]. split; [|split; [|split; [|split]]].
  - intros values Hlist Htuple Hvalue.
    unfold _calculate_lists_and_tuples_body, getitem.
    rewrite Hvalue. cbn [liftO bindO]. rewrite Hlist, Htuple.
    cbn [negb andb]. rewrite Hempty. reflexivity.
  - intros values types Hlist Htuple Htypes Hvalue.
    unfold _convert_values_body, getitem, tuple_converters.
    rewrite Hvalue. cbn [bindE is_None]. rewrite Hlist, Htuple, Htypes.
    cbn [andb negb].
    destruct (mapE TYPES_MAPPING_getitem types) as [converters|e];
      [|reflexivity].
    cbn [bindE py_iter]. destruct converters as [|conv converters];
      [reflexivity|].
    cbn [zip_convert]. destruct (conv (VStr "")) as [v|e]; [|reflexivity].
    cbn [bindE]. destruct converters; reflexivity.
  - intros values. exact (_convert_values_body_no_arity_error values argument).
  - intros values Hlist Htuple Hvalue.
    unfold _calculate_lists_and_tuples_body, getitem.
    rewrite Hvalue. cbn [liftO bindO]. rewrite Hlist, Htuple.
    cbn [negb andb]. unfold _parse_list_of_tuples.
    change (_split_list argument "") with (@Ok (list string) [""]).
    cbn [liftO bindO _parse_list_of_tuples_loop print]. rewrite Hempty.
    reflexivity.
  - intros values types Hlist Htuple Htypes Hvalue.
    unfold _convert_values_body, getitem, tuple_converters.
    rewrite Hvalue. cbn [bindE is_None]. rewrite Hlist, Htuple, Htypes.
    cbn [andb negb].
    destruct (mapE TYPES_MAPPING_getitem types) as [converters|e];
      [|reflexivity].
    cbn [bindE py_iter mapE]. destruct converters as [|conv converters];
      [reflexivity|].
    cbn [zip_convert]. destruct (conv (VStr "")) as [v|e]; [|reflexivity].
    cbn [bindE]. destruct converters; reflexivity.
Qed.

(** The passes at [tuple[str,int]] with the empty string. *)
Lemma empty_tuple_string_skips_arity_witness :
  _calculate_lists_and_tuples_body {[ "label" := VStr "" ]} label_arg
  = ([], Ok (<["label" := VList [VStr ""]]> {[ "label" := VStr "" ]})).
Proof.
  apply (proj1 (proj2 (empty_tuple_string_skips_arity label_arg))
           {[ "label" := VStr "" ]}); reflexivity.
Defined.

(** ** The boolean converter *)

(** C5: the converter of the kinds [bool] and [switch] is [str_to_bool],
    which sends the texts ["0"] and ["False"] to false, ["1"] and ["True"]
    to true, the empty text to false and every other text, such as ["yes"],
    to true; the match is exact, so ["false"] is true. *)
Theorem boolean_coercion_table :
  str_to_bool (VStr "0") = false
  /\ str_to_bool (VStr "False") = false
  /\ str_to_bool (VStr "1") = true
  /\ str_to_bool (VStr "True") = true
  /\ str_to_bool (VStr "yes") = true
  /\ str_to_bool (VStr "") = false
  /\ (forall s, str_to_bool (VStr s) = false
                <-> s = "0" \/ s = "False" \/ s = "")
  /\ (forall s, s <> "0" -> s <> "False" -> s <> "" ->
                str_to_bool (VStr s) = true)
  /\ (forall kind, kind = "bool" \/ kind = "switch" ->
        exists conv, TYPES_MAPPING kind = Some conv
                     /\ forall v, conv v = Ok (VBool (str_to_bool v))).
Proof.
  assert (Hfalse : forall s, str_to_bool (VStr s) = false
                             <-> s = "0" \/ s = "False" \/ s = "").
  { intros s. unfold str_to_bool, in_strs, py_bool. cbn [existsb].
    destruct (String.eqb_spec s "0") as [->|H0]; [simpl; tauto|].
    destruct (String.eqb_spec s "False") as [->|HF]; [simpl; tauto|].
    cbn [orb].
    destruct (String.eqb_spec s "1") as [->|H1];
      [split; [discriminate | intros [H|[H|H]]; discriminate]|].
    destruct (String.eqb_spec s "True") as [->|HT];
      [split; [discriminate | intros [H|[H|H]]; discriminate]|].
    cbn [orb]. destruct (String.eqb_spec s "") as [->|He]; simpl.
    - tauto.
    - split; [discriminate | intros [H|[H|H]]; contradiction]. }
  repeat (split; [reflexivity|]).
  split; [exact Hfalse|]. split.
  - intros s H0 HF He. destruct (str_to_bool (VStr s)) eqn:Hb; [reflexivity|].
    apply Hfalse in Hb as [H|[H|H]]; contradiction.
  - intros kind [-> | ->]; eexists; (split; [reflexivity|]);
      intros v; reflexivity.
Qed.

(** The table at ["false"], which is neither ["0"] nor ["False"]. *)
Lemma boolean_coercion_table_witness : str_to_bool (VStr "false") = true.
Proof.
  apply (proj1 (proj2 (proj2 (proj2 (proj2 (proj2 (proj2 (proj2
           boolean_coercion_table)))))))); discriminate.
Defined.

(** ** The fallback chain *)

Section Fallback.

(** The process environment of the run. *)
Variable environ : gmap string string.

Lemma _fallback_values_body_chain (values : gmap string value)
    (argument : Argument) (cli : value) :
  values !! name argument = Some cli ->
  _fallback_values_body environ values argument =
  Ok (<[name argument :=
          fallback_chain cli (env_value environ argument)
                         (default_value argument)]> values).
Proof.
  intros Hcli. unfold _fallback_values_body, env_value, getenv, getitem.
  rewrite Hcli. cbn [bindE].
  destruct (is_None cli) eqn:Hnone.
  - destruct cli; try discriminate.
    destruct (env_var argument) as [e|].
    + rewrite lookup_insert_eq. cbn [bindE].
      destruct (environ !! e) as [s|]; cbn [is_None fallback_chain].
      * destruct (default_value argument); reflexivity.
      * destruct (default_value argument) as [d|].
        -- rewrite insert_insert_eq. reflexivity.
        -- reflexivity.
    + rewrite Hcli. cbn [bindE is_None fallback_chain].
      destruct (default_value argument) as [d|]; [reflexivity|].
      rewrite insert_id by exact Hcli. reflexivity.
  - assert (Hchain : forall env default, fallback_chain cli env default = cli).
    { intros env default. destruct cli; try reflexivity. discriminate. }
    rewrite Hchain, insert_id by exact Hcli.
    assert (Hsame : match env_var argument with
                    | Some _ => values
                    | None => values
                    end = values) by (destruct (env_var argument); reflexivity).
    rewrite Hsame, Hcli. cbn [bindE]. rewrite Hnone.
    destruct (default_value argument); reflexivity.
Qed.

Lemma _fallback_values_chain (arguments : list Argument)
    (values : gmap string value) :
  NoDup (map name arguments) ->
  (forall a, a ∈ arguments -> is_Some (values !! name a)) ->
  exists final,
    _fallback_values environ arguments values = Ok final
    /\ (forall k, k ∉ map name arguments -> final !! k = values !! k)
    /\ (forall a cli, a ∈ arguments -> values !! name a = Some cli ->
          final !! name a =
          Some (fallback_chain cli (env_value environ a) (default_value a))).
Proof.
  unfold _fallback_values. revert values.
  induction arguments as [|a rest IH]; intros values Hnodup Hdom.
  - exists values. split; [reflexivity|]. split; [reflexivity|].
    intros a cli Ha. inversion Ha.
  - cbn [map] in Hnodup. apply NoDup_cons in Hnodup as [Hfresh Hnodup].
    destruct (Hdom a) as [cli Hcli]; [left|].
    cbn [for_arguments].
    rewrite (_fallback_values_body_chain values a cli Hcli).
    cbn [bindE].
    set (values' := <[name a := fallback_chain cli (env_value environ a)
                                    (default_value a)]> values).
    assert (Hrest : forall b, b ∈ rest -> name b <> name a).
    { intros b Hb Heq. apply Hfresh. rewrite <- Heq.
      apply list_elem_of_fmap. exists b. auto. }
    destruct (IH values' Hnodup) as (final & Hrun & Hother & Hchain).
    { intros b Hb. unfold values'.
      rewrite lookup_insert_ne by (apply not_eq_sym, Hrest, Hb).
      apply Hdom. right. exact Hb. }
    exists final. split; [exact Hrun|]. split.
    + intros k Hk. rewrite Hother.
      * unfold values'. apply lookup_insert_ne. intros <-.
        apply Hk. cbn [map]. left.
      * intros Hin. apply Hk. cbn [map]. right. exact Hin.
    + intros b cli' Hb Hcli'. apply elem_of_cons in Hb as [-> | Hb].
      * rewrite Hother by exact Hfresh. unfold values'.
        rewrite lookup_insert_eq. congruence.
      * apply Hchain; [exact Hb|]. unfold values'.
        rewrite lookup_insert_ne by (apply not_eq_sym, Hrest, Hb).
        exact Hcli'.
Qed.

(** C4: for every argument of a run whose argument names are distinct and all
    held by the dictionary of CLI values, [_fallback_values] succeeds and
    leaves under the argument's name the CLI value when there is one, the
    empty string included; otherwise the value of its environment variable;
    otherwise its declared default; otherwise [None], which is no error: the
    two later passes leave an absent value alone. *)
Theorem fallback_precedence (arguments : list Argument)
    (values : gmap string value) (argument : Argument) (cli : value) :
  NoDup (map name arguments) ->
  (forall a, a ∈ arguments -> is_Some (values !! name a)) ->
  argument ∈ arguments ->
  values !! name argument = Some cli ->
  exists final,
    _fallback_values environ arguments values = Ok final
    /\ final !! name argument =
       Some (fallback_chain cli (env_value environ argument)
                            (default_value argument))
    /\ (cli <> VNone -> final !! name argument = Some cli)
    /\ (cli = VStr "" -> final !! name argument = Some (VStr ""))
    /\ (forall e, cli = VNone -> env_value environ argument = Some e ->
                  final !! name argument = Some (VStr e))
    /\ (forall d, cli = VNone -> env_value environ argument = None ->
                  default_value argument = Some d ->
                  final !! name argument = Some (VStr d))
    /\ (cli = VNone -> env_value environ argument = None ->
        default_value argument = None ->
        final !! name argument = Some VNone
        /\ _calculate_lists_and_tuples_body final argument = ([], Ok final)
        /\ _convert_values_body final argument = Ok final).
Proof.
  intros Hnodup Hdom Hin Hcli.
  destruct (_fallback_values_chain arguments values Hnodup Hdom)
    as (final & Hrun & _ & Hchain).
  specialize (Hchain argument cli Hin Hcli).
  exists final. split; [exact Hrun|]. split; [exact Hchain|].
  split; [|split; [|split; [|split]]].
  - intros Hne. rewrite Hchain. destruct cli; try reflexivity. contradiction.
  - intros ->. rewrite Hchain. reflexivity.
  - intros e -> Henv. rewrite Hchain, Henv. reflexivity.
  - intros d -> Henv Hdefault. rewrite Hchain, Henv, Hdefault. reflexivity.
  - intros -> Henv Hdefault. rewrite Henv, Hdefault in Hchain.
    split; [exact Hchain|]. exact (absent_value_skipped final argument Hchain).
Qed.

End Fallback.

(** An empty CLI value wins over a set environment variable and a default. *)
Lemma fallback_precedence_witness :
  exists final,
    _fallback_values {[ "HOME_DIR" := "/root" ]} [home_arg]
                     {[ "home" := VStr "" ]} = Ok final
    /\ final !! "home" = Some (VStr "").
Proof.
  destruct (fallback_precedence {[ "HOME_DIR" := "/root" ]} [home_arg]
              {[ "home" := VStr "" ]} home_arg (VStr ""))
    as (final & Hrun & _ & _ & Hempty & _).
  - apply NoDup_singleton.
  - intros a Ha. apply list_elem_of_singleton in Ha. subst a.
    exists (VStr ""). reflexivity.
  - apply list_elem_of_singleton. reflexivity.
  - reflexivity.
  - exists final. split; [exact Hrun | exact (Hempty eq_refl)].
Defined.

(** ** Construction of a descriptor *)

(** C8, the claim as written, fails: [list[float]] names no known scalar
    kind, yet the descriptor is constructed, and a run in which the argument
    has no value ends without any error. *)
Lemma unknown_inner_kind_constructs :
  list_match "list[float]" = Some "float"
  /\ TYPES_MAPPING "float" = None
  /\ Argument_new (floats_def None)
     = Ok (mk_Argument "floats" "list[float]" "an unknown inner kind"
             "--floats" None None true (Some "float") false None)
  /\ resolved (ArgumentsParser_init [floats_def None] (absent "floats") ∅)
              "floats"
     = Ok VNone.
Proof.
  repeat split; vm_compute; reflexivity.
Qed.

Lemma __post_init___list (n t d c : string) (e dv : option string) :
  is_list (__post_init__ n t d c e dv)
  = match list_match t with Some _ => true | None => false end
  /\ list_type (__post_init__ n t d c e dv) = list_match t
  /\ name (__post_init__ n t d c e dv) = n.
Proof.
  unfold __post_init__.
  destruct (list_match t), (tuple_match t); repeat split; reflexivity.
Qed.

(** C8 (amended): for every descriptor whose type string matches
    [list[<inner>]], construction succeeds and records the list shape and
    the inner type as written, whether or not the inner type is a known
    scalar kind ([list[tuple[int,int]]] is such a descriptor).  An unknown
    inner kind surfaces in the conversion pass only, as a failed lookup in
    [TYPES_MAPPING], when a list-only argument has a value with at least one
    element; with no value the pass leaves the argument alone. *)
Theorem list_inner_kind_unchecked :
  (forall d inner,
     list_match (def_type d) = Some inner ->
     exists a, Argument_new d = Ok a
               /\ is_list a = true /\ list_type a = Some inner)
  /\ (forall a inner values x xs,
        is_list a = true -> is_tuple a = false ->
        list_type a = Some inner ->
        TYPES_MAPPING inner = None ->
        values !! name a = Some (VList (x :: xs)) ->
        _convert_values_body values a = Raise (KeyError inner))
  /\ (forall a values,
        values !! name a = Some VNone ->
        _convert_values_body values a = Ok values)
  /\ (exists a, Argument_new (pairs_def None) = Ok a
                /\ list_type a = Some "tuple[int,int]"
                /\ TYPES_MAPPING "tuple[int,int]" = None)
  /\ snd (ArgumentsParser_init [floats_def (Some "1.5")]
            (absent "floats") ∅)
     = Raise (KeyError "float").
Proof.
  split; [|split; [|split; [|split]]].
  - intros d inner Hmatch. eexists. split; [reflexivity|].
    destruct (__post_init___list (def_name d) (def_type d)
                (def_description d) (def_cli_arg d) (def_env_var d)
                (def_default_value d)) as (Hl & Ht & _).
    rewrite Hl, Ht, Hmatch. split; reflexivity.
  - intros a inner values x xs Hlist Htuple Htype Hunknown Hvalue.
    unfold _convert_values_body, getitem. rewrite Hvalue.
    cbn [bindE is_None]. rewrite Hlist, Htuple. cbn [andb negb py_iter bindE].
    cbn [mapE]. unfold list_converter, TYPES_MAPPING_getitem.
    rewrite Htype, Hunknown. reflexivity.
  - intros a values Hvalue. unfold _convert_values_body, getitem.
    rewrite Hvalue. reflexivity.
  - eexists. split; [reflexivity|]. split; vm_compute; reflexivity.
  - vm_compute. reflexivity.
Qed.

(** The construction at [list[float]]. *)
Lemma list_inner_kind_unchecked_witness :
  exists a, Argument_new (floats_def None) = Ok a
            /\ is_list a = true /\ list_type a = Some "float".
Proof.
  apply (proj1 list_inner_kind_unchecked (floats_def None) "float").
  vm_compute. reflexivity.
Defined.

(** * Further properties *)

(** ** Loops over the arguments

    A loop body is local when a pass that returns has read the slot of its
    argument and has written, if anything, that slot only. *)

Lemma dom_insert_present (m : gmap string value) (k : string) (v v' : value) :
  m !! k = Some v -> dom (<[k := v']> m) = dom m.
Proof.
  intros Hk. rewrite dom_insert_L. apply subseteq_union_1_L.
  apply singleton_subseteq_l. apply (elem_of_dom_2 (D := gset string)) in Hk.
  exact Hk.
Qed.

Section ForArguments.

Variable body : gmap string value -> Argument -> Exc (gmap string value).

Hypothesis body_local : forall values argument values',
  body values argument = Ok values' ->
  exists v v', values !! name argument = Some v
               /\ values' = <[name argument := v']> values.

Lemma for_arguments_frame (arguments : list Argument)
    (values final : gmap string value) (k : string) :
  for_arguments body arguments values = Ok final ->
  k ∉ map name arguments ->
  final !! k = values !! k.
Proof.
  revert values. induction arguments as [|a rest IH]; intros values Hrun Hk.
  - injection Hrun as <-. reflexivity.
  - cbn [for_arguments] in Hrun.
    apply bindE_Ok in Hrun as (values' & Hbody & Hrun).
    destruct (body_local _ _ _ Hbody) as (v & v' & _ & ->).
    rewrite (IH _ Hrun).
    + apply lookup_insert_ne. intros Heq. apply Hk. rewrite <- Heq.
      cbn [map]. left.
    + intros Hin. apply Hk. cbn [map]. right. exact Hin.
Qed.

Lemma for_arguments_dom (arguments : list Argument)
    (values final : gmap string value) :
  for_arguments body arguments values = Ok final ->
  dom final = dom values
  /\ forall a, a ∈ arguments -> is_Some (values !! name a).
Proof.
  revert values. induction arguments as [|a rest IH]; intros values Hrun.
  - injection Hrun as <-. split; [reflexivity|]. intros a Ha. inversion Ha.
  - cbn [for_arguments] in Hrun.
    apply bindE_Ok in Hrun as (values' & Hbody & Hrun).
    destruct (body_local _ _ _ Hbody) as (v & v' & Hv & ->).
    destruct (IH _ Hrun) as (Hdom & Hkeys).
    pose proof (dom_insert_present values (name a) v v' Hv) as Hsame.
    split; [congruence|].
    intros b Hb. apply elem_of_cons in Hb as [-> | Hb]; [eauto|].
    specialize (Hkeys b Hb).
    apply (elem_of_dom (D := gset string)) in Hkeys.
    rewrite Hsame in Hkeys. apply (elem_of_dom (D := gset string)). exact Hkeys.
Qed.

(** With distinct names, what the loop leaves under the name of an argument
    is what the pass for that argument wrote, and that pass found there what
    the loop started with. *)
Lemma for_arguments_own (arguments : list Argument)
    (values final : gmap string value) (argument : Argument) :
  NoDup (map name arguments) ->
  for_arguments body arguments values = Ok final ->
  argument ∈ arguments ->
  exists before after,
    body before argument = Ok after
    /\ before !! name argument = values !! name argument
    /\ final !! name argument = after !! name argument.
Proof.
  revert values.
  induction arguments as [|a rest IH]; intros values Hnodup Hrun Hin;
    [inversion Hin|].
  cbn [map] in Hnodup. apply NoDup_cons in Hnodup as [Hfresh Hnodup].
  cbn [for_arguments] in Hrun.
  apply bindE_Ok in Hrun as (values' & Hbody & Hrun).
  apply elem_of_cons in Hin as [-> | Hin].
  - exists values, values'. split; [exact Hbody|]. split; [reflexivity|].
    exact (for_arguments_frame _ _ _ _ Hrun Hfresh).
  - destruct (IH _ Hnodup Hrun Hin) as (before & after & Hb & Hsame & Hfinal).
    exists before, after. split; [exact Hb|]. split; [|exact Hfinal].
    rewrite Hsame.
    destruct (body_local _ _ _ Hbody) as (v & v' & _ & ->).
    apply lookup_insert_ne. intros Heq. apply Hfresh. rewrite Heq.
    apply list_elem_of_fmap. exists argument. auto.
Qed.

(** A loop that raises does so in the pass of one of its arguments. *)
Lemma for_arguments_Raise (arguments : list Argument)
    (values : gmap string value) (e : exn) :
  for_arguments body arguments values = Raise e ->
  exists argument before,
    argument ∈ arguments /\ body before argument = Raise e
    /\ dom before = dom values.
Proof.
  revert values. induction arguments as [|a rest IH]; intros values Hrun;
    [discriminate|].
  cbn [for_arguments] in Hrun.
  apply bindE_Raise in Hrun as [Hbody | (values' & Hbody & Hrun)].
  - exists a, values. split; [left|]. split; [exact Hbody | reflexivity].
  - destruct (IH _ Hrun) as (b & before & Hb & Hraise & Hdom).
    exists b, before. split; [right; exact Hb|]. split; [exact Hraise|].
    rewrite Hdom.
    destruct (body_local _ _ _ Hbody) as (v & v' & Hv & ->).
    exact (dom_insert_present values (name a) v v' Hv).
Qed.

(** With distinct names, the pass that raises still finds under the name of
    its argument what the loop started with. *)
Lemma for_arguments_Raise_own (arguments : list Argument)
    (values : gmap string value) (e : exn) :
  NoDup (map name arguments) ->
  for_arguments body arguments values = Raise e ->
  exists argument before,
    argument ∈ arguments /\ body before argument = Raise e
    /\ before !! name argument = values !! name argument.
Proof.
  revert values.
  induction arguments as [|a rest IH]; intros values Hnodup Hrun;
    [discriminate|].
  cbn [map] in Hnodup. apply NoDup_cons in Hnodup as [Hfresh Hnodup].
  cbn [for_arguments] in Hrun.
  apply bindE_Raise in Hrun as [Hbody | (values' & Hbody & Hrun)].
  - exists a, values. split; [left|]. split; [exact Hbody | reflexivity].
  - destruct (IH _ Hnodup Hrun) as (b & before & Hb & Hraise & Hown).
    exists b, before. split; [right; exact Hb|]. split; [exact Hraise|].
    rewrite Hown.
    destruct (body_local _ _ _ Hbody) as (v & v' & _ & ->).
    apply lookup_insert_ne. intros Heq. apply Hfresh. rewrite Heq.
    apply list_elem_of_fmap. exists b. auto.
Qed.

End ForArguments.

(** ** The three passes are local *)

Lemma _fallback_values_body_local (environ : gmap string string)
    (values : gmap string value) (argument : Argument)
    (values' : gmap string value) :
  _fallback_values_body environ values argument = Ok values' ->
  exists v v', values !! name argument = Some v
               /\ values' = <[name argument := v']> values.
Proof.
  destruct (values !! name argument) as [cli|] eqn:Hcli.
  - rewrite (_fallback_values_body_chain environ values argument cli Hcli).
    intros [= <-]. eauto.
  - unfold _fallback_values_body, getitem. rewrite Hcli. discriminate.
Qed.

Lemma _fallback_values_body_missing (environ : gmap string string)
    (values : gmap string value) (argument : Argument) (e : exn) :
  _fallback_values_body environ values argument = Raise e ->
  values !! name argument = None /\ e = KeyError (name argument).
Proof.
  destruct (values !! name argument) as [cli|] eqn:Hcli.
  - rewrite (_fallback_values_body_chain environ values argument cli Hcli).
    discriminate.
  - unfold _fallback_values_body, getitem. rewrite Hcli.
    intros [= <-]. auto.
Qed.

Lemma splitting_body_cases (values : gmap string value)
    (argument : Argument) (values' : gmap string value) :
  splitting_body values argument = Ok values' ->
  exists v, values !! name argument = Some v
    /\ ((values' = values
         /\ (compound argument = false \/ not_raw v = true))
        \/ exists l, compound argument = true /\ not_raw v = false
                     /\ values' = <[name argument := VList l]> values).
Proof.
  unfold splitting_body, _calculate_lists_and_tuples_body, getitem, compound.
  destruct (values !! name argument) as [v|]; [|discriminate].
  rewrite bindO_snd. cbn [liftO snd bindE].
  intros H. exists v. split; [reflexivity|].
  destruct (is_list argument), (is_tuple argument);
    cbn [negb andb orb] in H |- *;
    try (cbn [liftO snd] in H; injection H as <-; auto; fail);
    (destruct v; try (cbn [liftO snd] in H; injection H as <-; auto; fail));
    right; rewrite bindO_snd in H; apply bindE_Ok in H as (r & _ & H);
    cbn [liftO snd] in H; injection H as <-; eauto.
Qed.

Lemma splitting_body_local (values : gmap string value)
    (argument : Argument) (values' : gmap string value) :
  splitting_body values argument = Ok values' ->
  exists v v', values !! name argument = Some v
               /\ values' = <[name argument := v']> values.
Proof.
  intros H.
  apply splitting_body_cases in H as (v & Hv & [[-> _] | (l & _ & _ & ->)]).
  - exists v, v. split; [exact Hv|]. symmetry. apply insert_id. exact Hv.
  - eauto.
Qed.

Lemma _calculate_lists_and_tuples_snd (arguments : list Argument)
    (values : gmap string value) :
  snd (_calculate_lists_and_tuples arguments values)
  = for_arguments splitting_body arguments values.
Proof.
  revert values. induction arguments as [|a rest IH]; intros values;
    [reflexivity|].
  cbn [_calculate_lists_and_tuples for_arguments]. rewrite bindO_snd.
  fold (splitting_body values a).
  destruct (splitting_body values a); cbn [bindE]; [apply IH | reflexivity].
Qed.

Lemma _convert_values_body_local (values : gmap string value)
    (argument : Argument) (values' : gmap string value) :
  _convert_values_body values argument = Ok values' ->
  exists v v', values !! name argument = Some v
               /\ values' = <[name argument := v']> values.
Proof.
  unfold _convert_values_body, getitem.
  destruct (values !! name argument) as [v|] eqn:Hv; [|discriminate].
  cbn [bindE]. intros H. exists v.
  destruct (is_None v).
  { injection H as <-. exists v. split; [reflexivity|].
    symmetry. apply insert_id. exact Hv. }
  repeat match type of H with
         | (if ?b then _ else _) = _ => destruct b
         end;
    repeat match type of H with
           | bindE _ _ = Ok _ => apply bindE_Ok in H as (? & _ & H)
           end;
    injection H as <-; eauto.
Qed.

(** ** The stages of a run *)

Lemma Argument_new_all (definitions : list arg_def) :
  mapE Argument_new definitions = Ok (arguments_of definitions).
Proof.
  induction definitions as [|d rest IH]; [reflexivity|].
  cbn [mapE arguments_of map]. unfold Argument_new at 1. cbn [bindE].
  rewrite IH. reflexivity.
Qed.

Lemma arguments_of_names (definitions : list arg_def) :
  map name (arguments_of definitions) = map def_name definitions.
Proof.
  unfold arguments_of. rewrite map_map. apply map_ext. intros d.
  apply __post_init___list.
Qed.

Lemma ArgumentsParser_init_stages (definitions : list arg_def)
    (cli_values : gmap string value) (environ : gmap string string) :
  snd (ArgumentsParser_init definitions cli_values environ)
  = let* v1 := _fallback_values environ (arguments_of definitions)
                                cli_values in
    let* v2 := for_arguments splitting_body (arguments_of definitions) v1 in
    _convert_values (arguments_of definitions) v2.
Proof.
  unfold ArgumentsParser_init. rewrite bindO_snd.
  cbn [liftO snd]. rewrite Argument_new_all. cbn [bindE].
  rewrite bindO_snd. cbn [liftO snd].
  destruct (_fallback_values environ (arguments_of definitions) cli_values)
    as [v1|e]; [|reflexivity].
  cbn [bindE]. rewrite bindO_snd, _calculate_lists_and_tuples_snd.
  destruct (for_arguments splitting_body (arguments_of definitions) v1);
    reflexivity.
Qed.

(** ** The keys of the dictionary *)

(** X1: a run that returns has found every declared name among the keys of
    the dictionary of CLI values, and returns a dictionary with the very same
    keys. *)
Theorem run_keeps_keys (definitions : list arg_def)
    (cli_values : gmap string value) (environ : gmap string string)
    (final : gmap string value) :
  snd (ArgumentsParser_init definitions cli_values environ) = Ok final ->
  dom final = dom cli_values
  /\ forall d, d ∈ definitions -> is_Some (cli_values !! def_name d).
Proof.
  rewrite ArgumentsParser_init_stages. intros Hrun.
  apply bindE_Ok in Hrun as (v1 & Hfallback & Hrun).
  apply bindE_Ok in Hrun as (v2 & Hsplit & Hconvert).
  apply (for_arguments_dom _ (_fallback_values_body_local environ))
    in Hfallback as (Hdom1 & Hkeys).
  apply (for_arguments_dom _ splitting_body_local) in Hsplit as (Hdom2 & _).
  apply (for_arguments_dom _ _convert_values_body_local)
    in Hconvert as (Hdom3 & _).
  split; [congruence|].
  intros d Hd.
  rewrite <- (proj2 (proj2 (__post_init___list (def_name d) (def_type d)
                              (def_description d) (def_cli_arg d)
                              (def_env_var d) (def_default_value d)))).
  apply Hkeys. unfold arguments_of. apply list_elem_of_fmap.
  exists d. auto.
Qed.

(** A run of two arguments: both names stay, nothing is added. *)
Lemma run_keeps_keys_witness :
  match snd (ArgumentsParser_init [pair_def (Some "5 hello"); floats_def None]
               {[ "pair" := VNone; "floats" := VNone ]} ∅) with
  | Ok final => dom final = dom ({[ "pair" := VNone; "floats" := VNone ]}
                                   : gmap string value)
  | Raise _ => False
  end.
Proof.
  destruct (snd (ArgumentsParser_init
                   [pair_def (Some "5 hello"); floats_def None]
                   {[ "pair" := VNone; "floats" := VNone ]} ∅))
    as [final|e] eqn:Hrun.
  - exact (proj1 (run_keeps_keys _ _ _ _ Hrun)).
  - vm_compute in Hrun. discriminate.
Defined.

(** ** Missing names *)

Lemma _fallback_values_present (environ : gmap string string)
    (arguments : list Argument) (values : gmap string value) :
  (forall a, a ∈ arguments -> is_Some (values !! name a)) ->
  exists final, _fallback_values environ arguments values = Ok final.
Proof.
  unfold _fallback_values. revert values.
  induction arguments as [|a rest IH]; intros values Hkeys;
    [eexists; reflexivity|].
  destruct (Hkeys a) as [cli Hcli]; [left|].
  cbn [for_arguments].
  rewrite (_fallback_values_body_chain environ values a cli Hcli).
  cbn [bindE]. apply IH. intros b Hb.
  specialize (Hkeys b ltac:(right; exact Hb)).
  apply (elem_of_dom (D := gset string)).
  rewrite (dom_insert_present values (name a) cli _ Hcli).
  apply (elem_of_dom (D := gset string)). exact Hkeys.
Qed.

(** X2: the fallback pass returns if and only if the dictionary holds a key
    for the name of every argument; when it raises, the exception is the
    [KeyError] of an argument's name that the dictionary lacks. *)
Theorem fallback_needs_every_name (environ : gmap string string)
    (arguments : list Argument) (values : gmap string value) :
  ((exists final, _fallback_values environ arguments values = Ok final)
   <-> forall a, a ∈ arguments -> is_Some (values !! name a))
  /\ (forall e, _fallback_values environ arguments values = Raise e ->
        exists a, a ∈ arguments /\ values !! name a = None
                  /\ e = KeyError (name a)).
Proof.
  split; [split|].
  - intros (final & Hrun).
    exact (proj2 (for_arguments_dom _ (_fallback_values_body_local environ)
                    _ _ _ Hrun)).
  - apply _fallback_values_present.
  - intros e Hrun.
    apply (for_arguments_Raise _ (_fallback_values_body_local environ))
      in Hrun as (a & before & Ha & Hbody & Hdom).
    apply _fallback_values_body_missing in Hbody as (Hnone & ->).
    exists a. split; [exact Ha|]. split; [|reflexivity].
    apply (not_elem_of_dom (D := gset string)). rewrite <- Hdom.
    apply (not_elem_of_dom (D := gset string)). exact Hnone.
Qed.

(** The name [home] is no key of the empty dictionary. *)
Lemma fallback_needs_every_name_witness :
  exists a, a ∈ [home_arg] /\ (∅ : gmap string value) !! name a = None
            /\ KeyError "home" = KeyError (name a).
Proof.
  apply (proj2 (fallback_needs_every_name ∅ [home_arg] ∅)).
  vm_compute. reflexivity.
Defined.

(** ** The kinds of the resolved values *)

Lemma converter_kind (key : string) (conv : value -> Exc value)
    (x v : value) :
  TYPES_MAPPING_getitem key = Ok conv -> conv x = Ok v ->
  kind_ok key v = true.
Proof.
  unfold TYPES_MAPPING_getitem, TYPES_MAPPING. intros Hkey Hconv.
  destruct (String.eqb_spec key "str") as [->|_].
  { injection Hkey as <-. unfold py_str in Hconv.
    destruct x; try destruct (repr_overlong _); try discriminate;
      injection Hconv as <-; reflexivity. }
  destruct (String.eqb_spec key "int") as [->|_].
  { injection Hkey as <-. destruct x; cbn [py_int] in Hconv;
      try discriminate; try (injection Hconv as <-; reflexivity).
    destruct (int_overlong s); [discriminate|].
    destruct (int_literal s); [|discriminate].
    injection Hconv as <-. reflexivity. }
  destruct (String.eqb_spec key "bool") as [->|_].
  { injection Hkey as <-. injection Hconv as <-. reflexivity. }
  destruct (String.eqb_spec key "switch") as [->|_]; [|discriminate].
  injection Hkey as <-. injection Hconv as <-. reflexivity.
Qed.

Lemma zip_convert_kinds (types : list string)
    (converters : list (value -> Exc value)) (items r : list value) :
  mapE TYPES_MAPPING_getitem types = Ok converters ->
  zip_convert converters items = Ok r ->
  tuple_ok types r = true.
Proof.
  intros Hconv. apply mapE_Ok in Hconv. revert items r.
  induction Hconv as [|t conv types converters Ht _ IH]; intros items r Hzip.
  - injection Hzip as <-. reflexivity.
  - destruct items as [|x items]; [injection Hzip as <-; reflexivity|].
    cbn [zip_convert] in Hzip.
    apply bindE_Ok in Hzip as (v & Hv & Hzip).
    apply bindE_Ok in Hzip as (vs & Hvs & [= <-]).
    cbn [tuple_ok]. rewrite (converter_kind t conv x v Ht Hv).
    exact (IH items vs Hvs).
Qed.

Lemma mapE_forallb {A} (f : A -> Exc value) (ok : value -> bool)
    (l : list A) (r : list value) :
  (forall x v, f x = Ok v -> ok v = true) ->
  mapE f l = Ok r -> forallb ok r = true.
Proof.
  intros Hf H. apply mapE_Ok in H.
  induction H as [|x v l r Hx _ IH]; [reflexivity|].
  cbn [forallb]. rewrite (Hf x v Hx), IH. reflexivity.
Qed.

(** What the conversion pass of one argument leaves in its slot. *)
Lemma _convert_values_body_typed (values values' : gmap string value)
    (argument : Argument) :
  (is_list argument = true -> is_Some (list_type argument)) ->
  _convert_values_body values argument = Ok values' ->
  exists v, values' !! name argument = Some v
            /\ well_typed argument v = true.
Proof.
  intros Hshape. unfold _convert_values_body, getitem.
  destruct (values !! name argument) as [v0|] eqn:Hv0; [|discriminate].
  cbn [bindE]. intros H.
  destruct (is_None v0) eqn:Hnone.
  { injection H as <-. exists v0. split; [exact Hv0|].
    destruct v0; try discriminate. reflexivity. }
  unfold well_typed.
  destruct (is_list argument && negb (is_tuple argument)) eqn:Hlist.
  { apply bindE_Ok in H as (items & _ & H).
    apply bindE_Ok in H as (r & Hr & [= <-]).
    exists (VList r). split; [apply lookup_insert_eq|].
    destruct (Hshape ltac:(destruct (is_list argument);
                           [reflexivity | discriminate])) as [inner Hinner].
    rewrite Hinner. cbn [items_ok].
    refine (mapE_forallb _ _ _ _ _ Hr).
    intros x v Hx. unfold list_converter in Hx. rewrite Hinner in Hx.
    apply bindE_Ok in Hx as (conv & Hconv & Hx).
    exact (converter_kind inner conv x v Hconv Hx). }
  destruct (negb (is_list argument) && is_tuple argument) eqn:Htuple.
  { apply bindE_Ok in H as (converters & Hconv & H).
    apply bindE_Ok in H as (items & _ & H).
    apply bindE_Ok in H as (r & Hr & [= <-]).
    exists (VList r). split; [apply lookup_insert_eq|].
    unfold tuple_converters in Hconv.
    destruct (tuple_types argument) as [types|]; [|discriminate].
    destruct (is_list argument), (is_tuple argument); try discriminate.
    cbn [items_ok]. exact (zip_convert_kinds _ _ _ _ Hconv Hr). }
  destruct (is_list argument && is_tuple argument) eqn:Hboth.
  { apply bindE_Ok in H as (converters & Hconv & H).
    apply bindE_Ok in H as (items & _ & H).
    apply bindE_Ok in H as (r & Hr & [= <-]).
    exists (VList r). split; [apply lookup_insert_eq|].
    unfold tuple_converters in Hconv.
    destruct (tuple_types argument) as [types|]; [|discriminate].
    destruct (is_list argument), (is_tuple argument); try discriminate.
    cbn [items_ok]. refine (mapE_forallb _ _ _ _ _ Hr).
    intros x v Hx. apply bindE_Ok in Hx as (elems & _ & Hx).
    apply bindE_Ok in Hx as (rs & Hrs & [= <-]).
    cbn [items_ok]. exact (zip_convert_kinds _ _ _ _ Hconv Hrs). }
  apply bindE_Ok in H as (conv & Hconv & H).
  apply bindE_Ok in H as (r & Hr & [= <-]).
  exists r. split; [apply lookup_insert_eq|].
  pose proof (converter_kind _ conv v0 r Hconv Hr) as Hkind.
  destruct (is_list argument), (is_tuple argument); try discriminate.
  destruct r; try discriminate; exact Hkind.
Qed.

(** X3: when a run over definitions with distinct names returns, every
    declared argument has a slot whose value is [None] or has the declared
    shape: a text, an integer or a boolean for the scalar kinds, a list of
    such values for a list, a list whose items follow the declared kinds
    position by position for a tuple, and a list of such lists for a list of
    tuples. *)
Theorem resolved_values_are_typed (definitions : list arg_def)
    (cli_values : gmap string value) (environ : gmap string string)
    (final : gmap string value) (argument : Argument) :
  NoDup (map def_name definitions) ->
  snd (ArgumentsParser_init definitions cli_values environ) = Ok final ->
  argument ∈ arguments_of definitions ->
  exists v, final !! name argument = Some v
            /\ well_typed argument v = true.
Proof.
  intros Hnodup Hrun Hin. rewrite ArgumentsParser_init_stages in Hrun.
  apply bindE_Ok in Hrun as (v1 & _ & Hrun).
  apply bindE_Ok in Hrun as (v2 & _ & Hconvert).
  rewrite <- arguments_of_names in Hnodup.
  destruct (for_arguments_own _ _convert_values_body_local _ _ _ _
              Hnodup Hconvert Hin) as (before & after & Hbody & _ & Hfinal).
  rewrite Hfinal. apply (_convert_values_body_typed before); [|exact Hbody].
  intros Hlist. unfold arguments_of in Hin.
  apply list_elem_of_fmap in Hin as (d & -> & _).
  destruct (__post_init___list (def_name d) (def_type d) (def_description d)
              (def_cli_arg d) (def_env_var d) (def_default_value d))
    as (Hl & Ht & _).
  rewrite Ht. rewrite Hl in Hlist.
  destruct (list_match (def_type d)); [eauto | discriminate].
Qed.

(** The pairs of ["1 2;3 4"] are typed as [list[tuple[int,int]]] declares. *)
Lemma resolved_values_are_typed_witness :
  match snd (ArgumentsParser_init [pairs_def (Some "1 2;3 4")]
               (absent "pairs") ∅) with
  | Ok final =>
      exists v, final !! "pairs" = Some v
                /\ well_typed (__post_init__ "pairs" "list[tuple[int,int]]"
                                 "pairs of ints" "--pairs" None
                                 (Some "1 2;3 4")) v = true
  | Raise _ => False
  end.
Proof.
  destruct (snd (ArgumentsParser_init [pairs_def (Some "1 2;3 4")]
                   (absent "pairs") ∅)) as [final|e] eqn:Hrun.
  - exact (resolved_values_are_typed [pairs_def (Some "1 2;3 4")]
             (absent "pairs") ∅ final
             (__post_init__ "pairs" "list[tuple[int,int]]" "pairs of ints"
                "--pairs" None (Some "1 2;3 4"))
             (NoDup_singleton _) Hrun
             ltac:(apply list_elem_of_singleton; reflexivity)).
  - vm_compute in Hrun. discriminate.
Defined.

(** ** The splitting pass and values that are no raw strings *)

Lemma _calculate_lists_and_tuples_body_skip (values : gmap string value)
    (argument : Argument) (v : value) :
  values !! name argument = Some v ->
  compound argument = false \/ not_raw v = true ->
  _calculate_lists_and_tuples_body values argument = ([], Ok values).
Proof.
  intros Hv Hskip. unfold _calculate_lists_and_tuples_body, getitem, compound
    in *.
  rewrite Hv. cbn [liftO bindO].
  destruct (is_list argument), (is_tuple argument); cbn [negb andb orb] in *;
    try reflexivity;
    (destruct Hskip as [Hskip|Hskip]; [discriminate|]);
    destruct v; try discriminate; reflexivity.
Qed.

Lemma _calculate_lists_and_tuples_skip (arguments : list Argument)
    (values : gmap string value) :
  (forall a, a ∈ arguments ->
     exists v, values !! name a = Some v
               /\ (compound a = false \/ not_raw v = true)) ->
  _calculate_lists_and_tuples arguments values = ([], Ok values).
Proof.
  induction arguments as [|a rest IH]; intros Hall; [reflexivity|].
  destruct (Hall a) as (v & Hv & Hskip); [left|].
  cbn [_calculate_lists_and_tuples].
  rewrite (_calculate_lists_and_tuples_body_skip values a v Hv Hskip).
  cbn [bindO]. rewrite IH; [reflexivity|].
  intros b Hb. apply Hall. right. exact Hb.
Qed.

Lemma splitting_body_keeps_not_raw (values values' : gmap string value)
    (argument : Argument) (k : string) (v : value) :
  splitting_body values argument = Ok values' ->
  values !! k = Some v -> not_raw v = true ->
  exists v', values' !! k = Some v' /\ not_raw v' = true.
Proof.
  intros Hbody Hk Hv.
  apply splitting_body_cases in Hbody
    as (v0 & Hv0 & [[-> _] | (l & _ & _ & ->)]); [eauto|].
  destruct (decide (name argument = k)) as [<-|Hne].
  - exists (VList l). split; [apply lookup_insert_eq | reflexivity].
  - exists v. split; [|exact Hv]. rewrite lookup_insert_ne by exact Hne.
    exact Hk.
Qed.

Lemma splitting_keeps_not_raw (arguments : list Argument)
    (values final : gmap string value) (k : string) (v : value) :
  for_arguments splitting_body arguments values = Ok final ->
  values !! k = Some v -> not_raw v = true ->
  exists v', final !! k = Some v' /\ not_raw v' = true.
Proof.
  revert values v. induction arguments as [|a rest IH];
    intros values v Hrun Hk Hv.
  - injection Hrun as <-. eauto.
  - cbn [for_arguments] in Hrun.
    apply bindE_Ok in Hrun as (values' & Hbody & Hrun).
    destruct (splitting_body_keeps_not_raw _ _ _ _ _ Hbody Hk Hv)
      as (v' & Hk' & Hv').
    exact (IH values' v' Hrun Hk' Hv').
Qed.

Lemma splitting_leaves_sequences (arguments : list Argument)
    (values final : gmap string value) (argument : Argument) :
  for_arguments splitting_body arguments values = Ok final ->
  argument ∈ arguments -> compound argument = true ->
  exists v, final !! name argument = Some v /\ not_raw v = true.
Proof.
  revert values. induction arguments as [|a rest IH];
    intros values Hrun Hin Hcompound; [inversion Hin|].
  cbn [for_arguments] in Hrun.
  apply bindE_Ok in Hrun as (values' & Hbody & Hrun).
  apply elem_of_cons in Hin as [-> | Hin]; [|exact (IH _ Hrun Hin Hcompound)].
  pose proof Hbody as Hcases.
  apply splitting_body_cases in Hcases
    as (v0 & Hv0 & [[-> [Hno | Hraw]] | (l & _ & _ & ->)]).
  - congruence.
  - exact (splitting_keeps_not_raw _ _ _ _ _ Hrun Hv0 Hraw).
  - apply (splitting_keeps_not_raw _ _ _ _ (VList l) Hrun);
      [apply lookup_insert_eq | reflexivity].
Qed.

(** X4: the splitting pass changes nothing and prints nothing when no list-
    or tuple-shaped argument holds a raw string; such are the sequences that
    argparse delivers for repeated or multi-valued options, and [None]. *)
Theorem sequences_skip_splitting (arguments : list Argument)
    (values : gmap string value) :
  (forall a, a ∈ arguments ->
     exists v, values !! name a = Some v
               /\ (compound a = false \/ not_raw v = true)) ->
  _calculate_lists_and_tuples arguments values = ([], Ok values).
Proof. exact (_calculate_lists_and_tuples_skip arguments values). Qed.

(** A repeated option of a [list[str]] argument holding ["a;b"] and ["c"]:
    the semicolon inside the first occurrence splits nothing. *)
Lemma sequences_skip_splitting_witness :
  _calculate_lists_and_tuples [names_arg]
    {[ "names" := VList [VStr "a;b"; VStr "c"] ]}
  = ([], Ok {[ "names" := VList [VStr "a;b"; VStr "c"] ]}).
Proof.
  apply sequences_skip_splitting. intros a Ha.
  apply list_elem_of_singleton in Ha. subst a.
  exists (VList [VStr "a;b"; VStr "c"]). split; [reflexivity|].
  right. reflexivity.
Defined.

(** X5: once the splitting pass has returned, every list- or tuple-shaped
    argument holds a value that is no raw string, and a second splitting
    pass over the result changes nothing and prints nothing. *)
Theorem splitting_pass_settles (arguments : list Argument)
    (values final : gmap string value) :
  snd (_calculate_lists_and_tuples arguments values) = Ok final ->
  (forall a, a ∈ arguments -> compound a = true ->
     exists v, final !! name a = Some v /\ not_raw v = true)
  /\ _calculate_lists_and_tuples arguments final = ([], Ok final).
Proof.
  rewrite _calculate_lists_and_tuples_snd. intros Hrun.
  assert (Hseq : forall a, a ∈ arguments -> compound a = true ->
            exists v, final !! name a = Some v /\ not_raw v = true).
  { intros a Ha Hc. exact (splitting_leaves_sequences _ _ _ _ Hrun Ha Hc). }
  split; [exact Hseq|].
  apply _calculate_lists_and_tuples_skip. intros a Ha.
  destruct (compound a) eqn:Hc.
  - destruct (Hseq a Ha Hc) as (v & Hv & Hraw). eauto.
  - destruct (for_arguments_dom _ splitting_body_local _ _ _ Hrun)
      as (Hdom & Hkeys).
    specialize (Hkeys a Ha). apply (elem_of_dom (D := gset string)) in Hkeys.
    rewrite <- Hdom in Hkeys.
    apply (elem_of_dom (D := gset string)) in Hkeys as [v Hv]. eauto.
Qed.

(** The pass on ["1 2;3 4"] for [list[tuple[int,int]]], and once more. *)
Lemma splitting_pass_settles_witness :
  match snd (_calculate_lists_and_tuples
               (arguments_of [pairs_def None])
               {[ "pairs" := VStr "1 2;3 4" ]}) with
  | Ok final =>
      _calculate_lists_and_tuples (arguments_of [pairs_def None]) final
      = ([], Ok final)
  | Raise _ => False
  end.
Proof.
  destruct (snd (_calculate_lists_and_tuples
                   (arguments_of [pairs_def None])
                   {[ "pairs" := VStr "1 2;3 4" ]})) as [final|e] eqn:Hrun.
  - exact (proj2 (splitting_pass_settles _ _ _ Hrun)).
  - vm_compute in Hrun. discriminate.
Defined.

(** ** The options handed to argparse *)

Lemma str_split_length (sep : ascii) (s : string) :
  1 <= List.length (str_split sep s).
Proof.
  pose proof (str_split_nonempty sep s).
  destruct (str_split sep s); [contradiction | cbn [List.length]; lia].
Qed.

(** X6: for every constructed descriptor [argparse_options] returns, with the
    CLI option as the only positional argument and the name as [dest].  A
    list-shaped option appends its occurrences; a tuple-shaped option takes
    exactly as many values as it declares kinds, at least one; the optional
    value and the constant [True] are set for the type [switch] only, which
    is never list- or tuple-shaped, so that nothing overwrites them. *)
Theorem argparse_options_shape (n t d c : string) (e dv : option string) :
  exists kwargs,
    argparse_options (__post_init__ n t d c e dv) = Ok ([c], kwargs)
    /\ kwargs !! "dest" = Some (VStr n)
    /\ kwargs !! "action"
       = (if is_list (__post_init__ n t d c e dv)
          then Some (VStr "append")
          else if String.eqb t "switch" then Some (VStr "store") else None)
    /\ kwargs !! "nargs"
       = match tuple_types (__post_init__ n t d c e dv) with
         | Some types => Some (VInt (Z.of_nat (List.length types)))
         | None => if String.eqb t "switch" then Some (VStr "?") else None
         end
    /\ kwargs !! "const"
       = (if String.eqb t "switch" then Some (VBool true) else None)
    /\ (forall types,
          tuple_types (__post_init__ n t d c e dv) = Some types ->
          is_tuple (__post_init__ n t d c e dv) = true
          /\ 1 <= List.length types)
    /\ (t = "switch" ->
        is_list (__post_init__ n t d c e dv) = false
        /\ is_tuple (__post_init__ n t d c e dv) = false).
Proof.
  destruct (String.eqb_spec t "switch") as [->|Hne].
  - eexists. split; [reflexivity|].
    repeat split; try reflexivity; discriminate.
  - unfold __post_init__, argparse_options, len_tuple_types.
    apply String.eqb_neq in Hne.
    destruct (list_match t) as [inner|], (tuple_match t) as [g|];
      cbn [is_list is_tuple tuple_types list_type bindE type name cli_arg];
      rewrite Hne;
      eexists; do 5 (split; [reflexivity|]);
      (split;
       [ intros types Ht;
         first [ discriminate
               | injection Ht as <-;
                 split; [reflexivity
                        | rewrite length_map; apply str_split_length] ]
       | intros ->; rewrite String.eqb_refl in Hne; discriminate ]).
Qed.

(** The options of [list[tuple[int,int]]]: two values for each occurrence. *)
Lemma argparse_options_shape_witness :
  is_tuple (__post_init__ "pairs" "list[tuple[int,int]]" "" "--pairs" None
              None) = true
  /\ 1 <= List.length ["int"; "int"].
Proof.
  destruct (argparse_options_shape "pairs" "list[tuple[int,int]]" ""
              "--pairs" None None) as (kwargs & _ & _ & _ & _ & _ & Ht & _).
  apply Ht. reflexivity.
Defined.

(** ** Type strings and the shapes read from them *)

Lemma append_assoc_str (a b c : string) :
  a +:+ b +:+ c = (a +:+ b) +:+ c.
Proof.
  induction a as [|x a IH]; [reflexivity|].
  change (String x a +:+ b +:+ c) with (String x (a +:+ b +:+ c)).
  rewrite IH. reflexivity.
Qed.

Lemma char_in_app (c : ascii) (a b : string) :
  char_in c (a +:+ b) = char_in c a || char_in c b.
Proof.
  induction a as [|x a IH]; [reflexivity|].
  change (String x a +:+ b) with (String x (a +:+ b)).
  cbn [char_in]. rewrite IH. apply orb_assoc.
Qed.

Lemma greedy_close_last (u : string) :
  char_in newline u = false -> greedy_close (u +:+ "]") = Some u.
Proof.
  induction u as [|c u IH]; [reflexivity|].
  change (String c u +:+ "]") with (String c (u +:+ "]")).
  cbn [char_in greedy_close]. intros H.
  apply orb_false_iff in H as [Hc Hu].
  rewrite Ascii.eqb_sym in Hc. rewrite Hc, (IH Hu). reflexivity.
Qed.

Lemma lazy_close_first (g rest : string) :
  char_in "]" g = false -> char_in newline g = false ->
  lazy_close (g +:+ String "]" rest) = Some g.
Proof.
  induction g as [|c g IH]; [reflexivity|].
  change (String c g +:+ String "]" rest)
    with (String c (g +:+ String "]" rest)).
  cbn [char_in lazy_close]. intros Hb Hn.
  apply orb_false_iff in Hb as [Hcb Hb].
  apply orb_false_iff in Hn as [Hcn Hn].
  rewrite Ascii.eqb_sym in Hcb. rewrite Ascii.eqb_sym in Hcn.
  rewrite Hcb, Hcn, (IH Hb Hn). reflexivity.
Qed.

Lemma list_match_brackets (inner : string) :
  inner <> "" -> char_in newline inner = false ->
  list_match ("list[" +:+ inner +:+ "]") = Some inner.
Proof.
  intros Hne Hn. destruct inner as [|c inner]; [contradiction|].
  cbn [char_in] in Hn. apply orb_false_iff in Hn as [Hc Hn].
  rewrite Ascii.eqb_sym in Hc.
  unfold list_match.
  change (startswith "list[" ("list[" +:+ String c inner +:+ "]")) with true.
  change (drop_str 5 ("list[" +:+ String c inner +:+ "]"))
    with (String c (inner +:+ "]")).
  cbv iota. rewrite Hc, (greedy_close_last inner Hn). reflexivity.
Qed.

Lemma tuple_match_here (g rest : string) :
  g <> "" -> char_in "]" g = false -> char_in newline g = false ->
  tuple_match ("tuple[" +:+ g +:+ String "]" rest) = Some g.
Proof.
  intros Hne Hb Hn. destruct g as [|c g]; [contradiction|].
  cbn [char_in] in Hb, Hn.
  apply orb_false_iff in Hb as [_ Hb].
  apply orb_false_iff in Hn as [Hc Hn].
  rewrite Ascii.eqb_sym in Hc.
  assert (Hhere : (if startswith "tuple["
                        ("tuple[" +:+ String c g +:+ String "]" rest)
                   then match drop_str 6
                                ("tuple[" +:+ String c g +:+ String "]" rest)
                        with
                        | String c0 s' =>
                            if Ascii.eqb c0 newline then None
                            else option_map (String c0) (lazy_close s')
                        | EmptyString => None
                        end
                   else None) = Some (String c g)).
  { change (startswith "tuple["
              ("tuple[" +:+ String c g +:+ String "]" rest)) with true.
    change (drop_str 6 ("tuple[" +:+ String c g +:+ String "]" rest))
      with (String c (g +:+ String "]" rest)).
    cbv iota. rewrite Hc, (lazy_close_first g rest Hb Hn). reflexivity. }
  change ("tuple[" +:+ String c g +:+ String "]" rest)
    with (String "t" ("uple[" +:+ String c g +:+ String "]" rest)) in *.
  cbn [tuple_match]. cbv zeta. rewrite Hhere. reflexivity.
Qed.

Lemma str_split_clean (x : string) :
  char_in "," x = false -> str_split "," x = [x].
Proof.
  induction x as [|c x IH]; [reflexivity|].
  cbn [char_in str_split]. intros H. apply orb_false_iff in H as [Hc Hx].
  rewrite Ascii.eqb_sym in Hc. rewrite Hc, (IH Hx). reflexivity.
Qed.

Lemma str_split_comma (x rest : string) :
  char_in "," x = false ->
  str_split "," (x +:+ "," +:+ rest) = x :: str_split "," rest.
Proof.
  induction x as [|c x IH]; [reflexivity|].
  change (String c x +:+ "," +:+ rest) with (String c (x +:+ "," +:+ rest)).
  cbn [char_in str_split]. intros H.
  apply orb_false_iff in H as [Hc Hx].
  rewrite Ascii.eqb_sym in Hc. rewrite Hc, (IH Hx). reflexivity.
Qed.

Lemma str_split_join (types : list string) :
  types <> [] -> forallb kind_name_ok types = true ->
  str_split "," (join "," types) = types.
Proof.
  induction types as [|t types IH]; [contradiction|]. intros _ Hall.
  cbn [forallb] in Hall. apply andb_true_iff in Hall as [Ht Hall].
  unfold kind_name_ok in Ht.
  apply andb_true_iff in Ht as [Ht _]. apply andb_true_iff in Ht as [Ht _].
  apply negb_true_iff in Ht.
  destruct types as [|t' types]; [exact (str_split_clean t Ht)|].
  change (join "," (t :: t' :: types))
    with (t +:+ "," +:+ join "," (t' :: types)).
  rewrite (str_split_comma t _ Ht), IH; [reflexivity | discriminate | exact Hall].
Qed.

Lemma join_clean (c : ascii) (types : list string) :
  Ascii.eqb c "," = false ->
  forallb (fun t => negb (char_in c t)) types = true ->
  char_in c (join "," types) = false.
Proof.
  intros Hc. induction types as [|t types IH]; [reflexivity|].
  cbn [forallb]. intros Hall. apply andb_true_iff in Hall as [Ht Hall].
  apply negb_true_iff in Ht.
  destruct types as [|t' types]; [exact Ht|].
  change (join "," (t :: t' :: types))
    with (t +:+ "," +:+ join "," (t' :: types)).
  rewrite !char_in_app, Ht, (IH Hall). cbn [char_in]. rewrite Hc. reflexivity.
Qed.

Lemma kind_names_clean (types : list string) :
  forallb kind_name_ok types = true ->
  char_in "]" (join "," types) = false
  /\ char_in newline (join "," types) = false.
Proof.
  intros Hall. split; apply join_clean; try reflexivity;
    (apply forallb_forall; intros t Ht;
     apply (proj1 (forallb_forall _ _) Hall) in Ht; unfold kind_name_ok in Ht;
     apply andb_true_iff in Ht as [Ht Hn];
     apply andb_true_iff in Ht as [_ Hb]; assumption).
Qed.

(** X7: type strings written from their parts are read back as written.  A
    non-empty inner text without newline between [list[] and []] makes a
    list-shaped descriptor with that inner text.  Kind names without comma,
    bracket or newline whose text joined by commas is not empty, written
    between [tuple[] and []], make a tuple-shaped descriptor, not
    list-shaped, whose kinds are the names with their surrounding blanks
    stripped; the same tuple type as the inner text of a list type makes a
    descriptor of both shapes with the same kinds.  With nothing between
    the brackets, which is what no kind or one empty kind is written as,
    neither shape is read: [tuple[]] is not tuple-shaped and [list[]] is
    not list-shaped. *)
Theorem type_strings_read_back (n d c : string) (e dv : option string) :
  (forall inner,
     inner <> "" -> char_in newline inner = false ->
     is_list (__post_init__ n ("list[" +:+ inner +:+ "]") d c e dv) = true
     /\ list_type (__post_init__ n ("list[" +:+ inner +:+ "]") d c e dv)
        = Some inner)
  /\ (forall types,
        join "," types <> "" -> forallb kind_name_ok types = true ->
        is_list (__post_init__ n ("tuple[" +:+ join "," types +:+ "]")
                   d c e dv) = false
        /\ is_tuple (__post_init__ n ("tuple[" +:+ join "," types +:+ "]")
                       d c e dv) = true
        /\ tuple_types (__post_init__ n ("tuple[" +:+ join "," types +:+ "]")
                          d c e dv) = Some (map strip types))
  /\ (forall types,
        join "," types <> "" -> forallb kind_name_ok types = true ->
        let inner := "tuple[" +:+ join "," types +:+ "]" in
        is_list (__post_init__ n ("list[" +:+ inner +:+ "]") d c e dv) = true
        /\ list_type (__post_init__ n ("list[" +:+ inner +:+ "]") d c e dv)
           = Some inner
        /\ is_tuple (__post_init__ n ("list[" +:+ inner +:+ "]") d c e dv)
           = true
        /\ tuple_types (__post_init__ n ("list[" +:+ inner +:+ "]") d c e dv)
           = Some (map strip types))
  /\ ((forall types, join "," types = "" <-> types = [] \/ types = [""])
      /\ is_tuple (__post_init__ n "tuple[]" d c e dv) = false
      /\ tuple_types (__post_init__ n "tuple[]" d c e dv) = None
      /\ is_list (__post_init__ n "tuple[]" d c e dv) = false)
  /\ (is_list (__post_init__ n "list[]" d c e dv) = false
      /\ list_type (__post_init__ n "list[]" d c e dv) = None
      /\ is_tuple (__post_init__ n "list[]" d c e dv) = false).
Proof.
  assert (Htuple : forall types rest,
            join "," types <> "" -> forallb kind_name_ok types = true ->
            tuple_match ("tuple[" +:+ join "," types +:+ String "]" rest)
            = Some (join "," types)
            /\ str_split "," (join "," types) = types).
  { intros types rest Hne Hall.
    destruct (kind_names_clean types Hall) as [Hb Hn].
    split; [exact (tuple_match_here _ rest Hne Hb Hn)|].
    apply str_split_join; [|exact Hall].
    intros ->. apply Hne. reflexivity. }
  split; [|split; [|split; [|split]]].
  5: repeat split; reflexivity.
  4: { split; [|repeat split; reflexivity].
       intros [|x [|y l]]; cbn [join].
       - split; [auto | reflexivity].
       - split; [intros ->; auto | intros [H|[= ->]]; [discriminate|reflexivity]].
       - split; [|intros [H|H]; discriminate].
         destruct x; discriminate. }
  - intros inner Hne Hn.
    destruct (__post_init___list n ("list[" +:+ inner +:+ "]") d c e dv)
      as (Hl & Ht & _).
    rewrite Hl, Ht, (list_match_brackets inner Hne Hn). auto.
  - intros types Hne Hall.
    destruct (Htuple types "" Hne Hall) as [Hmatch Hsplit].
    unfold __post_init__. rewrite Hmatch, Hsplit.
    change (list_match ("tuple[" +:+ join "," types +:+ "]")) with (@None string).
    auto.
  - intros types Hne Hall inner.
    destruct (Htuple types "]" Hne Hall) as [Hmatch Hsplit].
    destruct (kind_names_clean types Hall) as [_ Hn].
    assert (Hlist : list_match ("list[" +:+ inner +:+ "]") = Some inner).
    { apply list_match_brackets; [discriminate|].
      unfold inner. rewrite !char_in_app, Hn. reflexivity. }
    assert (Hfind : tuple_match ("list[" +:+ inner +:+ "]")
                    = Some (join "," types)).
    { rewrite <- Hmatch. unfold inner.
      change ("list[" +:+ ("tuple[" +:+ join "," types +:+ "]") +:+ "]")
        with ("list[tuple[" +:+ (join "," types +:+ "]") +:+ "]").
      rewrite <- append_assoc_str. reflexivity. }
    unfold __post_init__. rewrite Hlist, Hfind, Hsplit. auto.
Qed.

(** The kinds of ["tuple[int, str]"]: the blank after the comma is dropped. *)
Lemma type_strings_read_back_witness :
  tuple_types (__post_init__ "pair" ("tuple[" +:+ join "," ["int"; " str"]
                                      +:+ "]") "" "--pair" None None)
  = Some (map strip ["int"; " str"]).
Proof.
  apply (proj1 (proj2 (type_strings_read_back "pair" "" "--pair" None None))
           ["int"; " str"]); [discriminate | reflexivity].
Defined.

(** * Plain text

    What the two lexers and the rewrite loop do with text that holds no
    quote, no escape and no comment. *)

(** ** The lexer on plain text *)

Section PlainLexer.

Variables (px : bool) (com wc ws qs es eqs : string).

Hypothesis a_no_quote : char_in "a" qs = false.
Hypothesis a_no_escape : char_in "a" es = false.

Local Abbreviation plain := (plain_char px com qs es).
Local Abbreviation lex := (lexer px com wc ws qs es eqs).

Lemma append_str1_nonempty (tk : string) (c : ascii) : tk +:+ str1 c <> "".
Proof. destruct tk; discriminate. Qed.

Lemma plain_char_facts (c : ascii) :
  plain c = true ->
  char_in c com = false /\ char_in c qs = false /\ px && char_in c es = false.
Proof.
  unfold plain_char. intros H.
  apply andb_true_iff in H as [H Hes]. apply andb_true_iff in H as [Hcom Hqs].
  apply negb_true_iff in Hcom, Hqs, Hes. auto.
Qed.

(** One pass between two tokens. *)
Lemma read_token_pass_between (c : ascii) (ins : string) (ln : nat)
    (esc : ascii) :
  plain c = true ->
  exists ln1,
    read_token_pass (lex (String c ins) (Some " "%char) ln "") false esc
    = if char_in c ws
      then Continue (lex ins (Some " "%char) ln1 "") false esc
      else Continue (lex ins (Some "a"%char) ln1 (str1 c)) false esc.
Proof.
  intros Hc. apply plain_char_facts in Hc as (Hcom & Hqs & Hes).
  unfold read_token_pass, lexer, emit_or_continue.
  cbn [instream state drop_str]. cbv zeta.
  destruct (Ascii.eqb c (chr 10)); shlex_fields;
    change (Ascii.eqb " " " ") with true; cbv iota;
    eexists; (destruct (char_in c ws);
      [ shlex_fields; rewrite andb_false_r; reflexivity
      | rewrite Hcom, Hes, Hqs; cbn [char_in punctuation_chars];
        destruct (char_in c wc); reflexivity ]).
Qed.

(** One pass inside a token. *)
Lemma read_token_pass_inside (c : ascii) (ins : string) (ln : nat)
    (tk : string) (esc : ascii) :
  plain c = true -> tk <> "" ->
  exists ln1,
    read_token_pass (lex (String c ins) (Some "a"%char) ln tk) false esc
    = if char_in c ws
      then Break (lex ins (Some " "%char) ln1 tk) false
      else Continue (lex ins (Some "a"%char) ln1 (tk +:+ str1 c)) false esc.
Proof.
  intros Hc Htk. apply plain_char_facts in Hc as (Hcom & Hqs & Hes).
  apply String.eqb_neq in Htk.
  unfold read_token_pass, lexer, emit_or_continue, token_add.
  cbn [instream state drop_str]. cbv zeta.
  destruct (Ascii.eqb c (chr 10)); shlex_fields;
    change (Ascii.eqb "a" " ") with false; cbv iota;
    rewrite a_no_quote, a_no_escape;
    change (Ascii.eqb "a" "a" || Ascii.eqb "a" "c") with true; cbv iota;
    eexists; (destruct (char_in c ws);
      [ shlex_fields; rewrite Htk; reflexivity
      | rewrite Hcom, Hes, Hqs, andb_false_r;
        change (Ascii.eqb "a" "c") with false;
        cbn [char_in punctuation_chars negb andb]; rewrite orb_true_r;
        reflexivity ]).
Qed.

(** The pass at the end of the input. *)
Lemma read_token_pass_end (st : option ascii) (ln : nat) (tk : string)
    (esc : ascii) :
  ready st tk ->
  read_token_pass (lex "" st ln tk) false esc
  = Break (lex "" None ln tk) false.
Proof.
  unfold read_token_pass, lexer. cbn [instream state drop_str]. cbv zeta.
  intros [[-> ->] | [-> Htk]]; shlex_fields.
  - reflexivity.
  - change (Ascii.eqb "a" " ") with false. cbv iota.
    rewrite a_no_quote, a_no_escape. reflexivity.
Qed.

Lemma read_token_loop_plain (ins : string) :
  forall budget st ln tk esc,
    all_chars plain ins = true ->
    ready st tk ->
    String.length ins < budget ->
    exists ins' st' ln' tk',
      read_token_loop budget (lex ins st ln tk) false esc
      = Ok (lex ins' st' ln' tk', false)
      /\ all_chars plain ins' = true
      /\ ((tk' = "" /\ st' = None /\ scan ws tk ins = [])
          \/ (tk' <> "" /\ st' = None
              /\ String.length ins' <= String.length ins
              /\ scan ws tk ins = [tk'])
          \/ (tk' <> "" /\ st' = Some " "%char
              /\ String.length ins' < String.length ins
              /\ scan ws tk ins = tk' :: scan ws "" ins')).
Proof.
  induction ins as [|c ins IH]; intros budget st ln tk esc Hplain Hready Hlen;
    (destruct budget as [|budget]; [cbn [String.length] in Hlen; lia|]).
  - cbn [read_token_loop]. rewrite (read_token_pass_end st ln tk esc Hready).
    exists "", None, ln, tk. split; [reflexivity|]. split; [reflexivity|].
    cbn [scan]. destruct Hready as [[_ ->] | [_ Htk]].
    + left. auto.
    + right. left. repeat split; try assumption; try lia.
      destruct (String.eqb_spec tk ""); [contradiction | reflexivity].
  - cbn [all_chars] in Hplain. apply andb_true_iff in Hplain as [Hc Hplain].
    cbn [String.length] in Hlen. cbn [read_token_loop scan].
    assert (Hrest :
      forall st1 ln1 tk1, ready st1 tk1 ->
        scan ws tk (String c ins) = scan ws tk1 ins ->
        exists ins' st' ln' tk',
          read_token_loop budget (lex ins st1 ln1 tk1) false esc
          = Ok (lex ins' st' ln' tk', false)
          /\ all_chars plain ins' = true
          /\ ((tk' = "" /\ st' = None /\ scan ws tk (String c ins) = [])
              \/ (tk' <> "" /\ st' = None
                  /\ String.length ins' <= S (String.length ins)
                  /\ scan ws tk (String c ins) = [tk'])
              \/ (tk' <> "" /\ st' = Some " "%char
                  /\ String.length ins' < S (String.length ins)
                  /\ scan ws tk (String c ins) = tk' :: scan ws "" ins'))).
    { intros st1 ln1 tk1 Hready1 Hscan.
      destruct (IH budget st1 ln1 tk1 esc Hplain Hready1 ltac:(lia))
        as (ins' & st' & ln' & tk' & Hrun & Hp & Hcases).
      exists ins', st', ln', tk'. split; [exact Hrun|]. split; [exact Hp|].
      rewrite Hscan.
      destruct Hcases as [(? & ? & ?) | [(? & ? & ? & ?) | (? & ? & ? & ?)]];
        [left | right; left | right; right]; repeat split; auto; lia. }
    cbn [scan] in Hrest.
    destruct Hready as [[-> ->] | [-> Htk]].
    + destruct (read_token_pass_between c ins ln esc Hc) as [ln1 ->].
      destruct (char_in c ws).
      * apply Hrest; [left; auto | reflexivity].
      * apply Hrest; [right; split; [reflexivity | discriminate] | reflexivity].
    + destruct (read_token_pass_inside c ins ln tk esc Hc Htk) as [ln1 ->].
      destruct (char_in c ws).
      * exists ins, (Some " "%char), ln1, tk.
        split; [reflexivity|]. split; [exact Hplain|].
        right. right. cbn [String.length].
        repeat split; try assumption; try lia.
        destruct (String.eqb_spec tk ""); [contradiction | reflexivity].
      * apply Hrest; [|reflexivity].
        right. split; [reflexivity | apply append_str1_nonempty].
Qed.

Lemma read_token_past_end (ins : string) (ln : nat) (tk : string) :
  exists ins' ln',
    read_token (lex ins None ln tk)
    = Ok (if px then None else Some "", lex ins' None ln' "").
Proof.
  unfold read_token. cbn [read_token_loop]. unfold read_token_pass, lexer.
  cbn [instream state drop_str]. cbv zeta.
  destruct ins as [|c ins]; [|destruct (Ascii.eqb c (chr 10))];
    shlex_fields; cbn [bindE]; shlex_fields;
    change (String.eqb "" "") with true; rewrite andb_true_r;
    cbn [negb]; rewrite andb_true_r; destruct px; eexists _, _; reflexivity.
Qed.

(** What [__next__] yields: nothing at the end of the tokens, else the next
    token and the lexer set for the rest. *)
Lemma shlex_next_plain (ins : string) (ln : nat) :
  all_chars plain ins = true ->
  (exists self', shlex_next (lex ins (Some " "%char) ln "") = Ok (None, self')
                 /\ scan ws "" ins = [])
  \/ (exists tk' ins' st' ln',
        shlex_next (lex ins (Some " "%char) ln "")
        = Ok (Some tk', lex ins' st' ln' "")
        /\ all_chars plain ins' = true
        /\ ((st' = None /\ String.length ins' <= String.length ins
             /\ scan ws "" ins = [tk'])
            \/ (st' = Some " "%char
                /\ String.length ins' < String.length ins
                /\ scan ws "" ins = tk' :: scan ws "" ins'))).
Proof.
  intros Hplain. unfold shlex_next, get_token.
  change (pushback (lex ins (Some " "%char) ln "")) with (@nil string).
  cbv iota. unfold read_token.
  change (instream (lex ins (Some " "%char) ln "")) with ins.
  destruct (read_token_loop_plain ins (S (String.length ins))
              (Some " "%char) ln "" " " Hplain ltac:(left; auto) ltac:(lia))
    as (ins' & st' & ln' & tk' & Hrun & Hp & Hcases).
  rewrite Hrun. cbn [bindE].
  change (token (lex ins' st' ln' tk')) with tk'.
  change (set_token "" (lex ins' st' ln' tk')) with (lex ins' st' ln' "").
  change (posix (lex ins' st' ln' "")) with px.
  cbn [negb]. rewrite andb_true_r.
  destruct Hcases as [(-> & -> & Hscan) | Hcases].
  - left. change (String.eqb "" "") with true. rewrite andb_true_r.
    destruct px; cbn [bindE]; eexists; (split; [reflexivity | exact Hscan]).
  - right. exists tk', ins', st', ln'.
    assert (Htk : tk' <> "") by (destruct Hcases as [(? & _) | (? & _)]; assumption).
    apply String.eqb_neq in Htk. rewrite Htk, andb_false_r. cbn [bindE].
    unfold eof. change (posix (lex ins' st' ln' "")) with px.
    split.
    + destruct px; cbv iota; rewrite ?Htk; reflexivity.
    + split; [exact Hp|].
      destruct Hcases as [(_ & -> & Hle & Hscan) | (_ & -> & Hlt & Hscan)];
        auto.
Qed.

(** The tokens of a text of plain characters are its pieces between the
    whitespace characters. *)
Lemma shlex_list_plain (budget : nat) :
  forall ins st ln,
    all_chars plain ins = true ->
    st = Some " "%char \/ st = None ->
    2 * String.length ins + match st with None => 0 | Some _ => 1 end
    < budget ->
    shlex_list budget (lex ins st ln "")
    = Ok match st with
         | None => []
         | Some _ => scan ws "" ins
         end.
Proof.
  induction budget as [|budget IH]; intros ins st ln Hplain Hst Hlen; [lia|].
  cbn [shlex_list].
  destruct Hst as [-> | ->].
  - destruct (shlex_next_plain ins ln Hplain)
      as [(self' & -> & Hscan)
         | (tk' & ins' & st' & ln' & -> & Hp & Hcases)]; cbn [bindE].
    + rewrite Hscan. reflexivity.
    + destruct Hcases as [(-> & Hle & ->) | (-> & Hlt & ->)].
      * rewrite (IH ins' None ln' Hp); [reflexivity | auto | lia].
      * rewrite (IH ins' (Some " "%char) ln' Hp); [reflexivity | auto | lia].
  - unfold shlex_next, get_token.
    change (pushback (lex ins None ln "")) with (@nil string). cbv iota.
    destruct (read_token_past_end ins ln "") as (ins' & ln' & ->).
    cbn [bindE]. unfold eof.
    change (posix (lex ins' None ln' "")) with px.
    destruct px; reflexivity.
Qed.

End PlainLexer.

Lemma shlex_split_plain (s : string) :
  all_chars shell_plain s = true ->
  shlex_split s = Ok (scan shell_blanks "" s).
Proof.
  intros Hplain. unfold shlex_split.
  set (lex := set_commenters "" (set_whitespace_split true (shlex_init s true))).
  change lex with (lexer true "" (wordchars lex) shell_blanks
                     (String "'" (str1 (chr 34))) "\" (str1 (chr 34))
                     s (Some " "%char) 1 "").
  refine (shlex_list_plain true "" (wordchars lex) shell_blanks
            (String "'" (str1 (chr 34))) "\" (str1 (chr 34)) eq_refl eq_refl
            _ s (Some " "%char) 1 _ _ _).
  - revert Hplain. clear. induction s as [|c s IH]; [reflexivity|].
    cbn [all_chars]. intros [Hc Hs]%andb_true_iff.
    rewrite (IH Hs), andb_true_r. revert Hc.
    unfold plain_char, shell_plain. cbn [char_in andb negb orb].
    change (char_in c (str1 (chr 34))) with (Ascii.eqb c dquote || false).
    destruct (Ascii.eqb c "'"), (Ascii.eqb c dquote), (Ascii.eqb c "\");
      cbn; congruence.
  - left. reflexivity.
  - unfold list_budget, lexer. shlex_fields. cbn [List.length]. lia.
Qed.

(** ** The rewrite loop in one pass *)

Lemma append_cons (c : ascii) (t u : string) :
  String c t +:+ u = String c (t +:+ u).
Proof. reflexivity. Qed.

Lemma append_nil_r (t : string) : t +:+ "" = t.
Proof.
  induction t as [|c t IH]; [reflexivity|]. rewrite append_cons, IH.
  reflexivity.
Qed.

Lemma spaced_pass (t : string) :
  forall after, spaced after (rewrite_pass t) = spaced after t.
Proof.
  unfold rewrite_pass.
  induction t as [|c t IH]; intros after; [reflexivity|].
  rewrite str_replace_1_eq.
  destruct (startswith ";;" (String c t)) eqn:Hpre.
  - apply startswith_doubled in Hpre as [r Hr]. injection Hr as -> ->.
    destruct after; reflexivity.
  - cbn [spaced]. rewrite !IH. reflexivity.
Qed.

Lemma spaced_clean (t : string) :
  forall after,
    adjacent_pairs t = 0 ->
    (after = true -> startswith ";" t = false) ->
    spaced after t = t.
Proof.
  induction t as [|c t IH]; intros after Hpairs Hafter; [reflexivity|].
  cbn [spaced].
  assert (Ht : adjacent_pairs t = 0).
  { destruct t as [|b t]; [reflexivity|].
    rewrite adjacent_pairs_cons2 in Hpairs. lia. }
  destruct (is_semicolon c) eqn:Hc.
  - destruct after.
    + specialize (Hafter eq_refl). cbn [startswith] in Hafter.
      fold (is_semicolon c) in Hafter. rewrite Hc in Hafter. discriminate.
    + f_equal. apply IH; [exact Ht|]. intros _.
      destruct t as [|b t]; [reflexivity|].
      rewrite adjacent_pairs_cons2, Hc in Hpairs. cbn [startswith].
      fold (is_semicolon b). destruct (is_semicolon b); [cbn in Hpairs; lia|].
      reflexivity.
  - f_equal. apply IH; [exact Ht|]. discriminate.
Qed.

(** The loop puts one blank between every two adjacent semicolons. *)
Lemma rewrite_doubled_spaced (t : string) :
  rewrite_doubled t = spaced false t.
Proof.
  rewrite (rewrite_doubled_iter (adjacent_pairs t) t eq_refl).
  assert (Hiter : forall n,
            spaced false (Nat.iter n rewrite_pass t) = spaced false t).
  { induction n as [|n IH]; [reflexivity|].
    cbn [Nat.iter nat_rect]. rewrite spaced_pass. exact IH. }
  rewrite <- (Hiter (adjacent_pairs t)). symmetry.
  apply spaced_clean; [|discriminate].
  rewrite pairs_after_passes; lia.
Qed.

(** ** List splitting of plain text *)

Lemma onhead_nonempty (tk : string) (l : list string) : onhead tk l <> [].
Proof. destruct l; discriminate. Qed.

Lemma blank_if_empty_nonempty (f : string) : f <> "" -> blank_if_empty f = f.
Proof.
  intros H. unfold blank_if_empty. apply String.eqb_neq in H. rewrite H.
  reflexivity.
Qed.

Lemma scan_spaced (t : string) :
  forall tk,
    scan ";" tk (spaced (String.eqb tk "") (t +:+ " "))
    = map blank_if_empty (onhead tk (str_split ";" (t +:+ " "))).
Proof.
  induction t as [|c t IH]; intros tk.
  - change ("" +:+ " ") with " ". 
    replace (spaced (String.eqb tk "") " ") with " "
      by (destruct (String.eqb tk ""); reflexivity).
    cbn [scan str_split onhead char_in map].
    change (Ascii.eqb " " ";") with false. cbn [orb]. cbv iota.
    pose proof (append_str1_nonempty tk " ") as Hne.
    change (map blank_if_empty (onhead tk [" "]))
      with [blank_if_empty (tk +:+ str1 " ")].
    rewrite (blank_if_empty_nonempty _ Hne).
    apply String.eqb_neq in Hne. rewrite Hne. reflexivity.
  - rewrite append_cons. cbn [spaced str_split].
    unfold is_semicolon. rewrite Ascii.eqb_sym.
    destruct (Ascii.eqb c ";") eqn:Hc.
    + apply Ascii.eqb_eq in Hc. subst c.
      cbn [onhead map]. rewrite append_nil_r.
      specialize (IH ""). change (String.eqb "" "") with true in IH.
      assert (Hhead : onhead "" (str_split ";" (t +:+ " "))
                      = str_split ";" (t +:+ " ")).
      { pose proof (str_split_nonempty ";" (t +:+ " ")).
        destruct (str_split ";" (t +:+ " ")); [contradiction|reflexivity]. }
      rewrite Hhead in IH. rewrite <- IH. unfold blank_if_empty.
      destruct (String.eqb tk "") eqn:Htk.
      * apply String.eqb_eq in Htk. subst tk. reflexivity.
      * cbn [scan char_in]. change (Ascii.eqb ";" ";") with true.
        cbn [orb]. rewrite Htk. reflexivity.
    + cbn [scan char_in]. rewrite Hc. cbn [orb]. cbv iota.
      specialize (IH (tk +:+ str1 c)).
      pose proof (append_str1_nonempty tk c) as Hne.
      apply String.eqb_neq in Hne. rewrite Hne in IH. rewrite IH.
      pose proof (str_split_nonempty ";" (t +:+ " ")).
      destruct (str_split ";" (t +:+ " ")) as [|w fs]; [contradiction|].
      cbn [onhead]. rewrite <- append_assoc_str. reflexivity.
Qed.

Lemma all_chars_app (p : ascii -> bool) (a b : string) :
  all_chars p (a +:+ b) = all_chars p a && all_chars p b.
Proof.
  induction a as [|c a IH]; [reflexivity|].
  rewrite append_cons. cbn [all_chars]. rewrite IH, andb_assoc. reflexivity.
Qed.

Lemma all_chars_spaced (p : ascii -> bool) (t : string) :
  p " "%char = true ->
  all_chars p t = true ->
  forall after, all_chars p (spaced after t) = true.
Proof.
  intros Hblank. induction t as [|c t IH]; intros Ht after; [reflexivity|].
  cbn [all_chars] in Ht. apply andb_true_iff in Ht as [Hc Ht].
  cbn [spaced]. destruct (is_semicolon c); [destruct after|];
    cbn [all_chars]; rewrite ?Hblank, Hc, IH; auto.
Qed.

Lemma all_chars_weaken (p q : ascii -> bool) (s : string) :
  (forall c, p c = true -> q c = true) ->
  all_chars p s = true -> all_chars q s = true.
Proof.
  intros Hpq. induction s as [|c s IH]; [reflexivity|].
  cbn [all_chars]. intros [Hc Hs]%andb_true_iff.
  rewrite (Hpq c Hc), (IH Hs). reflexivity.
Qed.

Lemma str_split_all_chars (p : ascii -> bool) (sep : ascii) (s : string) :
  all_chars p s = true ->
  Forall (fun field => all_chars p field = true) (str_split sep s).
Proof.
  induction s as [|c s IH]; [repeat constructor|].
  cbn [all_chars str_split]. intros [Hc Hs]%andb_true_iff.
  specialize (IH Hs).
  destruct (Ascii.eqb c sep); [constructor; [reflexivity | exact IH]|].
  destruct (str_split sep s) as [|w fs].
  - repeat constructor. cbn [str1 all_chars]. rewrite Hc. reflexivity.
  - inversion IH as [|? ? Hw Hfs]; subst. constructor; [|exact Hfs].
    cbn [all_chars]. rewrite Hc, Hw. reflexivity.
Qed.

(** The elements of a list written without quotes and ['#']: the fields of
    the padded text between its semicolons, an empty one made a blank. *)
Lemma _split_list_plain (argument : Argument) (s : string) :
  s <> "" ->
  all_chars list_plain s = true ->
  _split_list argument s
  = Ok (map blank_if_empty (str_split ";" (" " +:+ s +:+ " "))).
Proof.
  intros Hne Hplain. unfold _split_list.
  apply String.eqb_neq in Hne. rewrite Hne. cbv zeta.
  rewrite rewrite_doubled_spaced.
  set (P := spaced false (" " +:+ s +:+ " ")).
  set (lex := set_whitespace ";"
                (set_whitespace_split true (shlex_init P false))).
  change lex with (lexer false "#" (wordchars lex) ";"
                     (String "'" (str1 (chr 34))) "\" (str1 (chr 34))
                     P (Some " "%char) 1 "").
  rewrite (shlex_list_plain false "#" (wordchars lex) ";"
             (String "'" (str1 (chr 34))) "\" (str1 (chr 34))
             eq_refl eq_refl _ P (Some " "%char) 1).
  - f_equal. subst P.
    transitivity (scan ";" " " (spaced (String.eqb " " "") (s +:+ " ")));
      [reflexivity|].
    rewrite scan_spaced.
    change (" " +:+ s +:+ " ") with (String " " (s +:+ " ")).
    cbn [str_split]. change (Ascii.eqb " " ";") with false. cbv iota.
    destruct (str_split ";" (s +:+ " ")); reflexivity.
  - apply all_chars_spaced; [reflexivity|].
    change (" " +:+ s +:+ " ") with (String " " (s +:+ " ")).
    cbn [all_chars]. rewrite all_chars_app.
    rewrite (all_chars_weaken list_plain _ s); [reflexivity| |exact Hplain].
    intros c. unfold list_plain, plain_char, str1, dquote.
    cbn [char_in andb negb orb].
    destruct (Ascii.eqb c "#"), (Ascii.eqb c "'"), (Ascii.eqb c (chr 34));
      cbn; congruence.
  - left. reflexivity.
  - unfold list_budget, lexer. shlex_fields. cbn [List.length]. lia.
Qed.

(** ** Words and padding *)

Lemma scan_pad_r (ws : string) (f : string) :
  char_in " " ws = true ->
  forall tk, scan ws tk (f +:+ " ") = scan ws tk f.
Proof.
  intros Hblank. induction f as [|c f IH]; intros tk.
  - change ("" +:+ " ") with " ". cbn [scan]. rewrite Hblank.
    destruct (String.eqb tk ""); reflexivity.
  - rewrite append_cons. cbn [scan]. rewrite !IH. reflexivity.
Qed.

Lemma words_pad_r (f : string) : words (f +:+ " ") = words f.
Proof. apply scan_pad_r. reflexivity. Qed.

Lemma words_pad_l (f : string) : words (" " +:+ f) = words f.
Proof. reflexivity. Qed.

Lemma words_blank_if_empty (f : string) : words (blank_if_empty f) = words f.
Proof.
  unfold blank_if_empty. destruct (String.eqb f "") eqn:Hf; [|reflexivity].
  apply String.eqb_eq in Hf. subst f. reflexivity.
Qed.

Lemma str_split_pad_r (s : string) :
  str_split ";" (s +:+ " ") = pad_last (str_split ";" s).
Proof.
  induction s as [|c s IH]; [reflexivity|].
  rewrite append_cons. cbn [str_split]. rewrite IH.
  pose proof (str_split_nonempty ";" s) as Hne.
  destruct (str_split ";" s) as [|w [|w' fs]]; [contradiction| |];
    destruct (Ascii.eqb c ";"); reflexivity.
Qed.

Lemma map_words_pad_last (fields : list string) :
  map words (pad_last fields) = map words fields.
Proof.
  induction fields as [|w [|w' fs] IH]; [reflexivity| |].
  - cbn [pad_last map]. rewrite words_pad_r. reflexivity.
  - change (pad_last (w :: w' :: fs)) with (w :: pad_last (w' :: fs)).
    cbn [map] in IH |- *. rewrite IH. reflexivity.
Qed.

(** The padding and the blanks of the rewrite loop change no word. *)
Lemma padded_fields_words (s : string) :
  map words (map blank_if_empty (str_split ";" (" " +:+ s +:+ " ")))
  = map words (str_split ";" s).
Proof.
  rewrite map_map.
  rewrite (map_ext _ words words_blank_if_empty).
  change (" " +:+ s +:+ " ") with (String " " (s +:+ " ")).
  cbn [str_split]. change (Ascii.eqb " " ";") with false. cbv iota.
  rewrite str_split_pad_r, <- (map_words_pad_last (str_split ";" s)).
  pose proof (str_split_nonempty ";" s) as Hne.
  destruct (pad_last (str_split ";" s)) as [|w fs] eqn:Hpad.
  - destruct (str_split ";" s) as [|w [|w' fs]]; [contradiction| |];
      discriminate.
  - reflexivity.
Qed.

Lemma padded_fields_plain (p : ascii -> bool) (s : string) :
  p " "%char = true ->
  all_chars p s = true ->
  Forall (fun field => all_chars p field = true)
         (map blank_if_empty (str_split ";" (" " +:+ s +:+ " "))).
Proof.
  intros Hblank Hs. apply Forall_map.
  assert (Hpad : all_chars p (" " +:+ s +:+ " ") = true).
  { change (" " +:+ s +:+ " ") with (String " " (s +:+ " ")).
    cbn [all_chars]. rewrite all_chars_app, Hblank, Hs. cbn [all_chars].
    rewrite Hblank. reflexivity. }
  eapply Forall_impl; [exact (str_split_all_chars p ";" _ Hpad)|].
  intros f Hf. cbn beta. unfold blank_if_empty.
  destruct (String.eqb f ""); [|exact Hf].
  cbn [all_chars]. rewrite Hblank. reflexivity.
Qed.

Lemma item_plain_list (c : ascii) : item_plain c = true -> list_plain c = true.
Proof.
  unfold item_plain, list_plain, str1, dquote. cbn [char_in negb orb].
  destruct (Ascii.eqb c "#"), (Ascii.eqb c "'"), (Ascii.eqb c (chr 34));
    cbn; congruence.
Qed.

Lemma item_plain_shell (c : ascii) :
  item_plain c = true -> shell_plain c = true.
Proof.
  unfold item_plain, shell_plain, str1, dquote. cbn [char_in negb orb].
  destruct (Ascii.eqb c "#"), (Ascii.eqb c "'"), (Ascii.eqb c (chr 34)),
    (Ascii.eqb c "\"); cbn; congruence.
Qed.

Lemma mapE_map {A B} (f : A -> Exc B) (g : A -> B) (l : list A) :
  Forall (fun x => f x = Ok (g x)) l -> mapE f l = Ok (map g l).
Proof.
  induction 1 as [|x l Hx _ IH]; [reflexivity|].
  cbn [mapE map]. rewrite Hx. cbn [bindE]. rewrite IH. reflexivity.
Qed.

Lemma _parse_list_map (argument : Argument) (s : string) :
  _parse_list argument s =
  let* values := _split_list argument s in mapE first_shell_token values.
Proof.
  unfold _parse_list.
  destruct (_split_list argument s) as [values|e]; [|reflexivity].
  cbn [bindE]. rewrite _parse_list_loop_map.
  destruct (mapE first_shell_token values); reflexivity.
Qed.

Lemma first_shell_token_plain (f : string) :
  all_chars shell_plain f = true ->
  first_shell_token f = Ok (first_of (words f)).
Proof.
  intros Hf. unfold first_shell_token. rewrite (shlex_split_plain f Hf).
  reflexivity.
Qed.

Lemma _parse_list_plain (argument : Argument) (s : string) :
  all_chars item_plain s = true ->
  _parse_list argument s = Ok (map first_word (str_split ";" s)).
Proof.
  intros Hs. rewrite _parse_list_map.
  destruct (String.eqb s "") eqn:Hempty.
  - apply String.eqb_eq in Hempty. subst s. reflexivity.
  - apply String.eqb_neq in Hempty.
    rewrite (_split_list_plain argument s Hempty
               (all_chars_weaken _ _ s item_plain_list Hs)).
    cbn [bindE].
    rewrite (mapE_map _ first_word).
    + f_equal. unfold first_word.
      rewrite <- (map_map words first_of), padded_fields_words.
      rewrite map_map. reflexivity.
    + eapply Forall_impl;
        [exact (padded_fields_plain shell_plain s eq_refl
                  (all_chars_weaken _ _ s item_plain_shell Hs))|].
      intros f Hf. exact (first_shell_token_plain f Hf).
Qed.

(** ** Tuple splitting of plain text *)

Lemma _parse_list_of_tuples_snd (argument : Argument) (s : string) :
  snd (_parse_list_of_tuples argument s) =
  let* values := _split_list argument s in
  mapE (_parse_tuple argument) values.
Proof.
  unfold _parse_list_of_tuples.
  destruct (_split_list argument s) as [values|e]; [|reflexivity].
  cbn [liftO bindO bindE].
  pose proof (_parse_list_of_tuples_loop_map argument values []) as Hloop.
  destruct (_parse_list_of_tuples_loop argument values []) as [out r].
  cbn [snd] in Hloop |- *. rewrite Hloop.
  destruct (mapE (_parse_tuple argument) values); reflexivity.
Qed.

Lemma _parse_tuple_plain (argument : Argument) (types : list string)
    (s : string) :
  tuple_types argument = Some types ->
  all_chars shell_plain s = true ->
  _parse_tuple argument s =
  if fits (List.length types) (words s) then Ok (tuple_of (words s))
  else Raise (RuntimeError
                (arity_message (name argument) (List.length types)
                               (List.length (words s)) s)).
Proof.
  intros Htypes Hs. unfold _parse_tuple, len_tuple_types.
  rewrite (shlex_split_plain s Hs), Htypes. fold (words s). cbn [bindE].
  destruct (words s) as [|w ws]; [reflexivity|].
  change (List.length (w :: ws) =? 0)%nat with false. cbv iota.
  cbn [fits tuple_of].
  destruct (List.length (w :: ws) =? List.length types)%nat; reflexivity.
Qed.

Lemma mapE_parse_tuple_plain (argument : Argument) (types : list string)
    (values : list string) :
  tuple_types argument = Some types ->
  Forall (fun value => all_chars shell_plain value = true) values ->
  (forallb (fits (List.length types)) (map words values) = true
   /\ mapE (_parse_tuple argument) values
      = Ok (map tuple_of (map words values)))
  \/ (forallb (fits (List.length types)) (map words values) = false
      /\ exists value,
           In value values
           /\ words value <> []
           /\ List.length (words value) <> List.length types
           /\ mapE (_parse_tuple argument) values
              = Raise (RuntimeError
                         (arity_message (name argument) (List.length types)
                            (List.length (words value)) value))).
Proof.
  intros Htypes. induction 1 as [|value values Hvalue _ IH].
  - left. split; reflexivity.
  - cbn [map forallb mapE].
    rewrite (_parse_tuple_plain argument types value Htypes Hvalue).
    destruct (fits (List.length types) (words value)) eqn:Hfits.
    + cbn [andb bindE].
      destruct IH as [[Hall ->] | (Hall & v & Hin & Hne & Hlen & ->)].
      * left. split; [exact Hall | reflexivity].
      * right. split; [exact Hall|]. exists v.
        split; [right; exact Hin|]. auto.
    + right. split; [reflexivity|]. exists value.
      split; [left; reflexivity|].
      destruct (words value) as [|w ws]; [discriminate|].
      split; [discriminate|]. split; [|reflexivity].
      cbn [fits] in Hfits. apply Nat.eqb_neq in Hfits. exact Hfits.
Qed.

(** The elements of list splitting carry the words of the fields of the raw
    text. *)
Lemma _split_list_words (argument : Argument) (s : string) :
  all_chars item_plain s = true ->
  exists values,
    _split_list argument s = Ok values
    /\ Forall (fun value => all_chars shell_plain value = true) values
    /\ map words values = map words (str_split ";" s).
Proof.
  intros Hs. destruct (String.eqb s "") eqn:Hempty.
  - apply String.eqb_eq in Hempty. subst s. exists [""].
    split; [reflexivity|]. split; [repeat constructor | reflexivity].
  - apply String.eqb_neq in Hempty. eexists.
    split; [exact (_split_list_plain argument s Hempty
                     (all_chars_weaken _ _ s item_plain_list Hs))|].
    split; [|apply padded_fields_words].
    exact (padded_fields_plain shell_plain s eq_refl
             (all_chars_weaken _ _ s item_plain_shell Hs)).
Qed.

Lemma scan_shape (ws : string) (text : string) :
  forall tk,
    all_chars (fun c => negb (char_in c ws)) tk = true ->
    Forall (fun w => w <> ""
                     /\ all_chars (fun c => negb (char_in c ws)) w = true)
           (scan ws tk text).
Proof.
  induction text as [|c text IH]; intros tk Htk; cbn [scan].
  - destruct (String.eqb tk "") eqn:Hempty; constructor; [|constructor].
    apply String.eqb_neq in Hempty. auto.
  - destruct (char_in c ws) eqn:Hc.
    + destruct (String.eqb tk "") eqn:Hempty.
      * apply IH. reflexivity.
      * apply String.eqb_neq in Hempty. constructor; [auto|].
        apply IH. reflexivity.
    + apply IH. rewrite all_chars_app, Htk. cbn [str1 all_chars].
      rewrite Hc. reflexivity.
Qed.

Lemma words_shape (text : string) :
  Forall (fun w => w <> "" /\ no_blank w = true) (words text).
Proof. apply scan_shape. reflexivity. Qed.

Lemma str_split_count (s : string) :
  List.length (str_split ";" s) = S (count_semicolons s).
Proof.
  induction s as [|c s IH]; [reflexivity|].
  cbn [str_split count_semicolons]. unfold is_semicolon.
  rewrite (Ascii.eqb_sym ";" c).
  pose proof (str_split_nonempty ";" s) as Hne.
  destruct (Ascii.eqb c ";"); cbv iota; cbn [List.length]; [lia|].
  destruct (str_split ";" s) as [|w fs]; [contradiction|].
  cbn [List.length] in IH |- *. lia.
Qed.

Lemma count_semicolons_app (a b : string) :
  count_semicolons (a +:+ b) = count_semicolons a + count_semicolons b.
Proof.
  induction a as [|c a IH]; [reflexivity|].
  rewrite append_cons. cbn [count_semicolons]. rewrite IH. lia.
Qed.

Lemma spaced_length (t : string) :
  forall after,
    String.length (spaced after t)
    = String.length t + adjacent_pairs t
      + (if after && startswith ";" t then 1 else 0).
Proof.
  induction t as [|c t IH]; intros after;
    [destruct after; reflexivity|].
  assert (Hpairs : adjacent_pairs (String c t)
                   = (if is_semicolon c && startswith ";" t then 1 else 0)
                     + adjacent_pairs t).
  { destruct t as [|b t].
    - rewrite andb_false_r. reflexivity.
    - rewrite adjacent_pairs_cons2. cbn [startswith]. rewrite andb_true_r.
      reflexivity. }
  assert (Hhead : startswith ";" (String c t) = is_semicolon c)
    by (unfold is_semicolon; cbn [startswith]; apply andb_true_r).
  rewrite Hpairs, Hhead. clear Hpairs Hhead.
  set (k := startswith ";" t) in *. cbn [spaced].
  destruct (is_semicolon c), after; cbn [String.length andb];
    rewrite IH; cbn [andb]; destruct k; lia.
Qed.

Lemma spaced_count (t : string) :
  forall after, count_semicolons (spaced after t) = count_semicolons t.
Proof.
  induction t as [|c t IH]; intros after; [reflexivity|].
  cbn [spaced]. destruct (is_semicolon c) eqn:Hc; [destruct after|];
    cbn [count_semicolons]; rewrite ?Hc, IH;
    change (is_semicolon " ") with false; reflexivity.
Qed.

(** ** What the splitting functions return on plain text *)

(** X8: on a raw text that holds no quote and no backslash, tuple
    splitting reads the words between the blanks (space, tab, carriage
    return, newline), each of them non-empty and free of blanks: a text
    without any word gives the one-element list of the empty string, a text
    with as many words as the argument declares kinds gives its words, and
    any other number of words raises the arity error with the counts and
    the raw text. *)
Theorem tuple_items_are_words (argument : Argument) (s : string) :
  all_chars shell_plain s = true ->
  Forall (fun w => w <> "" /\ no_blank w = true) (words s)
  /\ _parse_tuple argument s =
     match words s with
     | [] => Ok [""]
     | ws =>
         let* expected_number := len_tuple_types argument in
         if (List.length ws =? expected_number)%nat then Ok ws
         else Raise (RuntimeError
                       (arity_message (name argument) expected_number
                                      (List.length ws) s))
     end.
Proof.
  intros Hs. split; [apply words_shape|].
  unfold _parse_tuple. rewrite (shlex_split_plain s Hs). fold (words s).
  cbn [bindE]. destruct (words s) as [|w ws]; [reflexivity|].
  change (List.length (w :: ws) =? 0)%nat with false. cbv iota.
  destruct (len_tuple_types argument) as [n|e]; [|reflexivity].
  cbn [bindE]. destruct (List.length (w :: ws) =? n)%nat; reflexivity.
Qed.

(** Two words, blanks of several kinds around them. *)
Lemma tuple_items_are_words_witness :
  _parse_tuple pair_arg (" 5 " +:+ str1 (chr 9) +:+ "hello ")
  = Ok ["5"; "hello"].
Proof.
  exact (proj2 (tuple_items_are_words pair_arg
                  (" 5 " +:+ str1 (chr 9) +:+ "hello ") eq_refl)).
Defined.

(** X9: list splitting of a non-empty raw text that holds no quote and no
    ['#'] returns one element for each field between the semicolons of the
    text padded with a blank on either side, an empty field being returned
    as a single blank: the list has one element more than the text has
    semicolons, no element is empty and none holds a semicolon. *)
Theorem list_split_keeps_every_field (argument : Argument) (s : string) :
  s <> "" ->
  all_chars list_plain s = true ->
  exists values,
    _split_list argument s = Ok values
    /\ values = map blank_if_empty (str_split ";" (" " +:+ s +:+ " "))
    /\ List.length values = S (count_semicolons s)
    /\ Forall (fun value => value <> ""
                 /\ all_chars (fun c => negb (is_semicolon c)) value = true)
              values.
Proof.
  intros Hne Hs. eexists. split; [exact (_split_list_plain _ s Hne Hs)|].
  split; [reflexivity|]. split.
  - rewrite length_map, str_split_count, !count_semicolons_app.
    cbn [count_semicolons]. change (is_semicolon " ") with false.
    cbv iota. lia.
  - apply Forall_map. generalize (" " +:+ s +:+ " "). clear. intros t.
    induction t as [|c t IH]; [repeat constructor; discriminate|].
    cbn [str_split].
    destruct (Ascii.eqb c ";") eqn:Hc.
    + constructor; [|exact IH]. split; [discriminate | reflexivity].
    + pose proof (str_split_nonempty ";" t) as Hne.
      destruct (str_split ";" t) as [|w fs]; [contradiction|].
      inversion IH as [|? ? [_ Hw] Hfs]; subst.
      constructor; [|exact Hfs]. cbn beta.
      unfold blank_if_empty in *.
      change (String.eqb (String c w) "") with false. cbv iota.
      split; [discriminate|]. cbn [all_chars]. unfold is_semicolon.
      rewrite Ascii.eqb_sym, Hc. cbn [negb andb].
      destruct (String.eqb w "") eqn:Hw'; [|exact Hw].
      apply String.eqb_eq in Hw'. subst w. reflexivity.
Qed.

(** Three semicolons, four elements. *)
Lemma list_split_keeps_every_field_witness :
  _split_list names_arg "a;;b;" = Ok [" a"; " "; "b"; " "].
Proof.
  destruct (list_split_keeps_every_field names_arg "a;;b;"
              ltac:(apply String.eqb_neq; reflexivity) eq_refl)
    as (values & Hsplit & -> & _).
  exact Hsplit.
Defined.

(** X10: on a raw text that holds no quote, no backslash and no ['#'],
    [_parse_list] returns, for each field that [str.split(';')] finds in
    the text, the first word of the field, or the empty string for a field
    without words; the splitting pass stores that list under the name of a
    list-shaped argument that is not tuple-shaped. *)
Theorem list_items_are_first_words (argument : Argument) (s : string) :
  all_chars item_plain s = true ->
  _parse_list argument s = Ok (map first_word (str_split ";" s))
  /\ forall values,
       is_list argument = true -> is_tuple argument = false ->
       values !! name argument = Some (VStr s) ->
       snd (_calculate_lists_and_tuples_body values argument)
       = Ok (<[name argument := strs (map first_word (str_split ";" s))]>
               values).
Proof.
  intros Hs. split; [exact (_parse_list_plain argument s Hs)|].
  intros values Hlist Htuple Hvalue.
  rewrite (_calculate_lists_and_tuples_body_list values argument s
             Hlist Htuple Hvalue).
  rewrite (_parse_list_plain argument s Hs). reflexivity.
Qed.

(** Second words are dropped, empty fields are kept. *)
Lemma list_items_are_first_words_witness :
  _parse_list names_arg "a b;;c;" = Ok ["a"; ""; "c"; ""].
Proof.
  exact (proj1 (list_items_are_first_words names_arg "a b;;c;" eq_refl)).
Defined.

(** X11: on a raw text that holds no quote, no backslash and no ['#'],
    [_parse_list_of_tuples] looks at the words of each field that
    [str.split(';')] finds in the text.  When every field has no word or as
    many words as the argument declares kinds, the result is the list of
    the words of each field, a field without words giving the one-element
    list of the empty string; otherwise the call raises the arity error of
    a field with another number of words. *)
Theorem list_of_tuples_are_words (argument : Argument)
    (types : list string) (s : string) :
  tuple_types argument = Some types ->
  all_chars item_plain s = true ->
  let fields := map words (str_split ";" s) in
  (forallb (fits (List.length types)) fields = true ->
   snd (_parse_list_of_tuples argument s) = Ok (map tuple_of fields))
  /\ (forallb (fits (List.length types)) fields = false ->
      exists value,
        In (words value) fields
        /\ words value <> []
        /\ List.length (words value) <> List.length types
        /\ snd (_parse_list_of_tuples argument s)
           = Raise (RuntimeError
                      (arity_message (name argument) (List.length types)
                         (List.length (words value)) value))).
Proof.
  intros Htypes Hs fields. subst fields.
  rewrite _parse_list_of_tuples_snd.
  destruct (_split_list_words argument s Hs) as (values & -> & Hplain & Hw).
  cbn [bindE]. rewrite <- Hw.
  destruct (mapE_parse_tuple_plain argument types values Htypes Hplain)
    as [[Hall ->] | (Hall & v & Hin & Hne & Hlen & ->)]; rewrite Hall.
  - split; [reflexivity | discriminate].
  - split; [discriminate|]. intros _. exists v.
    split; [apply in_map; exact Hin|]. auto.
Qed.

(** Two pairs with an empty field between them. *)
Lemma list_of_tuples_are_words_witness :
  snd (_parse_list_of_tuples
         (__post_init__ "pairs" "list[tuple[int,int]]" "" "--pairs" None None)
         "1 2;;3 4")
  = Ok [["1"; "2"]; [""]; ["3"; "4"]].
Proof.
  exact (proj1 (list_of_tuples_are_words
                  (__post_init__ "pairs" "list[tuple[int,int]]" ""
                                 "--pairs" None None)
                  ["int"; "int"] "1 2;;3 4" eq_refl eq_refl) eq_refl).
Defined.

(** X12: the rewrite loop of [_split_list] ends with the text in which one
    blank stands between every two semicolons that stood side by side: the
    text grows by one character for each such place, keeps its semicolons,
    and a second run of the loop changes nothing. *)
Theorem rewrite_loop_spaces_semicolons (s : string) :
  rewrite_doubled s = spaced false s
  /\ String.length (rewrite_doubled s) = String.length s + adjacent_pairs s
  /\ count_semicolons (rewrite_doubled s) = count_semicolons s
  /\ rewrite_doubled (rewrite_doubled s) = rewrite_doubled s.
Proof.
  split; [apply rewrite_doubled_spaced|]. split; [|split].
  - rewrite rewrite_doubled_spaced, spaced_length. cbn [andb]. lia.
  - rewrite rewrite_doubled_spaced. apply spaced_count.
  - rewrite (rewrite_doubled_eq (rewrite_doubled s)), rewrite_doubled_clean.
    reflexivity.
Qed.

(** ** A run, seen from one argument *)

(** In a run that returns over definitions with distinct names, the
    splitting pass of an argument finds the value of the fallback chain
    under its name, the conversion pass finds what the splitting pass left
    there, and the run ends with what the conversion pass left there. *)
Lemma run_own_slot (definitions : list arg_def)
    (cli_values : gmap string value) (environ : gmap string string)
    (final : gmap string value) (argument : Argument) (cli : value) :
  NoDup (map def_name definitions) ->
  snd (ArgumentsParser_init definitions cli_values environ) = Ok final ->
  argument ∈ arguments_of definitions ->
  cli_values !! name argument = Some cli ->
  exists split_before split_after convert_before convert_after,
    splitting_body split_before argument = Ok split_after
    /\ split_before !! name argument
       = Some (fallback_chain cli (env_value environ argument)
                              (default_value argument))
    /\ _convert_values_body convert_before argument = Ok convert_after
    /\ convert_before !! name argument = split_after !! name argument
    /\ final !! name argument = convert_after !! name argument.
Proof.
  intros Hnodup Hrun Hin Hcli.
  rewrite <- arguments_of_names in Hnodup.
  rewrite ArgumentsParser_init_stages in Hrun.
  apply bindE_Ok in Hrun as (v1 & Hfall & Hrun).
  apply bindE_Ok in Hrun as (v2 & Hsplit & Hconv).
  destruct (for_arguments_own _ (_fallback_values_body_local environ)
              _ _ _ argument Hnodup Hfall Hin)
    as (b1 & a1 & Hbody1 & Hb1 & Hv1).
  rewrite Hcli in Hb1.
  rewrite (_fallback_values_body_chain environ b1 argument cli Hb1)
    in Hbody1.
  injection Hbody1 as <-. rewrite lookup_insert_eq in Hv1.
  destruct (for_arguments_own _ splitting_body_local
              _ _ _ argument Hnodup Hsplit Hin)
    as (b2 & a2 & Hbody2 & Hb2 & Hv2).
  destruct (for_arguments_own _ _convert_values_body_local
              _ _ _ argument Hnodup Hconv Hin)
    as (b3 & a3 & Hbody3 & Hb3 & Hv3).
  exists b2, a2, b3, a3.
  split; [exact Hbody2|]. split; [congruence|].
  split; [exact Hbody3|]. split; [congruence | exact Hv3].
Qed.

Lemma _calculate_lists_and_tuples_body_tuple (values : gmap string value)
    (argument : Argument) (s : string) :
  is_list argument = false -> is_tuple argument = true ->
  values !! name argument = Some (VStr s) ->
  snd (_calculate_lists_and_tuples_body values argument) =
  let* r := _parse_tuple argument s in
  Ok (<[name argument := strs r]> values).
Proof.
  intros Hlist Htuple Hvalue.
  unfold _calculate_lists_and_tuples_body, getitem. rewrite Hvalue.
  rewrite bindO_snd. cbn [liftO snd bindE]. rewrite Hlist, Htuple.
  cbn [negb andb]. rewrite bindO_snd. reflexivity.
Qed.

(** The conversion pass on a list that is not empty. *)
Lemma _convert_values_body_list (values after : gmap string value)
    (argument : Argument) (x : value) (items : list value) :
  is_list argument = true -> is_tuple argument = false ->
  values !! name argument = Some (VList (x :: items)) ->
  _convert_values_body values argument = Ok after ->
  exists inner conv r,
    list_type argument = Some inner
    /\ TYPES_MAPPING_getitem inner = Ok conv
    /\ mapE conv (x :: items) = Ok r
    /\ after = <[name argument := VList r]> values.
Proof.
  intros Hlist Htuple Hvalue. unfold _convert_values_body, getitem.
  rewrite Hvalue. cbn [bindE is_None py_iter]. rewrite Hlist, Htuple.
  cbn [negb andb]. intros Hrun.
  apply bindE_Ok in Hrun as (r & Hr & [= <-]).
  unfold list_converter in Hr.
  destruct (list_type argument) as [inner|]; [|discriminate].
  destruct (TYPES_MAPPING_getitem inner) as [conv|e] eqn:Hconv;
    [|discriminate].
  exists inner, conv, r. split; [reflexivity|]. split; [exact Hconv|].
  split; [exact Hr | reflexivity].
Qed.

Lemma _convert_values_body_tuple (values after : gmap string value)
    (argument : Argument) (types : list string) (items : list value) :
  is_list argument = false -> is_tuple argument = true ->
  tuple_types argument = Some types ->
  values !! name argument = Some (VList items) ->
  _convert_values_body values argument = Ok after ->
  exists converters r,
    mapE TYPES_MAPPING_getitem types = Ok converters
    /\ zip_convert converters items = Ok r
    /\ after = <[name argument := VList r]> values.
Proof.
  intros Hlist Htuple Htypes Hvalue.
  unfold _convert_values_body, getitem, tuple_converters.
  rewrite Hvalue. cbn [bindE is_None]. rewrite Hlist, Htuple, Htypes.
  cbn [negb andb]. intros Hrun.
  apply bindE_Ok in Hrun as (converters & Hconv & Hrun).
  cbn [py_iter bindE] in Hrun.
  apply bindE_Ok in Hrun as (r & Hr & [= <-]).
  exists converters, r. auto.
Qed.

Lemma _convert_values_body_scalar (values after : gmap string value)
    (argument : Argument) (v : value) :
  is_list argument = false -> is_tuple argument = false ->
  values !! name argument = Some v ->
  _convert_values_body values argument = Ok after ->
  (v = VNone /\ after = values)
  \/ (v <> VNone
      /\ exists conv r,
           TYPES_MAPPING_getitem (type argument) = Ok conv
           /\ conv v = Ok r
           /\ after = <[name argument := r]> values).
Proof.
  intros Hlist Htuple Hvalue. unfold _convert_values_body, getitem.
  rewrite Hvalue. cbn [bindE]. rewrite Hlist, Htuple. cbn [negb andb].
  destruct (is_None v) eqn:Hnone.
  - destruct v; try discriminate. intros [= <-]. left. auto.
  - intros Hrun. right. split; [intros ->; discriminate|].
    apply bindE_Ok in Hrun as (conv & Hconv & Hrun).
    apply bindE_Ok in Hrun as (r & Hr & [= <-]).
    exists conv, r. auto.
Qed.

(** X13: in a run that returns, over definitions with distinct names, a
    list-shaped argument that is not tuple-shaped and whose fallback chain
    (CLI value, else environment value, else default) ends with a raw text
    without quote, backslash and ['#'] resolves to the list of the first
    words of the fields that [str.split(';')] finds in the text, each
    converted by the converter of the inner kind, which is then a key of
    [TYPES_MAPPING]. *)
Theorem list_argument_resolves (definitions : list arg_def)
    (cli_values : gmap string value) (environ : gmap string string)
    (final : gmap string value) (argument : Argument) (cli : value)
    (s : string) :
  NoDup (map def_name definitions) ->
  snd (ArgumentsParser_init definitions cli_values environ) = Ok final ->
  argument ∈ arguments_of definitions ->
  is_list argument = true -> is_tuple argument = false ->
  cli_values !! name argument = Some cli ->
  fallback_chain cli (env_value environ argument) (default_value argument)
  = VStr s ->
  all_chars item_plain s = true ->
  exists inner conv r,
    list_type argument = Some inner
    /\ TYPES_MAPPING_getitem inner = Ok conv
    /\ mapE conv (map VStr (map first_word (str_split ";" s))) = Ok r
    /\ final !! name argument = Some (VList r).
Proof.
  intros Hnodup Hrun Hin Hlist Htuple Hcli Hchain Hs.
  destruct (run_own_slot _ _ _ _ _ _ Hnodup Hrun Hin Hcli)
    as (b2 & a2 & b3 & a3 & Hsplit & Hb2 & Hconv & Hb3 & Hfinal).
  rewrite Hchain in Hb2. unfold splitting_body in Hsplit.
  rewrite (_calculate_lists_and_tuples_body_list b2 argument s
             Hlist Htuple Hb2), (_parse_list_plain argument s Hs) in Hsplit.
  injection Hsplit as <-. rewrite lookup_insert_eq in Hb3.
  unfold strs in Hb3.
  pose proof (str_split_nonempty ";" s) as Hne.
  destruct (str_split ";" s) as [|f fs]; [contradiction|].
  cbn [map] in Hb3 |- *.
  destruct (_convert_values_body_list b3 a3 argument _ _ Hlist Htuple
              Hb3 Hconv) as (inner & conv & r & Hinner & Hc & Hr & ->).
  exists inner, conv, r. rewrite lookup_insert_eq in Hfinal. auto.
Qed.

(** Three ports from the default of a [list[int]] argument. *)
Lemma list_argument_resolves_witness :
  match snd (ArgumentsParser_init
               [mk_arg_def "ports" "list[int]" "ports to open" "--ports"
                  None (Some "80;443 tcp;8080")]
               (absent "ports") ∅) with
  | Ok final => final !! "ports" = Some (VList [VInt 80; VInt 443; VInt 8080])
  | Raise _ => False
  end.
Proof.
  destruct (snd (ArgumentsParser_init
                   [mk_arg_def "ports" "list[int]" "ports to open" "--ports"
                      None (Some "80;443 tcp;8080")]
                   (absent "ports") ∅)) as [final|e] eqn:Hrun.
  - destruct (list_argument_resolves
                [mk_arg_def "ports" "list[int]" "ports to open" "--ports"
                   None (Some "80;443 tcp;8080")]
                (absent "ports") ∅ final
                (__post_init__ "ports" "list[int]" "ports to open" "--ports"
                   None (Some "80;443 tcp;8080"))
                VNone "80;443 tcp;8080"
                (NoDup_singleton _) Hrun
                ltac:(apply list_elem_of_singleton; reflexivity)
                eq_refl eq_refl eq_refl eq_refl eq_refl)
      as (inner & conv & r & Hinner & Hconv & Hr & Hfinal).
    injection Hinner as <-. injection Hconv as <-.
    injection Hr as <-. exact Hfinal.
  - vm_compute in Hrun. discriminate.
Defined.

(** X14: in a run that returns, over definitions with distinct names, a
    tuple-shaped argument that is not list-shaped and whose fallback chain
    ends with a raw text without quote and backslash has a text with no
    word or with as many words as it declares kinds, and resolves to the
    list of its words converted position by position by the converters of
    the declared kinds, all of them keys of [TYPES_MAPPING]; for a text
    without words that is the empty string converted by the first kind. *)
Theorem tuple_argument_resolves (definitions : list arg_def)
    (cli_values : gmap string value) (environ : gmap string string)
    (final : gmap string value) (argument : Argument) (cli : value)
    (s : string) :
  NoDup (map def_name definitions) ->
  snd (ArgumentsParser_init definitions cli_values environ) = Ok final ->
  argument ∈ arguments_of definitions ->
  is_list argument = false -> is_tuple argument = true ->
  cli_values !! name argument = Some cli ->
  fallback_chain cli (env_value environ argument) (default_value argument)
  = VStr s ->
  all_chars shell_plain s = true ->
  exists types converters r,
    tuple_types argument = Some types
    /\ fits (List.length types) (words s) = true
    /\ mapE TYPES_MAPPING_getitem types = Ok converters
    /\ zip_convert converters (map VStr (tuple_of (words s))) = Ok r
    /\ final !! name argument = Some (VList r).
Proof.
  intros Hnodup Hrun Hin Hlist Htuple Hcli Hchain Hs.
  destruct (run_own_slot _ _ _ _ _ _ Hnodup Hrun Hin Hcli)
    as (b2 & a2 & b3 & a3 & Hsplit & Hb2 & Hconv & Hb3 & Hfinal).
  assert (Htypes : exists types, tuple_types argument = Some types).
  { unfold arguments_of in Hin. apply list_elem_of_fmap in Hin as (d & -> & _).
    destruct (__post_init___tuple _ _ _ _ _ _ Htuple) as (types & Ht & _).
    eauto. }
  destruct Htypes as (types & Htypes).
  rewrite Hchain in Hb2. unfold splitting_body in Hsplit.
  rewrite (_calculate_lists_and_tuples_body_tuple b2 argument s
             Hlist Htuple Hb2),
          (_parse_tuple_plain argument types s Htypes Hs) in Hsplit.
  destruct (fits (List.length types) (words s)) eqn:Hfits; [|discriminate].
  injection Hsplit as <-. rewrite lookup_insert_eq in Hb3.
  destruct (_convert_values_body_tuple b3 a3 argument types _ Hlist Htuple
              Htypes Hb3 Hconv) as (converters & r & Hc & Hr & ->).
  exists types, converters, r. rewrite lookup_insert_eq in Hfinal. auto.
Qed.

(** An int and a str from the default of a [tuple[int,str]] argument. *)
Lemma tuple_argument_resolves_witness :
  match snd (ArgumentsParser_init [pair_def (Some "5  hello")]
               (absent "pair") ∅) with
  | Ok final => final !! "pair" = Some (VList [VInt 5; VStr "hello"])
  | Raise _ => False
  end.
Proof.
  destruct (snd (ArgumentsParser_init [pair_def (Some "5  hello")]
                   (absent "pair") ∅)) as [final|e] eqn:Hrun.
  - destruct (tuple_argument_resolves [pair_def (Some "5  hello")]
                (absent "pair") ∅ final
                (__post_init__ "pair" "tuple[int,str]" "an int and a str"
                   "--pair" None (Some "5  hello"))
                VNone "5  hello"
                (NoDup_singleton _) Hrun
                ltac:(apply list_elem_of_singleton; reflexivity)
                eq_refl eq_refl eq_refl eq_refl eq_refl)
      as (types & converters & r & Htypes & _ & Hconv & Hr & Hfinal).
    injection Htypes as <-. injection Hconv as <-.
    injection Hr as <-. exact Hfinal.
  - vm_compute in Hrun. discriminate.
Defined.

(** X15: in a run that returns, over definitions with distinct names, an
    argument that is neither list- nor tuple-shaped resolves to [None] when
    its fallback chain ends with [None]; otherwise its type is a key of
    [TYPES_MAPPING] and it resolves to what that converter returns on the
    value of the chain. *)
Theorem scalar_argument_resolves (definitions : list arg_def)
    (cli_values : gmap string value) (environ : gmap string string)
    (final : gmap string value) (argument : Argument) (cli : value) :
  NoDup (map def_name definitions) ->
  snd (ArgumentsParser_init definitions cli_values environ) = Ok final ->
  argument ∈ arguments_of definitions ->
  is_list argument = false -> is_tuple argument = false ->
  cli_values !! name argument = Some cli ->
  let v := fallback_chain cli (env_value environ argument)
                          (default_value argument) in
  (v = VNone /\ final !! name argument = Some VNone)
  \/ (v <> VNone
      /\ exists conv r,
           TYPES_MAPPING_getitem (type argument) = Ok conv
           /\ conv v = Ok r
           /\ final !! name argument = Some r).
Proof.
  intros Hnodup Hrun Hin Hlist Htuple Hcli v.
  destruct (run_own_slot _ _ _ _ _ _ Hnodup Hrun Hin Hcli)
    as (b2 & a2 & b3 & a3 & Hsplit & Hb2 & Hconv & Hb3 & Hfinal).
  fold v in Hb2.
  apply splitting_body_cases in Hsplit
    as (v' & Hv' & [[-> _] | (l & Hcompound & _)]).
  - rewrite Hb2 in Hb3.
    destruct (_convert_values_body_scalar b3 a3 argument v Hlist Htuple
                Hb3 Hconv) as [[Hv ->] | (Hv & conv & r & Hc & Hr & ->)].
    + left. split; [exact Hv|]. rewrite Hfinal, Hb3, Hv. reflexivity.
    + right. split; [exact Hv|]. exists conv, r.
      rewrite lookup_insert_eq in Hfinal. auto.
  - unfold compound in Hcompound. rewrite Hlist, Htuple in Hcompound.
    discriminate.
Qed.

(** A count from the environment, with no default. *)
Lemma scalar_argument_resolves_witness :
  match snd (ArgumentsParser_init
               [mk_arg_def "count" "int" "a count" "--count" (Some "COUNT")
                  None]
               (absent "count") {[ "COUNT" := " 12 " ]}) with
  | Ok final => final !! "count" = Some (VInt 12)
  | Raise _ => False
  end.
Proof.
  destruct (snd (ArgumentsParser_init
                   [mk_arg_def "count" "int" "a count" "--count"
                      (Some "COUNT") None]
                   (absent "count") {[ "COUNT" := " 12 " ]}))
    as [final|e] eqn:Hrun.
  - destruct (scalar_argument_resolves
                [mk_arg_def "count" "int" "a count" "--count" (Some "COUNT")
                   None]
                (absent "count") {[ "COUNT" := " 12 " ]} final
                (__post_init__ "count" "int" "a count" "--count"
                   (Some "COUNT") None)
                VNone
                (NoDup_singleton _) Hrun
                ltac:(apply list_elem_of_singleton; reflexivity)
                eq_refl eq_refl eq_refl)
      as [[Hv _] | (_ & conv & r & Hconv & Hr & Hfinal)].
    + discriminate Hv.
    + injection Hconv as <-. injection Hr as <-. exact Hfinal.
  - vm_compute in Hrun. discriminate.
Defined.

(** ** Where a [RuntimeError] comes from *)

Lemma read_token_pass_Throw (self : shlex) (quoted : bool)
    (escapedstate : ascii) (e : exn) :
  read_token_pass self quoted escapedstate = Throw e -> from_lexer e = true.
Proof.
  destruct self as [ins px com wc ws wss qs es eqs st pb ln tk].
  unfold read_token_pass, emit_or_continue, token_add. shlex_fields.
  destruct ins as [|c ins]; destruct st as [st|].
  all: cbn [drop_str]; cbv zeta; split_ifs; shlex_fields.
  all: intros H; try discriminate H; injection H as <-; reflexivity.
Qed.

Lemma read_token_loop_Raise (budget : nat) :
  forall self quoted escapedstate e,
    read_token_loop budget self quoted escapedstate = Raise e ->
    from_lexer e = true.
Proof.
  induction budget as [|budget IH]; intros self quoted escapedstate e;
    cbn [read_token_loop]; [intros [= <-]; reflexivity|].
  destruct (read_token_pass self quoted escapedstate)
    as [self' quoted' escapedstate' | self' quoted' | e'] eqn:Hpass.
  - apply IH.
  - discriminate.
  - intros [= <-]. exact (read_token_pass_Throw _ _ _ _ Hpass).
Qed.

Lemma shlex_next_Raise (self : shlex) (e : exn) :
  shlex_next self = Raise e -> from_lexer e = true.
Proof.
  unfold shlex_next, get_token, read_token. intros H.
  apply bindE_Raise in H as [H | ([tok self'] & _ & H)].
  - destruct (pushback self); [|discriminate].
    apply bindE_Raise in H as [H | ([self' quoted] & _ & H)].
    + exact (read_token_loop_Raise _ _ _ _ _ H).
    + destruct (_ && _); discriminate.
  - destruct tok as [t|]; [|discriminate].
    destruct (eof self') as [end_token|]; [|discriminate].
    destruct (String.eqb t end_token); discriminate.
Qed.

Lemma shlex_list_Raise (budget : nat) :
  forall self e, shlex_list budget self = Raise e -> from_lexer e = true.
Proof.
  induction budget as [|budget IH]; intros self e; cbn [shlex_list];
    [intros [= <-]; reflexivity|].
  intros H. apply bindE_Raise in H as [H | ([tok self'] & _ & H)].
  - exact (shlex_next_Raise _ _ H).
  - destruct tok as [t|]; [|discriminate].
    apply bindE_Raise in H as [H | (rest & _ & H)]; [|discriminate].
    exact (IH _ _ H).
Qed.

Lemma shlex_split_Raise (s : string) (e : exn) :
  shlex_split s = Raise e -> from_lexer e = true.
Proof. apply shlex_list_Raise. Qed.

Lemma _split_list_Raise (argument : Argument) (s : string) (e : exn) :
  _split_list argument s = Raise e -> from_lexer e = true.
Proof.
  unfold _split_list. destruct (String.eqb s ""); [discriminate|].
  apply shlex_list_Raise.
Qed.

Lemma _parse_tuple_RuntimeError (argument : Argument) (s msg : string) :
  _parse_tuple argument s = Raise (RuntimeError msg) ->
  exists types toks,
    tuple_types argument = Some types
    /\ shlex_split s = Ok toks
    /\ toks <> []
    /\ List.length toks <> List.length types
    /\ msg = arity_message (name argument) (List.length types)
                           (List.length toks) s.
Proof.
  unfold _parse_tuple, len_tuple_types. intros H.
  destruct (shlex_split s) as [toks|e] eqn:Hsplit.
  - cbn [bindE] in H.
    destruct toks as [|t toks]; [discriminate|].
    change (List.length (t :: toks) =? 0)%nat with false in H. cbv iota in H.
    destruct (tuple_types argument) as [types|]; [|discriminate].
    cbn [bindE] in H.
    destruct (List.length (t :: toks) =? List.length types)%nat eqn:Hlen;
      [discriminate|].
    cbn [negb] in H. injection H as <-.
    apply Nat.eqb_neq in Hlen.
    exists types, (t :: toks). repeat split; [discriminate | exact Hlen].
  - cbn [bindE] in H. injection H as ->.
    apply shlex_split_Raise in Hsplit. discriminate.
Qed.

(** The first element on which a loop raises. *)
Lemma mapE_Raise_first {A B} (f : A -> Exc B) (l : list A) (e : exn) :
  mapE f l = Raise e ->
  exists n x,
    l !! n = Some x /\ f x = Raise e
    /\ forall i y, i < n -> l !! i = Some y -> exists r, f y = Ok r.
Proof.
  induction l as [|y l IH]; cbn [mapE]; [discriminate|].
  intros H. apply bindE_Raise in H as [H | (r & Hr & H)].
  - exists 0, y. split; [reflexivity|]. split; [exact H|]. intros i z Hi. lia.
  - apply bindE_Raise in H as [H | (rs & _ & H)]; [|discriminate].
    destruct (IH H) as (n & x & Hn & Hx & Hbefore).
    exists (S n), x. split; [exact Hn|]. split; [exact Hx|].
    intros [|i] z Hi Hz.
    + injection Hz as <-. eauto.
    + apply (Hbefore i z); [lia | exact Hz].
Qed.

Lemma splitting_body_RuntimeError (values : gmap string value)
    (argument : Argument) (msg : string) :
  splitting_body values argument = Raise (RuntimeError msg) ->
  is_tuple argument = true
  /\ exists s value,
       values !! name argument = Some (VStr s)
       /\ _parse_tuple argument value = Raise (RuntimeError msg)
       /\ if is_list argument
          then exists elements n,
                 _split_list argument s = Ok elements
                 /\ elements !! n = Some value
                 /\ forall i w, i < n -> elements !! i = Some w ->
                      exists r, _parse_tuple argument w = Ok r
          else value = s.
Proof.
  unfold splitting_body, _calculate_lists_and_tuples_body, getitem.
  destruct (values !! name argument) as [v|]; [|discriminate].
  rewrite bindO_snd. cbn [liftO snd bindE]. intros H.
  destruct (is_list argument) eqn:Hlist, (is_tuple argument) eqn:Htuple;
    cbn [negb andb] in H; try (cbn [liftO snd] in H; discriminate);
    (destruct v as [| s | | |]; try (cbn [liftO snd] in H; discriminate));
    rewrite bindO_snd in H;
    apply bindE_Raise in H as [H | (r & _ & H)];
    try (cbn [liftO snd] in H; discriminate).
  - split; [reflexivity|]. rewrite _parse_list_of_tuples_snd in H.
    apply bindE_Raise in H as [H | (elements & Hsplit & H)].
    + apply _split_list_Raise in H. discriminate.
    + apply mapE_Raise_first in H as (n & value & Hn & H & Hbefore).
      exists s, value. split; [reflexivity|]. split; [exact H|].
      exists elements, n. auto.
  - cbn [liftO snd] in H. rewrite _parse_list_map in H.
    apply bindE_Raise in H as [H | (values' & _ & H)].
    + apply _split_list_Raise in H. discriminate.
    + apply mapE_Raise_elem in H as (value & _ & H).
      unfold first_shell_token in H.
      apply bindE_Raise in H as [H | (toks & _ & H)]; [|discriminate].
      apply shlex_split_Raise in H. discriminate.
  - split; [reflexivity|]. cbn [liftO snd] in H.
    exists s, s. auto.
Qed.

(** X16: over definitions with distinct names, a run raises a
    [RuntimeError] for one reason only: the arity error of [_parse_tuple].
    Some tuple-shaped argument then has a fallback chain (CLI value, else
    environment value, else default) that ends with a raw text; the text at
    fault is that raw text itself when the argument is not list-shaped, and
    otherwise the first element of the list splitting of that raw text whose
    tuple splitting raises.  [shlex.split] cuts the text at fault into at
    least one token and into another number of tokens than the argument
    declares kinds, and the message is the one of that argument, those
    counts and that text. *)
Theorem runtime_error_is_arity_error (definitions : list arg_def)
    (cli_values : gmap string value) (environ : gmap string string)
    (msg : string) :
  NoDup (map def_name definitions) ->
  snd (ArgumentsParser_init definitions cli_values environ)
  = Raise (RuntimeError msg) ->
  exists argument cli s types text toks,
    argument ∈ arguments_of definitions
    /\ is_tuple argument = true
    /\ tuple_types argument = Some types
    /\ cli_values !! name argument = Some cli
    /\ fallback_chain cli (env_value environ argument)
                      (default_value argument) = VStr s
    /\ (if is_list argument
        then exists elements n,
               _split_list argument s = Ok elements
               /\ elements !! n = Some text
               /\ forall i w, i < n -> elements !! i = Some w ->
                    exists r, _parse_tuple argument w = Ok r
        else text = s)
    /\ shlex_split text = Ok toks
    /\ toks <> []
    /\ List.length toks <> List.length types
    /\ msg = arity_message (name argument) (List.length types)
                           (List.length toks) text.
Proof.
  intros Hnodup. rewrite <- arguments_of_names in Hnodup.
  rewrite ArgumentsParser_init_stages. intros Hrun.
  apply bindE_Raise in Hrun as [Hrun | (v1 & Hfall & Hrun)].
  { apply (for_arguments_Raise _ (_fallback_values_body_local environ))
      in Hrun as (a & before & _ & Hbody & _).
    apply _fallback_values_body_missing in Hbody as (_ & Hbody).
    discriminate. }
  apply bindE_Raise in Hrun as [Hrun | (v2 & _ & Hrun)].
  - apply (for_arguments_Raise_own _ splitting_body_local _ _ _ Hnodup)
      in Hrun as (a & before & Ha & Hbody & Hown).
    destruct (for_arguments_dom _ (_fallback_values_body_local environ)
                _ _ _ Hfall) as (_ & Hkeys).
    destruct (Hkeys a Ha) as (cli & Hcli).
    destruct (for_arguments_own _ (_fallback_values_body_local environ)
                _ _ _ a Hnodup Hfall Ha)
      as (b1 & a1 & Hbody1 & Hb1 & Hv1).
    rewrite Hcli in Hb1.
    rewrite (_fallback_values_body_chain environ b1 a cli Hb1) in Hbody1.
    injection Hbody1 as <-. rewrite lookup_insert_eq in Hv1.
    apply splitting_body_RuntimeError in Hbody
      as (Htuple & s & value & Hheld & Hvalue & Htie).
    apply _parse_tuple_RuntimeError in Hvalue
      as (types & toks & Htypes & Hsplit & Hne & Hlen & ->).
    exists a, cli, s, types, value, toks.
    split; [exact Ha|]. split; [exact Htuple|]. split; [exact Htypes|].
    split; [exact Hcli|]. split; [congruence|]. split; [exact Htie|].
    auto.
  - apply (for_arguments_Raise _ _convert_values_body_local)
      in Hrun as (a & before & _ & Hbody & _).
    exfalso. exact (_convert_values_body_no_arity_error _ _ _ Hbody).
Qed.

(** The run on [list[tuple[int,int]]] whose default is ["1 2;3"]: the
    second element, ["3 "], is the first that fails. *)
Lemma runtime_error_is_arity_error_witness :
  exists argument cli s types text toks,
    argument ∈ arguments_of [pairs_def (Some "1 2;3")]
    /\ is_tuple argument = true
    /\ tuple_types argument = Some types
    /\ (absent "pairs" : gmap string value) !! name argument = Some cli
    /\ fallback_chain cli (env_value ∅ argument) (default_value argument)
       = VStr s
    /\ (if is_list argument
        then exists elements n,
               _split_list argument s = Ok elements
               /\ elements !! n = Some text
               /\ forall i w, i < n -> elements !! i = Some w ->
                    exists r, _parse_tuple argument w = Ok r
        else text = s)
    /\ shlex_split text = Ok toks
    /\ toks <> []
    /\ List.length toks <> List.length types
    /\ "Tuple pairs expected 2 values and got 1: 3 ."
       = arity_message (name argument) (List.length types)
                       (List.length toks) text.
Proof.
  apply (runtime_error_is_arity_error [pairs_def (Some "1 2;3")]
           (absent "pairs") ∅).
  - apply NoDup_singleton.
  - vm_compute. reflexivity.
Defined.

(** ** Where a [KeyError] comes from *)

Lemma TYPES_MAPPING_getitem_Raise (key : string) (e : exn) :
  TYPES_MAPPING_getitem key = Raise e ->
  e = KeyError key /\ TYPES_MAPPING key = None.
Proof.
  unfold TYPES_MAPPING_getitem.
  destruct (TYPES_MAPPING key); [discriminate|]. intros [= <-]. auto.
Qed.

Lemma converter_no_KeyError (key : string) (conv : value -> Exc value)
    (v : value) (k : string) :
  TYPES_MAPPING_getitem key = Ok conv -> conv v <> Raise (KeyError k).
Proof.
  unfold TYPES_MAPPING_getitem, TYPES_MAPPING. intros H.
  destruct (String.eqb key "str");
    [injection H as <-; unfold py_str; destruct v;
     try destruct (repr_overlong _); discriminate|].
  destruct (String.eqb key "int").
  { injection H as <-. destruct v; cbn [py_int]; try discriminate.
    destruct (int_overlong s); [discriminate|].
    destruct (int_literal s); discriminate. }
  destruct (String.eqb key "bool"); [injection H as <-; discriminate|].
  destruct (String.eqb key "switch"); [injection H as <-; discriminate|].
  discriminate.
Qed.

Lemma py_iter_no_KeyError (v : value) (k : string) :
  py_iter v <> Raise (KeyError k).
Proof. destruct v; discriminate. Qed.

Lemma tuple_converters_KeyError (types : list string) (k : string) :
  mapE TYPES_MAPPING_getitem types = Raise (KeyError k) ->
  In k types /\ TYPES_MAPPING k = None.
Proof.
  intros H. apply mapE_Raise_elem in H as (key & Hin & Hkey).
  apply TYPES_MAPPING_getitem_Raise in Hkey as ([= ->] & Hnone). auto.
Qed.

Lemma zip_convert_no_KeyError (types : list string)
    (converters : list (value -> Exc value)) (items : list value)
    (k : string) :
  mapE TYPES_MAPPING_getitem types = Ok converters ->
  zip_convert converters items <> Raise (KeyError k).
Proof.
  intros Hconv. apply mapE_Ok in Hconv. revert items.
  induction Hconv as [|t conv types converters Ht _ IH]; intros items;
    [discriminate|].
  destruct items as [|x items]; [discriminate|].
  cbn [zip_convert]. intros H.
  apply bindE_Raise in H as [H | (v & _ & H)].
  - exact (converter_no_KeyError t conv x k Ht H).
  - apply bindE_Raise in H as [H | (vs & _ & H)]; [|discriminate].
    exact (IH items H).
Qed.

Lemma _convert_values_body_KeyError (values : gmap string value)
    (argument : Argument) (k : string) :
  (is_list argument = true -> list_type argument <> None) ->
  _convert_values_body values argument = Raise (KeyError k) ->
  (values !! name argument = None /\ k = name argument)
  \/ (TYPES_MAPPING k = None /\ declares argument k).
Proof.
  intros Hinner. unfold _convert_values_body, getitem, declares.
  destruct (values !! name argument) as [v|];
    [|intros [= <-]; left; auto].
  cbn [bindE]. destruct (is_None v); [discriminate|]. intros H. right.
  destruct (is_list argument) eqn:Hlist, (is_tuple argument) eqn:Htuple;
    cbn [negb andb] in H.
  - unfold tuple_converters in H.
    destruct (tuple_types argument) as [types|]; [|discriminate].
    apply bindE_Raise in H as [H | (converters & Hconv & H)].
    { apply tuple_converters_KeyError in H as (Hin & Hnone). auto. }
    apply bindE_Raise in H as [H | (items & _ & H)];
      [destruct (py_iter_no_KeyError _ _ H)|].
    apply bindE_Raise in H as [H | (r & _ & H)]; [|discriminate].
    apply mapE_Raise_elem in H as (x & _ & H).
    apply bindE_Raise in H as [H | (elems & _ & H)];
      [destruct (py_iter_no_KeyError _ _ H)|].
    apply bindE_Raise in H as [H | (r & _ & H)]; [|discriminate].
    destruct (zip_convert_no_KeyError _ _ _ _ Hconv H).
  - apply bindE_Raise in H as [H | (items & _ & H)];
      [destruct (py_iter_no_KeyError _ _ H)|].
    apply bindE_Raise in H as [H | (r & _ & H)]; [|discriminate].
    apply mapE_Raise_elem in H as (x & _ & H).
    unfold list_converter in H.
    destruct (list_type argument) as [inner|];
      [|destruct (Hinner eq_refl eq_refl)].
    apply bindE_Raise in H as [H | (conv & Hconv & H)].
    + apply TYPES_MAPPING_getitem_Raise in H as ([= ->] & Hnone). auto.
    + destruct (converter_no_KeyError _ _ _ _ Hconv H).
  - unfold tuple_converters in H.
    destruct (tuple_types argument) as [types|]; [|discriminate].
    apply bindE_Raise in H as [H | (converters & Hconv & H)].
    { apply tuple_converters_KeyError in H as (Hin & Hnone). auto. }
    apply bindE_Raise in H as [H | (items & _ & H)];
      [destruct (py_iter_no_KeyError _ _ H)|].
    apply bindE_Raise in H as [H | (r & _ & H)]; [|discriminate].
    destruct (zip_convert_no_KeyError _ _ _ _ Hconv H).
  - apply bindE_Raise in H as [H | (conv & Hconv & H)].
    + apply TYPES_MAPPING_getitem_Raise in H as ([= ->] & Hnone). auto.
    + apply bindE_Raise in H as [H | (r & _ & H)]; [|discriminate].
      destruct (converter_no_KeyError _ _ _ _ Hconv H).
Qed.

Lemma _parse_tuple_Raise (argument : Argument) (s : string) (e : exn) :
  _parse_tuple argument s = Raise e ->
  from_lexer e = true \/ (exists msg, e = TypeError msg)
  \/ (exists msg, e = RuntimeError msg).
Proof.
  unfold _parse_tuple, len_tuple_types. intros H.
  apply bindE_Raise in H as [H | (toks & _ & H)];
    [left; exact (shlex_split_Raise _ _ H)|].
  destruct (List.length toks =? 0)%nat; [discriminate|].
  destruct (tuple_types argument); cbn [bindE] in H;
    [|injection H as <-; eauto].
  destruct (negb _); [|discriminate]. injection H as <-. eauto.
Qed.

Lemma splitting_body_KeyError (values : gmap string value)
    (argument : Argument) (k : string) :
  splitting_body values argument = Raise (KeyError k) ->
  values !! name argument = None /\ k = name argument.
Proof.
  unfold splitting_body, _calculate_lists_and_tuples_body, getitem.
  destruct (values !! name argument) as [v|];
    [|intros [= <-]; auto].
  rewrite bindO_snd. cbn [liftO snd bindE]. intros H. exfalso.
  assert (Htuple : forall value, _parse_tuple argument value
                                 <> Raise (KeyError k)).
  { intros value Hvalue.
    apply _parse_tuple_Raise in Hvalue as [Hv | [[m Hv] | [m Hv]]];
      discriminate. }
  destruct (is_list argument), (is_tuple argument);
    cbn [negb andb] in H; try (cbn [liftO snd] in H; discriminate);
    (destruct v as [| s | | |]; try (cbn [liftO snd] in H; discriminate));
    rewrite bindO_snd in H;
    apply bindE_Raise in H as [H | (r & _ & H)];
    try (cbn [liftO snd] in H; discriminate).
  - rewrite _parse_list_of_tuples_snd in H.
    apply bindE_Raise in H as [H | (values' & _ & H)].
    + apply _split_list_Raise in H. discriminate.
    + apply mapE_Raise_elem in H as (value & _ & H). exact (Htuple _ H).
  - cbn [liftO snd] in H. rewrite _parse_list_map in H.
    apply bindE_Raise in H as [H | (values' & _ & H)].
    + apply _split_list_Raise in H. discriminate.
    + apply mapE_Raise_elem in H as (value & _ & H).
      unfold first_shell_token in H.
      apply bindE_Raise in H as [H | (toks & _ & H)]; [|discriminate].
      apply shlex_split_Raise in H. discriminate.
  - cbn [liftO snd] in H. exact (Htuple _ H).
Qed.

Lemma lookup_None_same_dom (m m' : gmap string value) (k : string) :
  dom m = dom m' -> m !! k = None -> m' !! k = None.
Proof.
  intros Hdom Hk. apply (not_elem_of_dom (D := gset string)).
  rewrite <- Hdom. apply (not_elem_of_dom (D := gset string)). exact Hk.
Qed.

(** X17: a run raises a [KeyError] for two reasons only: the key is the
    name of a declared argument that the dictionary of CLI values lacks, or
    it is a kind name that some argument declares (its type, the inner kind
    of its list type, or one of the kinds of its tuple type) and that is no
    key of [TYPES_MAPPING]. *)
Theorem key_error_is_missing_name_or_unknown_kind
    (definitions : list arg_def) (cli_values : gmap string value)
    (environ : gmap string string) (k : string) :
  snd (ArgumentsParser_init definitions cli_values environ)
  = Raise (KeyError k) ->
  exists argument,
    argument ∈ arguments_of definitions
    /\ ((k = name argument /\ cli_values !! k = None)
        \/ (TYPES_MAPPING k = None /\ declares argument k)).
Proof.
  rewrite ArgumentsParser_init_stages. intros Hrun.
  apply bindE_Raise in Hrun as [Hrun | (v1 & Hfall & Hrun)].
  { apply (for_arguments_Raise _ (_fallback_values_body_local environ))
      in Hrun as (a & before & Ha & Hbody & Hdom).
    apply _fallback_values_body_missing in Hbody as (Hnone & [= ->]).
    exists a. split; [exact Ha|]. left. split; [reflexivity|].
    exact (lookup_None_same_dom _ _ _ Hdom Hnone). }
  apply (for_arguments_dom _ (_fallback_values_body_local environ))
    in Hfall as (Hdom1 & _).
  apply bindE_Raise in Hrun as [Hrun | (v2 & Hsplit & Hrun)].
  - apply (for_arguments_Raise _ splitting_body_local)
      in Hrun as (a & before & Ha & Hbody & Hdom).
    apply splitting_body_KeyError in Hbody as (Hnone & ->).
    exists a. split; [exact Ha|]. left. split; [reflexivity|].
    apply (lookup_None_same_dom v1); [exact Hdom1|].
    exact (lookup_None_same_dom _ _ _ Hdom Hnone).
  - apply (for_arguments_dom _ splitting_body_local) in Hsplit as (Hdom2 & _).
    apply (for_arguments_Raise _ _convert_values_body_local)
      in Hrun as (a & before & Ha & Hbody & Hdom).
    exists a. split; [exact Ha|].
    apply _convert_values_body_KeyError in Hbody
      as [(Hnone & ->) | Hkind].
    + left. split; [reflexivity|].
      apply (lookup_None_same_dom v1); [exact Hdom1|].
      apply (lookup_None_same_dom v2); [exact Hdom2|].
      exact (lookup_None_same_dom _ _ _ Hdom Hnone).
    + right. exact Hkind.
    + unfold arguments_of in Ha.
      apply list_elem_of_fmap in Ha as (d & -> & _).
      destruct (__post_init___list (def_name d) (def_type d)
                  (def_description d) (def_cli_arg d) (def_env_var d)
                  (def_default_value d)) as (Hl & Ht & _).
      rewrite Hl, Ht. destruct (list_match (def_type d)); discriminate.
Qed.

(** The run on [list[float]] with a default. *)
Lemma key_error_is_missing_name_or_unknown_kind_witness :
  exists argument,
    argument ∈ arguments_of [floats_def (Some "1.5")]
    /\ (("float" = name argument
         /\ (absent "floats" : gmap string value) !! "float" = None)
        \/ (TYPES_MAPPING "float" = None /\ declares argument "float")).
Proof.
  apply (key_error_is_missing_name_or_unknown_kind [floats_def (Some "1.5")]
           (absent "floats") ∅).
  vm_compute. reflexivity.
Defined.

(** ** What a run prints *)

Lemma _parse_list_of_tuples_loop_out (argument : Argument)
    (values : list string) :
  forall ret_val,
    match snd (_parse_list_of_tuples_loop argument values ret_val) with
    | Ok rs =>
        fst (_parse_list_of_tuples_loop argument values ret_val)
        = flat_map printed_lines values
        /\ List.length rs = List.length ret_val + List.length values
    | Raise e =>
        exists n value,
          values !! n = Some value
          /\ _parse_tuple argument value = Raise e
          /\ (forall i w, i < n -> values !! i = Some w ->
                exists r, _parse_tuple argument w = Ok r)
          /\ fst (_parse_list_of_tuples_loop argument values ret_val)
             = flat_map printed_lines (take (S n) values)
    end.
Proof.
  induction values as [|value rest IH]; intros ret_val.
  - cbn. split; [reflexivity | lia].
  - cbn [_parse_list_of_tuples_loop print liftO bindO].
    destruct (_parse_tuple argument value) as [parsed|e] eqn:Hvalue.
    + specialize (IH (ret_val ++ [parsed])%list).
      destruct (_parse_list_of_tuples_loop argument rest
                  (ret_val ++ [parsed])%list) as [out [rs|e]];
        cbn [fst snd] in IH |- *.
      * destruct IH as (-> & Hlen). split; [reflexivity|].
        rewrite Hlen, length_app. cbn [List.length]. lia.
      * destruct IH as (n & v & Hn & Hv & Hbefore & ->).
        exists (S n), v. split; [exact Hn|]. split; [exact Hv|].
        split; [|reflexivity].
        intros [|i] w Hi Hw.
        -- injection Hw as <-. eauto.
        -- apply (Hbefore i w); [lia | exact Hw].
    + cbn [fst snd]. exists 0, value.
      split; [reflexivity|]. split; [exact Hvalue|].
      split; [intros i w Hi; lia|].
      cbn [take flat_map]. rewrite app_nil_r. reflexivity.
Qed.

(** X18: [_parse_list_of_tuples] writes to standard output.  When list
    splitting raises, nothing is printed and the exception is passed on.
    Otherwise two lines are printed for each element in turn, the element
    between two [x] and the text [<class 'str'>]: for every element when the
    call returns, which it does with one tuple for each element; and
    otherwise for the elements up to and including the first one whose
    tuple splitting raises, every element before it being split without
    error, and the call raises the exception of that element. *)
Theorem list_of_tuples_prints_its_elements (argument : Argument)
    (s : string) :
  match _split_list argument s with
  | Raise e => _parse_list_of_tuples argument s = ([], Raise e)
  | Ok values =>
      match snd (_parse_list_of_tuples argument s) with
      | Ok rs =>
          fst (_parse_list_of_tuples argument s)
          = flat_map printed_lines values
          /\ List.length rs = List.length values
      | Raise e =>
          exists n value,
            values !! n = Some value
            /\ _parse_tuple argument value = Raise e
            /\ (forall i w, i < n -> values !! i = Some w ->
                  exists r, _parse_tuple argument w = Ok r)
            /\ fst (_parse_list_of_tuples argument s)
               = flat_map printed_lines (take (S n) values)
      end
  end.
Proof.
  unfold _parse_list_of_tuples.
  destruct (_split_list argument s) as [values|e]; [|reflexivity].
  cbn [liftO bindO].
  pose proof (_parse_list_of_tuples_loop_out argument values []) as Hloop.
  destruct (_parse_list_of_tuples_loop argument values []) as [out r].
  cbn [fst snd app] in Hloop |- *. exact Hloop.
Qed.

Lemma bindO_fst_nil {A B} (m : Out A) (f : A -> Out B) :
  fst m = [] -> (forall a, fst (f a) = []) -> fst (bindO m f) = [].
Proof.
  destruct m as [out [a|e]]; cbn [fst bindO]; intros -> Hf; [|reflexivity].
  specialize (Hf a). destruct (f a) as [out' r]. exact Hf.
Qed.

Lemma _calculate_lists_and_tuples_body_quiet (values : gmap string value)
    (argument : Argument) :
  is_list argument && is_tuple argument = false ->
  fst (_calculate_lists_and_tuples_body values argument) = [].
Proof.
  intros Hshape. unfold _calculate_lists_and_tuples_body.
  apply bindO_fst_nil; [reflexivity|]. intros v.
  destruct (is_list argument), (is_tuple argument); try discriminate;
    cbn [negb andb]; try reflexivity;
    destruct v; try reflexivity;
    (apply bindO_fst_nil; [reflexivity|]); intros r; reflexivity.
Qed.

Lemma _calculate_lists_and_tuples_quiet (arguments : list Argument) :
  forall values,
    Forall (fun a => is_list a && is_tuple a = false) arguments ->
    fst (_calculate_lists_and_tuples arguments values) = [].
Proof.
  induction arguments as [|a rest IH]; intros values Hall; [reflexivity|].
  inversion Hall as [|? ? Ha Hrest]; subst.
  cbn [_calculate_lists_and_tuples].
  apply bindO_fst_nil; [exact (_calculate_lists_and_tuples_body_quiet _ _ Ha)|].
  intros values'. exact (IH values' Hrest).
Qed.

Lemma bindO_liftO_Ok {A B} (a : A) (f : A -> Out B) :
  bindO (liftO (Ok a)) f = f a.
Proof. unfold liftO, bindO. destruct (f a). reflexivity. Qed.

(** X19: a run prints nothing, whether it returns or raises, when no
    declared argument is both list- and tuple-shaped. *)
Theorem run_prints_for_lists_of_tuples_only (definitions : list arg_def)
    (cli_values : gmap string value) (environ : gmap string string) :
  Forall (fun a => is_list a && is_tuple a = false)
         (arguments_of definitions) ->
  fst (ArgumentsParser_init definitions cli_values environ) = [].
Proof.
  intros Hall. unfold ArgumentsParser_init.
  rewrite Argument_new_all, bindO_liftO_Ok.
  apply bindO_fst_nil; [reflexivity|]. intros values1.
  apply bindO_fst_nil;
    [exact (_calculate_lists_and_tuples_quiet _ values1 Hall)|].
  intros values2. reflexivity.
Qed.

(** A tuple and a list whose raw defaults go through the splitting pass:
    the run returns and has printed nothing. *)
Lemma run_prints_for_lists_of_tuples_only_witness :
  fst (ArgumentsParser_init
         [pair_def (Some "5 hello");
          mk_arg_def "names" "list[str]" "a list of names" "--names" None
            (Some "a b;c")]
         {[ "pair" := VNone; "names" := VNone ]} ∅) = []
  /\ snd (ArgumentsParser_init
            [pair_def (Some "5 hello");
             mk_arg_def "names" "list[str]" "a list of names" "--names" None
               (Some "a b;c")]
            {[ "pair" := VNone; "names" := VNone ]} ∅)
     = Ok {[ "pair" := VList [VInt 5; VStr "hello"];
             "names" := VList [VStr "a"; VStr "c"] ]}.
Proof.
  split.
  - apply run_prints_for_lists_of_tuples_only. repeat constructor.
  - vm_compute. reflexivity.
Defined.
